(** * meas_deblender: the NMF deblender core, embedded and verified

    A shallow embedding of [python/lsst/meas/deblender/nmf.py] (the
    multiplicative / inverse update rules, the symmetry operator builder, the
    initial estimator and the fit diagnostics) and of the operator-loading
    paths of [python/lsst/meas/deblender/proximal.py].

    Numbers.  The source computes with NumPy [float64] arrays.  Here an array
    entry is an exact rational ([Q]); equality of entries is [Qeq] ([==]).
    Rounding, overflow and NaN are therefore outside the model: every
    statement below is about the arithmetic the source writes down, carried
    out exactly.  Python integers (pixel coordinates, sizes, indices) are [Z].

    Arrays.  A 1-D array is a [list Q]; a 2-D array is a list of rows.
    Sparse matrices ([scipy.sparse]) are represented by the dense matrix they
    denote.  Exceptions raised by the source are values of [exn], carried by
    the [result] monad: the IndexError of [H[k]] and [H[-1]], the LinAlgError
    of [np.linalg.inv], the NotImplementedError of the PSF operator, the
    ValueError of an operator that does not fit its row, of a row assigned
    from an array of another length, and of [reshape].

    Limits.  The element-wise operations and the products of the update
    rules ([np.dot], [+], [*], [/] on whole arrays) are modelled for arrays
    whose shapes fit: on other shapes NumPy broadcasts or raises ValueError,
    while the operations below read 0 beyond the end of a row and stop at
    the shorter operand.  A division by a denominator that is exactly 0
    gives [inf] or [nan] in the source and 0 here ([Qdiv]).  A statement
    that is to hold of the running program on every input carries the
    hypotheses on shapes and denominators that keep it inside these
    limits. *)

From Stdlib Require Import QArith Qabs Qfield ZArith Lia Lqa List Ascii String
  Bool.
From stdpp Require Import list.
Import ListNotations.

(** ** Exceptions and the [result] monad *)

Inductive exn : Type :=
| IndexError
| ValueError
| LinAlgError
| AttributeError
| NotImplementedError (msg : string).

Inductive result (A : Type) : Type :=
| Ok (a : A)
| Raise (e : exn).
Arguments Ok {A} a.
Arguments Raise {A} e.

#[export] Instance result_ret : MRet result := fun A a => Ok a.
#[export] Instance result_bind : MBind result := fun A B k m =>
  match m with
  | Ok a => k a
  | Raise e => Raise e
  end.

(** A [for] loop whose body may raise. *)
Fixpoint foldM {A S : Type} (body : S -> A -> result S) (l : list A) (s : S)
  : result S :=
  match l with
  | [] => Ok s
  | a :: l' => s' ← body s a; foldM body l' s'
  end.

(** ** NumPy on exact rationals *)

Module np.

Local Open Scope Q_scope.

Abbreviation vec := (list Q).
Abbreviation matrix := (list (list Q)).

(** [range(n)] over Python integers. *)
Definition range (n : Z) : list Z := map Z.of_nat (seq 0 (Z.to_nat n)).

(** [M[i, j]], reading 0 outside the array. *)
Definition get (M : matrix) (i j : nat) : Q := nth j (nth i M []) 0%Q.

(** [M.shape]. *)
Definition shape0 (M : matrix) : nat := length M.
Definition shape1 (M : matrix) : nat := length (nth 0 M []).

(** [np.zeros(n)] and [np.zeros((m, n))]. *)
Definition zeros1 (n : nat) : vec := repeat 0%Q n.
Definition zeros (m n : nat) : matrix := repeat (zeros1 n) m.

(** [np.eye(n)]. *)
Definition eye (n : nat) : matrix :=
  map (fun i => map (fun j => if Nat.eqb i j then 1 else 0) (seq 0 n))
      (seq 0 n).

(** [np.fliplr(M)]: every row reversed. *)
Definition fliplr (M : matrix) : matrix := map (@rev Q) M.

(** [M[i, j] = x] for an index inside the array (outside, NumPy raises
    IndexError; the callers below only use indices inside). *)
Definition setitem (M : matrix) (i j : nat) (x : Q) : matrix :=
  <[ i := <[ j := x ]> (nth i M []) ]> M.

(** [M[lo:hi, lo:hi] = B] for [0 <= lo <= hi <= len(M)] and a [B] of shape
    [(hi-lo, hi-lo)]. *)
Definition setblock (M : matrix) (lo hi : nat) (B : matrix) : matrix :=
  imap (fun p row =>
          if (lo <=? p)%nat && (p <? hi)%nat then
            imap (fun q x =>
                    if (lo <=? q)%nat && (q <? hi)%nat
                    then get B (p - lo) (q - lo) else x) row
          else row) M.

(** [np.sum(v)] of a 1-D array. *)
Fixpoint sum (v : vec) : Q :=
  match v with
  | [] => 0
  | x :: v' => x + sum v'
  end.

(** [np.dot(u, v)] of two 1-D arrays of one length. *)
Fixpoint dot (u v : vec) : Q :=
  match u, v with
  | x :: u', y :: v' => x * y + dot u' v'
  | _, _ => 0
  end.

(** [M.T]. *)
Definition transpose (M : matrix) : matrix :=
  map (fun j => map (fun row => nth j row 0%Q) M) (seq 0 (shape1 M)).

(** [np.dot(A, B)] / [np.matmul(A, B)] of two 2-D arrays. *)
Definition matmul (A B : matrix) : matrix :=
  map (fun r => map (fun c => dot r c) (transpose B)) A.

(** [M.dot(v)] of a 2-D array and a 1-D array. *)
Definition mulmv (M : matrix) (v : vec) : vec := map (fun r => dot r v) M.

(** Element-wise binary operations on arrays of one shape. *)
Definition map2 (f : Q -> Q -> Q) (A B : matrix) : matrix :=
  zip_with (zip_with f) A B.
Definition add : matrix -> matrix -> matrix := map2 Qplus.
Definition sub : matrix -> matrix -> matrix := map2 Qminus.
Definition mul : matrix -> matrix -> matrix := map2 Qmult.
Definition div : matrix -> matrix -> matrix := map2 Qdiv.

(** Operations with a scalar, broadcast to every entry. *)
Definition scale (c : Q) (M : matrix) : matrix := map (map (Qmult c)) M.
Definition add_scalar (M : matrix) (c : Q) : matrix :=
  map (map (fun x => x + c)) M.

(** [np.abs(M)]. *)
Definition abs (M : matrix) : matrix := map (map Qabs) M.

(** [np.sum(M, axis=0)]: the sum of every column. *)
Definition sum_axis0 (M : matrix) : vec := map sum (transpose M).

(** [np.mean(M, axis=0)]: the mean of every column. *)
Definition mean_axis0 (M : matrix) : vec :=
  map (fun c => sum c / inject_Z (Z.of_nat (length M))) (transpose M).

(** [v[v == 0] = 1]. *)
Definition zero_to_one (v : vec) : vec :=
  map (fun x => if Qeq_bool x 0 then 1 else x) v.

(** [M / v] and [M * v] with [v] broadcast along the rows: column [j] of
    [M] is divided (multiplied) by [v[j]]. *)
Definition div_rows (M : matrix) (v : vec) : matrix :=
  map (fun r => zip_with Qdiv r v) M.
Definition mul_rows (M : matrix) (v : vec) : matrix :=
  map (fun r => zip_with Qmult r v) M.

(** Column [j] of [M]. *)
Definition col (M : matrix) (j : nat) : vec := map (fun r => nth j r 0%Q) M.

(** [M[k]], raising IndexError outside [0 <= k < len(M)]. *)
Definition getitem (M : matrix) (k : nat) : result vec :=
  match M !! k with
  | Some r => Ok r
  | None => Raise IndexError
  end.

(** [M[-1]]: the last row, IndexError on an array without rows. *)
Definition getitem_last (M : matrix) : result vec :=
  match last M with
  | Some r => Ok r
  | None => Raise IndexError
  end.

(** An array of one or two dimensions, as far as [np.size] sees it. *)
Inductive ndarray : Type :=
| Arr1 (v : vec)
| Arr2 (M : matrix).

(** [np.size(a)]: the number of entries. *)
Definition size (a : ndarray) : nat :=
  match a with
  | Arr1 v => length v
  | Arr2 M => length (concat M)
  end.

End np.

Abbreviation vec := np.vec.
Abbreviation matrix := np.matrix.

(** Entry-wise equality of arrays, up to [Qeq]. *)
Definition veq (u v : vec) : Prop := Forall2 Qeq u v.
Definition meq (A B : matrix) : Prop := Forall2 veq A B.

(** The regulariser [1e-9] of the update rules. *)
Definition eps : Q := 1 # 1000000000.

(** ** [np.linalg.inv]

    The library routine is modelled by Gauss-Jordan elimination in exact
    arithmetic: the inverse of a square matrix that has one, and
    [LinAlgError] ("Singular matrix", or a matrix that is not square)
    otherwise. *)

Module linalg.

Local Open Scope Q_scope.

(** The first row index [i >= k] with [M[i, k] != 0]. *)
Definition find_pivot (M : matrix) (k : nat) : option nat :=
  List.find (fun i => negb (Qeq_bool (np.get M i k) 0))
            (seq k (length M - k)).

Definition swap_rows (M : matrix) (i j : nat) : matrix :=
  <[ i := nth j M [] ]> (<[ j := nth i M [] ]> M).

(** One elimination step on column [k] of the augmented matrix. *)
Definition eliminate (M : matrix) (k : nat) : result matrix :=
  match find_pivot M k with
  | None => Raise LinAlgError
  | Some p =>
      let M1 := swap_rows M k p in
      let piv := np.get M1 k k in
      let rk := map (fun x => Qred (x / piv)) (nth k M1 []) in
      Ok (imap (fun i r =>
                  if Nat.eqb i k then rk
                  else zip_with (fun x y => Qred (x - nth k r 0 * y)) r rk)
               M1)
  end.

Definition inv (M : matrix) : result matrix :=
  let n := length M in
  if forallb (fun r => Nat.eqb (length r) n) M then
    R ← foldM eliminate (seq 0 n) (zip_with (@app Q) M (np.eye n));
    Ok (map (drop n) R)
  else Raise LinAlgError.

End linalg.

(** ** The footprint abstraction (an external collaborator)

    A bounding box and the ordered peaks, each with integer pixel
    coordinates [(getIx, getIy)]. *)

Record BBox : Type := mkBBox {
  getMinX : Z;
  getMinY : Z;
  getWidth : Z;
  getHeight : Z
}.

Record Peak : Type := mkPeak {
  getIx : Z;
  getIy : Z
}.

Record Footprint : Type := mkFootprint {
  getBBox : BBox;
  getPeaks : list Peak
}.

(** [bbox.getArea()]. *)
Definition getArea (b : BBox) : Z := (getWidth b * getHeight b)%Z.

(** ** nmf.py *)

Section InitialEstimator.

Local Open Scope Q_scope.

(** [np.linalg.pinv], the Moore-Penrose pseudo-inverse, is a library
    routine; [createInitWH] is verified for any function in its place. *)
Variable pinv : matrix -> matrix.

(** [createInitWH(data, debResult, footprint, offset, includeBkg)].
    [templates] holds, for every peak of [debResult] and every filter, the
    symmetric template already laid out over the footprint's bounding box
    and flattened ([Htemplate.flatten()], built by the external deblender);
    row [p] of [H] is their mean over the filters. *)
Definition createInitWH (data : matrix) (templates : list matrix)
    (footprint : Footprint) (offset : Q) (includeBkg : bool)
  : matrix * matrix :=
  let area := Z.to_nat (getArea (getBBox footprint)) in
  let H := map np.mean_axis0 templates in
  (* H[-1,:] = offset, on the extra row of a background source *)
  let H := if includeBkg then H ++ [repeat offset area] else H in
  let W := np.matmul data (pinv H) in
  let normFactor := np.sum_axis0 W in
  let normFactor := np.zero_to_one normFactor in
  let W := np.div_rows W normFactor in
  let H := np.transpose (np.mul_rows (np.transpose H) normFactor) in
  (W, H).

End InitialEstimator.

Local Open Scope Z_scope.

(** [a < b] on rationals, as a boolean. *)
Definition Qlt_bool (a b : Q) : bool := negb (Qle_bool b a).

(** [(n-1)/2.] *)
Definition half_pred (n : Z) : Q := ((inject_Z n - 1) / 2)%Q.

(** [getPeakSymmetryOperator(row, shape, px, py)].  [shape] is
    [(height, width)].  The peak is expected inside the grid
    ([0 <= px < width], [0 <= py < height]); there every index the function
    writes to is inside its array. *)
Definition getPeakSymmetryOperator (row : np.ndarray) (shape : Z * Z)
    (px py : Z) : matrix :=
  let center := (half_pred (fst shape), half_pred (snd shape)) in
  if Qeq_bool (inject_Z px) (snd center) && Qeq_bool (inject_Z py) (fst center)
  then np.fliplr (np.eye (np.size row))
  else
    let '(ymin, ymax) :=
      if Qlt_bool (inject_Z py) (half_pred (fst shape)) then (0, 2 * py + 1)
      else if Qlt_bool (half_pred (fst shape)) (inject_Z py)
           then (2 * py - fst shape + 1, fst shape)
           else (0, fst shape) in
    let '(xmin, xmax) :=
      if Qlt_bool (inject_Z px) (half_pred (snd shape)) then (0, 2 * px + 1)
      else if Qlt_bool (half_pred (snd shape)) (inject_Z px)
           then (2 * px - snd shape + 1, snd shape)
           else (0, snd shape) in
    let '(fpHeight, fpWidth) := shape in
    let fpSize := fpWidth * fpHeight in
    let tWidth := xmax - xmin in
    let tHeight := ymax - ymin in
    let extraWidth := fpWidth - tWidth in
    let pixels := (tHeight - 1) * fpWidth + tWidth in
    let subOp := np.eye (Z.to_nat pixels) in
    let subOp :=
      fold_left (fun subOp i =>
        fold_left (fun subOp j =>
          let idx := Z.to_nat ((i + 1) * tWidth + (i * extraWidth) + j) in
          np.setitem subOp idx idx 0%Q)
          (np.range extraWidth) subOp)
        (np.range (tHeight - 1)) subOp in
    let subOp := np.fliplr subOp in
    let smin := ymin * fpWidth + xmin in
    let smax := (ymax - 1) * fpWidth + xmax in
    let symmetryOp := np.zeros (Z.to_nat fpSize) (Z.to_nat fpSize) in
    np.setblock symmetryOp (Z.to_nat smin) (Z.to_nat smax) subOp.

(** [getSymmetryOperator(H, fp)]: one operator per peak of the footprint.
    The source passes the slice [H[n:]] (every row from [n] on) as [row]. *)
Definition getSymmetryOperator (H : matrix) (fp : Footprint) : list matrix :=
  let bbox := getBBox fp in
  let fpShape := (getHeight bbox, getWidth bbox) in
  imap (fun n peak =>
          let px := getIx peak - getMinX (getBBox fp) in
          let py := getIy peak - getMinY (getBBox fp) in
          getPeakSymmetryOperator (np.Arr2 (drop n H)) fpShape px py)
       (getPeaks fp).

(** [getSymmetryDiffOp(H, fp)]:
    [scipy.sparse.eye(sk.shape[0]) + sk.dot(sk) - 2*sk] for every [sk]. *)
Definition getSymmetryDiffOp (H : matrix) (fp : Footprint) : list matrix :=
  let symmetryObj := getSymmetryOperator H fp in
  map (fun sk =>
         np.sub (np.add (np.eye (np.shape0 sk)) (np.matmul sk sk))
                (np.scale 2 sk))
      symmetryObj.

(** [row[:] = src] on a row of [n] entries: the shapes agree, or [src] has
    a single entry and is broadcast; ValueError otherwise. *)
Definition assign_row {A : Type} (src : list A) (n : nat) : result (list A) :=
  if Nat.eqb (length src) n then Ok src
  else match src with
       | [x] => Ok (repeat x n)
       | _ => Raise ValueError
       end.

(** [D.dot(v)] of an operator and a 1-D array: ValueError ("dimension
    mismatch") unless the columns of [D] are the entries of [v].  A matrix
    without rows has no columns. *)
Definition dot_mv (D : matrix) (v : vec) : result vec :=
  if Nat.eqb (np.shape1 D) (length v)
     && forallb (fun r => Nat.eqb (length r) (length v)) D
  then Ok (np.mulmv D v)
  else Raise ValueError.

(** [getIntensityDiff(H, diffOp, offset, includeBkg)].  [H[k]] raises
    IndexError when [diffOp] has more operators than [H] has rows, and so
    does [H[-1]] when [H] has no row at all; [diffOp[k].dot(H[k])] and the
    assignment to [Hdiff[k]] raise ValueError when the operator does not
    fit the row. *)
Definition getIntensityDiff (H : matrix) (diffOp : list matrix) (offset : Q)
    (includeBkg : bool) : result matrix :=
  let Hdiff := np.zeros (np.shape0 H) (np.shape1 H) in
  Hdiff ← foldM (fun Hdiff k =>
                   Hk ← np.getitem H k;
                   r ← dot_mv (nth k diffOp []) Hk;
                   row ← assign_row r (np.shape1 H);
                   Ok (<[ k := row ]> Hdiff))
                (seq 0 (length diffOp)) Hdiff;
  _ ← (if includeBkg
       then (Hlast ← np.getitem_last H;
             Ok (map (fun x => ((x - offset) ^ 2)%Q) Hlast))
       else Ok []);
  Ok Hdiff.

(** [multiplicativeUpdate(A, W, H, fp, offset, includeBkg, beta, diffOp)];
    [diffOp=None] is [None]. *)
Definition multiplicativeUpdate (A W H : matrix) (fp : Footprint) (offset : Q)
    (includeBkg : bool) (beta : Q) (diffOp : option (list matrix))
  : result (matrix * matrix) :=
  let numerator := np.matmul A (np.transpose H) in
  let denom :=
    np.add_scalar (np.matmul (np.matmul W H) (np.transpose H)) eps in
  let W := np.div (np.mul W numerator) denom in
  let normFactor := np.sum_axis0 (np.abs W) in
  let normFactor := np.zero_to_one normFactor in
  let W := np.div_rows W normFactor in
  let numerator := np.matmul (np.transpose W) A in
  denom ←
    match diffOp with
    | Some diffOp =>
        Hdiff ← getIntensityDiff H diffOp offset includeBkg;
        Ok (np.add_scalar
              (np.add (np.matmul (np.matmul (np.transpose W) W) H)
                      (np.scale beta Hdiff)) eps)
    | None =>
        Ok (np.add_scalar (np.matmul (np.matmul (np.transpose W) W) H) eps)
    end;
  let H := np.div (np.mul H numerator) denom in
  Ok (W, H).

(** [inverseUpdate(A, W, H, fp, offset, includeBkg)].  [M + 1e-9] adds the
    scalar to every entry of [M] (NumPy broadcasting). *)
Definition inverseUpdate (A W H : matrix) (fp : Footprint) (offset : Q)
    (includeBkg : bool) : result (matrix * matrix) :=
  Hinv ← linalg.inv (np.add_scalar (np.matmul H (np.transpose H)) eps);
  let W := np.transpose (np.matmul Hinv (np.matmul H (np.transpose A))) in
  let normFactor := np.sum_axis0 (np.abs W) in
  let normFactor := np.zero_to_one normFactor in
  let W := np.div_rows W normFactor in
  Winv ← linalg.inv (np.add_scalar (np.matmul (np.transpose W) W) eps);
  let H := np.matmul Winv (np.matmul (np.transpose W) A) in
  Ok (W, H).

(** The fit diagnostic logged by [MulticolorCalExp.deblend] for the filter of
    index [fidx]: [100*np.abs(np.sum(diff)/np.sum(self.data[fidx]))] with
    [diff = (np.dot(newW, newH)-self.data)[fidx]] (reshaping [diff] to the
    footprint leaves its sum unchanged). *)
Definition residualDifference (newW newH data : matrix) (fidx : nat) : Q :=
  let diff := nth fidx (np.sub (np.matmul newW newH) data) [] in
  (100 * Qabs (np.sum diff / np.sum (nth fidx data [])))%Q.

(** An update rule with its keyword arguments applied, as
    [MulticolorCalExp.deblend] calls it. *)
Definition nmfUpdate : Type :=
  matrix -> matrix -> matrix -> Footprint -> Q -> bool ->
  result (matrix * matrix).

(** The solver loop of [MulticolorCalExp.deblend]:
    [for i in range(steps): newW, newH = nmfUpdateFunc(...)]. *)
Fixpoint iterate (nmfUpdateFunc : nmfUpdate) (data : matrix) (fp : Footprint)
    (offset : Q) (includeBkg : bool) (steps : nat) (newW newH : matrix)
  : result (matrix * matrix) :=
  match steps with
  | O => Ok (newW, newH)
  | S steps' =>
      '(newW, newH) ← nmfUpdateFunc data newW newH fp offset includeBkg;
      iterate nmfUpdateFunc data fp offset includeBkg steps' newW newH
  end.

(** ** proximal.py: loading of the operators *)

Module proximal.

(** A stack of images, one per band. *)
Definition cube : Type := list matrix.

(** [DeblendedParent]: the attributes assigned in [__init__] and later. *)
Record DeblendedParent : Type := mkDeblendedParent {
  footprint : Footprint;
  peaks : list Peak;
  data : option cube;
  mask : option cube;
  variance : option cube;
  initSeds : option matrix;
  initIntensities : option cube;
  seds : option matrix;
  intensities : option cube;
  psfOp : option matrix;
  symmetryOp : option matrix;
  monotonicOp : option matrix
}.

(** [DeblendedParent(expDeblend, footprint, peaks)]. *)
Definition init (fp : Footprint) (pks : list Peak) : DeblendedParent :=
  mkDeblendedParent fp pks None None None None None None None None None
                    None.

(** A method: it may update the attributes of [self] and then return or
    raise. *)
Definition method (A : Type) : Type :=
  DeblendedParent -> DeblendedParent * result A.

(** [s.lower()] and [c in s] for a one-character [c]. *)
Definition lower_ascii (c : Ascii.ascii) : Ascii.ascii :=
  let n := Ascii.nat_of_ascii c in
  if (65 <=? n)%nat && (n <=? 90)%nat then Ascii.ascii_of_nat (n + 32)
  else c.

Fixpoint lower (s : string) : string :=
  match s with
  | EmptyString => EmptyString
  | String c s' => String (lower_ascii c) (lower s')
  end.

Fixpoint contains (c : Ascii.ascii) (s : string) : bool :=
  match s with
  | EmptyString => false
  | String c' s' => Ascii.eqb c c' || contains c s'
  end.

(** [s * n] *)
Fixpoint repeat_string (s : string) (n : nat) : string :=
  match n with
  | O => EmptyString
  | S n' => String.append s (repeat_string s n')
  end.

Section Parent.

(** The external collaborators: [buildNmfData] of proximal.py on the
    exposures of the deblender (IndexError without an exposure, ValueError
    for a box that leaves the images), the catalogue behind
    [getParentFootprint], the plotting of the initial and final fits, the
    peak positions relative to the first exposure, the masking of the
    variance by the exposure's mask planes, and the solver
    [proximal_nmf.nmf_deblender].  Each of them returns or raises. *)
Variable buildNmfData : Footprint -> result (cube * cube * cube).
Variable getParentFootprint :
  Z -> bool -> bool -> result (Footprint * list Peak).
Variable plotSeds : option matrix -> result unit.
Variable plotIntensities : option matrix -> option cube -> result unit.
Variable showFit : matrix -> cube -> result unit.
Variable maskVariance : option cube -> option cube -> result cube.
Variable peakPositions : DeblendedParent -> result (list (Z * Z)).
Variable nmf_deblender :
  option cube -> nat -> Z -> list (Z * Z) -> cube -> string ->
  result (matrix * cube * cube).

(** [DeblendedParent.initNMF(initPsf, displaySeds, displayTemplates)]: the
    data are built first, and a failure of [buildNmfData] leaves [self] as
    it was. *)
Definition initNMF (initPsf displaySeds displayTemplates : bool)
  : method (option cube * option cube * option cube *
            option matrix * option cube) :=
  fun self =>
    match buildNmfData (footprint self) with
    | Raise e => (self, Raise e)
    | Ok (d, m, v) =>
        let self :=
          mkDeblendedParent (footprint self) (peaks self) (Some d) (Some m)
            (Some v) (initSeds self) (initIntensities self) (seds self)
            (intensities self) (psfOp self) (symmetryOp self)
            (monotonicOp self) in
        if initPsf then
          (self,
           Raise (NotImplementedError
                    "The PSF Operator is not yet implemented"))
        else
          let self :=
            mkDeblendedParent (footprint self) (peaks self) (data self)
              (mask self) (variance self) (initSeds self)
              (initIntensities self) (seds self) (intensities self) None
              (symmetryOp self) (monotonicOp self) in
          (self,
           _ ← (if displaySeds then plotSeds (initSeds self) else Ok tt);
           _ ← (if displayTemplates
                then plotIntensities (initSeds self) (initIntensities self)
                else Ok tt);
           Ok (data self, mask self, variance self, initSeds self,
               initIntensities self))
    end.

(** [DeblendedParent.getSymmetryOp()]: a bare [return]. *)
Definition getSymmetryOp : method (option matrix) :=
  fun self => (self, Ok None).

(** [DeblendedParent.getMonotonicOp()]: a bare [return]. *)
Definition getMonotonicOp : method (option matrix) :=
  fun self => (self, Ok None).

(** [DeblendedParent.deblend(constraints, maxiter, display)]. *)
Definition deblend (constraints : string) (maxiter : Z) (display : bool)
  : method (matrix * cube) :=
  fun self =>
    let '(self, r) :=
      match data self with
      | None =>
          let '(self, r) := initNMF false false false self in
          (self, _ ← r; Ok tt)
      | Some _ => (self, Ok tt)
      end in
    match r with
    | Raise e => (self, Raise e)
    | Ok _ =>
        match peakPositions self with
        | Raise e => (self, Raise e)
        | Ok pks =>
            let constraints :=
              if Nat.eqb (String.length constraints) 1
              then repeat_string constraints (length pks)
              else constraints in
            match maskVariance (mask self) (variance self) with
            | Raise e => (self, Raise e)
            | Ok variance =>
                match nmf_deblender (data self) (length pks) maxiter pks
                                    variance constraints with
                | Raise e => (self, Raise e)
                | Ok (seds', intensities', model) =>
                    match (if display then showFit seds' intensities'
                           else Ok tt) with
                    | Raise e => (self, Raise e)
                    | Ok _ =>
                        (mkDeblendedParent (footprint self) (peaks self)
                           (data self) (mask self) (proximal.variance self)
                           (initSeds self) (initIntensities self)
                           (Some seds') (Some intensities') (psfOp self)
                           (symmetryOp self) (monotonicOp self),
                         Ok (seds', intensities'))
                    end
                end
            end
        end
    end.

(** [ExposureDeblend.deblendParent(parentIdx, condition, initPsf, display,
    displaySeds, displayTemplates, imgLimits, constraints, maxiter)]:
    the two [if ... in constraints.lower()] branches are [pass]. *)
Definition deblendParent (parentIdx : Z) (initPsf display displaySeds
    displayTemplates imgLimits : bool) (constraints : string)
    (maxiter : Z) : result DeblendedParent :=
  '(fp, pks) ← getParentFootprint parentIdx display imgLimits;
  let deblend0 := init fp pks in
  let '(deblend1, r) :=
    initNMF initPsf displaySeds displayTemplates deblend0 in
  _ ← r;
  let deblend2 :=
    if contains "s"%char (lower constraints) then deblend1 else deblend1 in
  let deblend3 :=
    if contains "m"%char (lower constraints) then deblend2 else deblend2 in
  let '(deblend4, r) := deblend constraints maxiter display deblend3 in
  _ ← r;
  Ok deblend4.

End Parent.

End proximal.

(** ** Vocabulary of the statements *)

(** Every entry is [>= 0]. *)
Definition nonneg_vec (v : vec) : Prop := Forall (fun x => (0 <= x)%Q) v.
Definition nonneg (M : matrix) : Prop := Forall nonneg_vec M.

(** The residual-energy fraction as the specification words it:
    [sum |residual| / sum |A[band]|] with [residual = W.H - A]. *)
Definition residualEnergyFraction (W H A : matrix) (band : nat) : Q :=
  let residual := nth band (np.sub (np.matmul W H) A) [] in
  (np.sum (map Qabs residual) / np.sum (map Qabs (nth band A [])))%Q.

(** The failure raised for the PSF operator. *)
Definition psf_unsupported : exn :=
  NotImplementedError "The PSF Operator is not yet implemented".

(** The exact-inverse update as the specification words it: [eps] is added
    on the diagonal only ([eps * I]), [W = A.Ht.(H.Ht + eps I)^-1] is
    normalised by the zero-sum rule, and [H = (Wt.W + eps I)^-1.Wt.A]. *)
Definition regularise (M : matrix) : matrix :=
  np.add M (np.scale eps (np.eye (length M))).

Definition inverseUpdate_spec (A H : matrix) : result (matrix * matrix) :=
  Hinv ← linalg.inv (regularise (np.matmul H (np.transpose H)));
  let W := np.matmul (np.matmul A (np.transpose H)) Hinv in
  let W := np.div_rows W (np.zero_to_one (np.sum_axis0 (np.abs W))) in
  Winv ← linalg.inv (regularise (np.matmul (np.transpose W) W));
  Ok (W, np.matmul Winv (np.matmul (np.transpose W) A)).

(** [W] as [createInitWH] has it before the normalisation of its columns:
    [np.dot(data, np.linalg.pinv(H))]. *)
Definition createInitWH_before_norm (pinv : matrix -> matrix) (data : matrix)
    (templates : list matrix) (footprint : Footprint) (offset : Q)
    (includeBkg : bool) : matrix :=
  let area := Z.to_nat (getArea (getBBox footprint)) in
  let H := map np.mean_axis0 templates in
  let H := if includeBkg then H ++ [repeat offset area] else H in
  np.matmul data (pinv H).

(** [W] as [multiplicativeUpdate] has it before the normalisation of its
    columns: [W * numerator/denom]. *)
Definition multiplicativeUpdate_before_norm (A W H : matrix) : matrix :=
  np.div (np.mul W (np.matmul A (np.transpose H)))
         (np.add_scalar (np.matmul (np.matmul W H) (np.transpose H)) eps).

(** The multiplicative update without symmetry penalty, as an update rule
    of the solver loop. *)
Definition plainMultiplicativeUpdate (beta : Q) : nmfUpdate :=
  fun A W H fp offset includeBkg =>
    multiplicativeUpdate A W H fp offset includeBkg beta None.

(** *** The geometry of [getPeakSymmetryOperator]

    The names below cut the body of [getPeakSymmetryOperator] into the pieces
    the statements talk about; [getPeakSymmetryOperator_offcenter] shows that
    the function is made of them. *)

(** The index range [(min, max)] of one axis that is symmetric about the
    peak coordinate [p] on an axis of [size] pixels. *)
Definition axis_range (p size : Z) : Z * Z :=
  if 2 * p <? size - 1 then (0, 2 * p + 1)
  else if size - 1 <? 2 * p then (2 * p - size + 1, size)
  else (0, size).

(** [subOp] after the two loops and before [np.fliplr]: the identity over the
    [pixels] entries from the first to the last pixel of the sub-rectangle,
    with the diagonal entries of the extra columns set to 0. *)
Definition zeroed_block (fpWidth tWidth tHeight : Z) : matrix :=
  let extraWidth := fpWidth - tWidth in
  let pixels := (tHeight - 1) * fpWidth + tWidth in
  fold_left (fun subOp i =>
    fold_left (fun subOp j =>
      let idx := Z.to_nat ((i + 1) * tWidth + (i * extraWidth) + j) in
      np.setitem subOp idx idx 0%Q)
      (np.range extraWidth) subOp)
    (np.range (tHeight - 1)) (np.eye (Z.to_nat pixels)).

(** The operator of the off-centre branch for the ranges [(ymin, ymax)] and
    [(xmin, xmax)]. *)
Definition offcenter_operator (fpHeight fpWidth : Z) (yr xr : Z * Z)
  : matrix :=
  let '(ymin, ymax) := yr in
  let '(xmin, xmax) := xr in
  let subOp := np.fliplr (zeroed_block fpWidth (xmax - xmin) (ymax - ymin)) in
  let smin := ymin * fpWidth + xmin in
  let smax := (ymax - 1) * fpWidth + xmax in
  let fpSize := fpWidth * fpHeight in
  np.setblock (np.zeros (Z.to_nat fpSize) (Z.to_nat fpSize))
              (Z.to_nat smin) (Z.to_nat smax) subOp.

(** The peak sits at the geometric centre of the grid. *)
Definition centered (shape : Z * Z) (px py : Z) : bool :=
  (2 * px =? snd shape - 1) && (2 * py =? fst shape - 1).

(** The flat index of the pixel [(x, y)] on a grid of width [fpWidth]. *)
Definition pixel (fpWidth x y : Z) : nat := Z.to_nat (y * fpWidth + x).

(** [v] is point-symmetric about the peak: a pixel and its mirror image
    about [(px, py)], when both are on the grid, hold one value. *)
Definition point_symmetric (shape : Z * Z) (px py : Z) (v : vec) : Prop :=
  forall x y,
    0 <= x < snd shape -> 0 <= y < fst shape ->
    0 <= 2 * px - x < snd shape -> 0 <= 2 * py - y < fst shape ->
    (nth (pixel (snd shape) x y) v 0
       == nth (pixel (snd shape) (2 * px - x) (2 * py - y)) v 0)%Q.

(** [v] is zero at every pixel whose mirror image about the peak falls off
    the grid. *)
Definition vanishes_off_mirror (shape : Z * Z) (px py : Z) (v : vec)
  : Prop :=
  forall x y,
    0 <= x < snd shape -> 0 <= y < fst shape ->
    ~ (0 <= 2 * px - x < snd shape /\ 0 <= 2 * py - y < fst shape) ->
    (nth (pixel (snd shape) x y) v 0 == 0)%Q.

(** Every peak of the footprint lies in its bounding box. *)
Definition peaks_in_bbox (fp : Footprint) : Prop :=
  Forall (fun peak =>
            0 <= getIx peak - getMinX (getBBox fp) < getWidth (getBBox fp)
            /\ 0 <= getIy peak - getMinY (getBBox fp) < getHeight (getBBox fp))
         (getPeaks fp).

(** The difference operator as the specification words it:
    [I + St.S - 2 S]. *)
Definition diffOperator_spec (S : matrix) : matrix :=
  np.sub (np.add (np.eye (np.shape0 S)) (np.matmul (np.transpose S) S))
         (np.scale 2 S).

(** Row [i] of a 0/1 diagonal matrix of size [n]: one at [i] unless
    [zeroed]. *)
Definition mask_row (n i : nat) (zeroed : bool) : vec :=
  map (fun j => if Nat.eqb i j && negb zeroed then 1%Q else 0%Q) (seq 0 n).

(** The identity of size [n] with the diagonal entries selected by [z] set
    to 0. *)
Definition diag_mask (n : nat) (z : nat -> bool) : matrix :=
  map (fun i => mask_row n i (z i)) (seq 0 n).

(** The indices [idx] visited by the two loops of
    [getPeakSymmetryOperator]. *)
Definition zeroed_indices (fpWidth tWidth tHeight : Z) : list nat :=
  flat_map (fun i =>
              map (fun j =>
                     Z.to_nat ((i + 1) * tWidth
                               + (i * (fpWidth - tWidth)) + j))
                  (np.range (fpWidth - tWidth)))
           (np.range (tHeight - 1)).

(** Index [i] is one of them. *)
Definition zeroed (fpWidth tWidth tHeight : Z) (i : nat) : bool :=
  existsb (Nat.eqb i) (zeroed_indices fpWidth tWidth tHeight).

(** The pixel [(x, y)] lies in the sub-rectangle of the ranges [yr], [xr]. *)
Definition in_rect (yr xr : Z * Z) (x y : Z) : bool :=
  (fst xr <=? x) && (x <? snd xr) && (fst yr <=? y) && (y <? snd yr).

(** The mirror image of the pixel [(x, y)] about the peak is on the grid. *)
Definition mirror_on_grid (shape : Z * Z) (px py x y : Z) : bool :=
  (0 <=? 2 * px - x) && (2 * px - x <? snd shape)
  && (0 <=? 2 * py - y) && (2 * py - y <? fst shape).

(** [M] has [r] rows of [c] entries. *)
Definition has_shape (M : matrix) (r c : nat) : Prop :=
  length M = r /\ Forall (fun row => length row = c) M.

(** * The rest of nmf.py, utils.py and proximal.py *)

From Stdlib Require Import Qminmax.

(** ** Python indexing, slices and reshaping *)

(** The position of index [i] in a sequence of [n] items: negative indices
    count from the end, and an index outside [-n <= i < n] has none. *)
Definition py_index (n : nat) (i : Z) : option nat :=
  if (0 <=? i) && (i <? Z.of_nat n) then Some (Z.to_nat i)
  else if (- Z.of_nat n <=? i) && (i <? 0) then Some (Z.to_nat (i + Z.of_nat n))
  else None.

(** [l[i]], IndexError outside the sequence. *)
Definition py_getitem {A : Type} (l : list A) (i : Z) : result A :=
  match py_index (length l) i with
  | Some k =>
      match l !! k with
      | Some x => Ok x
      | None => Raise IndexError
      end
  | None => Raise IndexError
  end.

(** A bound of a slice, brought into [0 .. n]. *)
Definition py_bound (n : nat) (i : Z) : nat :=
  if i <? 0 then Z.to_nat (Z.max (i + Z.of_nat n) 0)
  else Z.to_nat (Z.min i (Z.of_nat n)).

(** [l[lo:hi]]. *)
Definition py_slice {A : Type} (l : list A) (lo hi : Z) : list A :=
  let a := py_bound (length l) lo in
  let b := py_bound (length l) hi in
  take (b - a) (drop a l).

(** [img[ymin:ymax, xmin:xmax]]. *)
Definition np_crop {A : Type} (img : list (list A)) (ymin ymax xmin xmax : Z)
  : list (list A) :=
  map (fun row => py_slice row xmin xmax) (py_slice img ymin ymax).

(** [M.flatten()]. *)
Definition np_flatten {A : Type} (M : list (list A)) : list A := concat M.

(** [h] rows of [w] entries, read off [t] in row-major order. *)
Definition chunks {A : Type} (h w : nat) (t : list A) : list (list A) :=
  map (fun y => take w (drop (y * w) t)) (seq 0 h).

(** [t.reshape((h, w))]: one dimension may be [-1] and is then inferred;
    ValueError when the entries do not fill the shape. *)
Definition np_reshape (t : vec) (h w : Z) : result matrix :=
  let size := Z.of_nat (length t) in
  if (h =? -1) && (w =? -1) then Raise ValueError
  else if h =? -1 then
    if (0 <? w) && (size mod w =? 0)
    then Ok (chunks (Z.to_nat (size / w)) (Z.to_nat w) t)
    else Raise ValueError
  else if w =? -1 then
    if (0 <? h) && (size mod h =? 0)
    then Ok (chunks (Z.to_nat h) (Z.to_nat (size / h)) t)
    else Raise ValueError
  else if (0 <=? h) && (0 <=? w) && (h * w =? size)
       then Ok (chunks (Z.to_nat h) (Z.to_nat w) t)
       else Raise ValueError.

(** [np.min(M)] over all entries of an array that has one. *)
Definition np_amin (M : matrix) : Q :=
  match concat M with
  | [] => 0%Q
  | x :: l => fold_left Qmin l x
  end.

(** [np.sum(M < 0)]: the number of negative entries. *)
Definition count_negative (M : matrix) : nat :=
  length (filter (fun x => Qlt_bool x 0) (concat M)).

(** [-M]. *)
Definition np_neg (M : matrix) : matrix := map (map Qopp) M.

(** ** utils.py *)

(** [getRelativeSlices(bbox, refBbox)]: [(xslice, yslice)], each slice by
    its two bounds. *)
Definition getRelativeSlices (bbox refBbox : BBox) : (Z * Z) * (Z * Z) :=
  let xmin := getMinX bbox - getMinX refBbox in
  let ymin := getMinY bbox - getMinY refBbox in
  let xmax := xmin + getWidth bbox in
  let ymax := ymin + getHeight bbox in
  ((xmin, xmax), (ymin, ymax)).

(** [extractImage(img, bbox)] for an image of bounding box [refBbox] and
    pixel array [arr]. *)
Definition extractImage (refBbox : BBox) (arr : matrix) (bbox : BBox)
  : matrix :=
  let '(xslice, yslice) := getRelativeSlices bbox refBbox in
  np_crop arr (fst yslice) (snd yslice) (fst xslice) (snd xslice).

(** *** The arrays of a footprint *)

(** [M[r, a:b] = v]: IndexError for a row outside the array; the slice is
    clipped to the row. *)
Definition set_row_slice {A : Type} (M : list (list A)) (r a b : Z) (v : A)
  : result (list (list A)) :=
  row ← py_getitem M r;
  let i := default 0%nat (py_index (length M) r) in
  let lo := py_bound (length row) a in
  let hi := py_bound (length row) b in
  Ok (<[i := imap (fun c x =>
                     if (lo <=? c)%nat && (c <? hi)%nat then v else x)
                  row]> M).

(** [M[r, c] = v]: IndexError for a row or a column outside the array. *)
Definition set_entry {A : Type} (M : list (list A)) (r c : Z) (v : A)
  : result (list (list A)) :=
  row ← py_getitem M r;
  let i := default 0%nat (py_index (length M) r) in
  _ ← py_getitem row c;
  let j := default 0%nat (py_index (length row) c) in
  Ok (<[i := <[j := v]> row]> M).

(** A span of a footprint: the row [getY] and the columns from [getMinX]
    to [getMaxX], as [getFootprintArray] reads them. *)
Module Span.
Record t : Type := mk {
  getY : Z;
  getMinX : Z;
  getMaxX : Z
}.
End Span.

(** [getFootprintArray(src)] for a footprint of the spans [spans] and the
    bounding box [bbox]: the data of the two masked arrays
    [(border, filled)]; the mask of each is its complement. *)
Definition getFootprintArray (spans : list Span.t) (bbox : BBox)
  : result (list (list bool) * list (list bool)) :=
  let minX := getMinX bbox in
  let minY := getMinY bbox in
  if (getHeight bbox <? 0) || (getWidth bbox <? 0) then Raise ValueError
  else
    let zeros := repeat (repeat false (Z.to_nat (getWidth bbox)))
                        (Z.to_nat (getHeight bbox)) in
    if Nat.eqb (length zeros) 0 then Ok (zeros, zeros)
    else
      '(border, filled) ←
        foldM (fun '(border, filled) span =>
                 let y := Span.getY span in
                 filled ← set_row_slice filled (y - minY)
                            (Span.getMinX span - minX)
                            (Span.getMaxX span - minX) true;
                 border ← set_entry border (y - minY)
                            (Span.getMinX span - minX) true;
                 border ← set_entry border (y - minY)
                            (Span.getMaxX span - minX - 1) true;
                 Ok (border, filled))
              spans (zeros, zeros);
      first ← py_getitem filled 0;
      let border := <[0%nat := first]> border in
      last ← py_getitem filled (-1);
      let border := <[(length border - 1)%nat := last]> border in
      border ←
        foldM (fun border n =>
                 bn ← py_getitem border n;
                 fn ← py_getitem filled n;
                 fp ← py_getitem filled (n - 1);
                 fs ← py_getitem filled (n + 1);
                 Ok (<[Z.to_nat n :=
                         zip_with orb bn
                           (zip_with andb fn
                              (zip_with orb (zip_with xorb fn fp)
                                        (zip_with xorb fn fs)))]> border))
              (np.range (Z.of_nat (length border) - 1)) border;
      Ok (border, filled).

(** ** nmf.py: the data matrix *)

(** A calibrated exposure, as far as [buildNmfData] reads it: its origin and
    the image and mask arrays of its masked image. *)
Record Exposure : Type := mkExposure {
  getX0 : Z;
  getY0 : Z;
  getImageArray : matrix;
  getMaskArray : list (list Z)
}.

(** [buildNmfData(calexps, footprint)]; [calexps] is the ordered dict of the
    exposures, in the order of its keys. *)
Definition buildNmfData (calexps : list Exposure) (footprint : Footprint)
  : result (matrix * list (list Z)) :=
  first ← py_getitem calexps 0;
  let x0 := getX0 first in
  let y0 := getY0 first in
  let bbox := getBBox footprint in
  let xmin := getMinX bbox - x0 in
  let xmax := xmin + getWidth bbox in
  let ymin := getMinY bbox - y0 in
  let ymax := ymin + getHeight bbox in
  let pixelCount := (ymax - ymin) * (xmax - xmin) in
  if pixelCount <? 0 then Raise ValueError
  else
    foldM (fun '(data, mask) calexp =>
             d ← assign_row
                   (np_flatten (np_crop (getImageArray calexp)
                                        ymin ymax xmin xmax))
                   (Z.to_nat pixelCount);
             m ← assign_row
                   (np_flatten (np_crop (getMaskArray calexp)
                                        ymin ymax xmin xmax))
                   (Z.to_nat pixelCount);
             Ok (data ++ [d], mask ++ [m]))
          calexps ([], []).

(** The offset step of [initNMFparams]: data with a negative entry are
    shifted by [-np.min(data)] when [offsetData] is set. *)
Definition offsetNmfData (data : matrix) (offsetData : bool) : matrix * Q :=
  if offsetData && (0 <? count_negative data)%nat then
    let offset := (- np_amin data)%Q in
    (np.add_scalar data offset, offset)
  else (data, 0%Q).

(** [initNMFparams(calexps, fp, includeBkg, offsetData)]; the symmetric
    templates of the external deblender ([newDeblend]) are [templates], as
    in [createInitWH].  The deblender's own result is not returned here. *)
Definition initNMFparams (pinv : matrix -> matrix) (calexps : list Exposure)
    (templates : list matrix) (fp : Footprint) (includeBkg offsetData : bool)
  : result (matrix * list (list Z) * matrix * matrix * Q) :=
  '(data, mask) ← buildNmfData calexps fp;
  let '(data, offset) := offsetNmfData data offsetData in
  let '(W, H) := createInitWH pinv data templates fp offset includeBkg in
  Ok (data, mask, W, H, offset).

(** ** nmf.py: templates *)

(** [reconstructTemplate(W, H, fidx, pkIdx, offset, fp, reshape,
    includeBkg)]; [fp=None] is [None]. *)
Definition reconstructTemplate (W H : matrix) (fidx pkIdx : Z) (offset : Q)
    (fp : option Footprint) (reshape includeBkg : bool)
  : result np.ndarray :=
  Wrow ← py_getitem W fidx;
  w ← py_getitem Wrow pkIdx;
  Hrow ← py_getitem H pkIdx;
  let template := map (Qmult w) Hrow in
  let template :=
    if includeBkg && (pkIdx =? Z.of_nat (length H) - 1)
    then map (fun x => (x - offset)%Q) template
    else template in
  if reshape then
    match fp with
    | None => Raise ValueError
    | Some fp =>
        M ← np_reshape template (getHeight (getBBox fp))
                       (getWidth (getBBox fp));
        Ok (np.Arr2 M)
    end
  else Ok (np.Arr1 template).

(** ** nmf.py: the solver *)

(** The fit diagnostics that [MulticolorCalExp.deblend] logs for the filter
    [fidx]: [diff = (np.dot(newW, newH)-self.data)[fidx].reshape(fpShape)]
    raises IndexError for a filter without a row and ValueError when the
    row does not fill the footprint's box; [np.min(self.data)] and
    [np.max(diff)] raise ValueError on an array without entries; the
    residual difference is the value logged, [None] where the data of the
    band sum to 0 and the quotient is [inf] or [nan]. *)
Definition fitDiagnostics (newW newH data : matrix) (fp : Footprint)
    (fidx : nat) : result (option Q) :=
  diff ← np.getitem (np.sub (np.matmul newW newH) data) fidx;
  diff ← np_reshape diff (getHeight (getBBox fp)) (getWidth (getBBox fp));
  if Nat.eqb (np.size (np.Arr2 data)) 0 then Raise ValueError
  else if Nat.eqb (np.size (np.Arr2 diff)) 0 then Raise ValueError
  else if Qeq_bool (np.sum (nth fidx data [])) 0 then Ok None
  else Ok (Some (residualDifference newW newH data fidx)).

(** [MulticolorCalExp.deblend(nmfUpdateFunc, steps, display=False,
    **updateKwargs)] of an object without simulation table: the final
    factors and the residual difference logged for every filter. *)
Definition deblend (nmfUpdateFunc : nmfUpdate) (data initW initH : matrix)
    (fp : Footprint) (offset : Q) (includeBkg : bool) (filters : nat)
    (steps : nat) : result (matrix * matrix * list (option Q)) :=
  '(newW, newH) ←
    iterate nmfUpdateFunc data fp offset includeBkg steps initW initH;
  logged ← foldM (fun logged fidx =>
                    r ← fitDiagnostics newW newH data fp fidx;
                    Ok (logged ++ [r]))
                 (seq 0 filters) [];
  Ok (newW, newH, logged).

(** ** nmf.py: the gradient step *)

(** [gradientDescent(A, W, H, fp, offset, includeBkg, stepW, stepH, alpha,
    beta, diffOp)].  The halved step sizes are local names and are not
    returned. *)
Definition gradientDescent (A W H : matrix) (fp : Footprint) (offset : Q)
    (includeBkg : bool) (stepW stepH alpha beta : Q)
    (diffOp : option (list matrix)) : result (matrix * matrix) :=
  let WH := np.matmul W H in
  let derivH := np.matmul (np.transpose W) (np.add (np_neg A) WH) in
  derivH ←
    match diffOp with
    | Some diffOp =>
        Hdiff ← getIntensityDiff H diffOp offset includeBkg;
        Ok (np.add derivH (np.scale beta Hdiff))
    | None => Ok derivH
    end;
  let H := np.sub H (np.scale stepH derivH) in
  let derivW := np.matmul (np.add (np_neg A) WH) (np.transpose H) in
  let W := np.sub W (np.scale stepW derivW) in
  Ok (W, H).

(** ** proximal.py: all the blended parents *)

(** [ExposureDeblend.deblend(condition, initPsf, constraints, maxiter)] over
    the sources [(id, number of peaks)] of the merged catalogue; the
    [OrderedDict] of the results is the list of its items. *)
Definition dict_set {V : Type} (d : list (Z * V)) (k : Z) (v : V)
  : list (Z * V) :=
  if existsb (fun kv => fst kv =? k) d
  then map (fun kv => if fst kv =? k then (k, v) else kv) d
  else d ++ [(k, v)].

Definition deblendAll {V : Type} (deblendParent : Z -> result V)
    (mergedDet : list (Z * nat)) : result (list (Z * V)) :=
  foldM (fun d '(parentIdx, (srcId, npeaks)) =>
           if (1 <? npeaks)%nat then
             r ← deblendParent (Z.of_nat parentIdx);
             Ok (dict_set d srcId r)
           else Ok d)
        (imap (fun i src => (i, src)) mergedDet) [].

(** ** More vocabulary *)

(** Every entry is zero. *)
Definition vzero (v : vec) : Prop := Forall (fun x => (x == 0)%Q) v.
Definition mzero (M : matrix) : Prop := Forall vzero M.

(** The gradient step without symmetry penalty, as an update rule of the
    solver loop. *)
Definition plainGradientDescent (stepW stepH alpha beta : Q) : nmfUpdate :=
  fun A W H fp offset includeBkg =>
    gradientDescent A W H fp offset includeBkg stepW stepH alpha beta None.

(** [H] as [createInitWH] has it before the normalisation: the mean
    templates, with the row of the background. *)
Definition createInitWH_templates (templates : list matrix)
    (footprint : Footprint) (offset : Q) (includeBkg : bool) : matrix :=
  let area := Z.to_nat (getArea (getBBox footprint)) in
  let H := map np.mean_axis0 templates in
  if includeBkg then H ++ [repeat offset area] else H.

(** The flat template of source [k] in the band [fidx], as
    [reconstructTemplate] returns it without footprint ([[]] if it
    raises). *)
Definition flatTemplate (W H : matrix) (fidx : Z) (offset : Q)
    (includeBkg : bool) (k : nat) : vec :=
  match reconstructTemplate W H fidx (Z.of_nat k) offset None false
                            includeBkg with
  | Ok (np.Arr1 v) => v
  | _ => []
  end.

(** The sum over all sources of their templates, at the pixel [p]. *)
Definition summedTemplates (W H : matrix) (fidx : Z) (offset : Q)
    (includeBkg : bool) (p : nat) : Q :=
  np.sum (map (fun k => nth p (flatTemplate W H fidx offset includeBkg k)
                            0%Q)
              (seq 0 (length H))).

(** The sources that [ExposureDeblend.deblend] passes on: position in the
    catalogue and id of every source with more than one peak. *)
Definition blendedParents (mergedDet : list (Z * nat)) : list (nat * Z) :=
  omap (fun '(i, (srcId, npeaks)) =>
          if (1 <? npeaks)%nat then Some (i, srcId) else None)
       (imap (fun i src => (i, src)) mergedDet).

(** Entry [(r, c)] of a boolean array, [false] outside it. *)
Definition bget (M : list (list bool)) (r c : nat) : bool :=
  nth c (nth r M []) false.

(** The span lies in the bounding box and has a column:
    [getMinX < getMaxX]. *)
Definition span_inside (bbox : BBox) (s : Span.t) : Prop :=
  0 <= Span.getY s - getMinY bbox < getHeight bbox
  /\ 0 <= Span.getMinX s - getMinX bbox
  /\ Span.getMinX s < Span.getMaxX s
  /\ Span.getMaxX s - getMinX bbox <= getWidth bbox.

(** The pixel [(r, c)] of the bounding box lies on the span, the column
    [getMaxX] left out. *)
Definition span_covers (bbox : BBox) (r c : nat) (s : Span.t) : bool :=
  (Span.getY s - getMinY bbox =? Z.of_nat r)
  && (Span.getMinX s - getMinX bbox <=? Z.of_nat c)
  && (Z.of_nat c <? Span.getMaxX s - getMinX bbox).

(** * Verification *)

(** ** Entries and shapes of the array operations *)

Lemma nth_map_seq {A : Type} (f : nat -> A) (n i : nat) (d : A) :
  (i < n)%nat -> nth i (map f (seq 0 n)) d = f i.
Proof.
  intros Hi. rewrite nth_lookup, list_lookup_fmap.
  rewrite (lookup_seq_lt 0 n i Hi). reflexivity.
Qed.

Lemma nth_default_ge {A : Type} (l : list A) (i : nat) (d : A) :
  (length l <= i)%nat -> nth i l d = d.
Proof. apply nth_overflow. Qed.

Lemma length_transpose (M : matrix) :
  length (np.transpose M) = np.shape1 M.
Proof. unfold np.transpose. rewrite length_map. apply length_seq. Qed.

Lemma nth_transpose (M : matrix) (j : nat) :
  (j < np.shape1 M)%nat -> nth j (np.transpose M) [] = np.col M j.
Proof.
  intros Hj. unfold np.transpose. rewrite nth_map_seq by exact Hj.
  reflexivity.
Qed.

Lemma nth_col (M : matrix) (i j : nat) :
  nth i (np.col M j) 0%Q = np.get M i j.
Proof.
  unfold np.col, np.get.
  destruct (Nat.lt_ge_cases i (length M)) as [Hi|Hi].
  - rewrite nth_lookup, list_lookup_fmap.
    rewrite (nth_lookup M i []).
    destruct (M !! i) as [r|] eqn:E; [reflexivity|].
    apply lookup_ge_None in E. lia.
  - rewrite nth_default_ge by (rewrite length_map; exact Hi).
    rewrite (nth_default_ge M) by exact Hi. destruct j; reflexivity.
Qed.

Lemma nth_sum_axis0 (M : matrix) (j : nat) :
  (j < np.shape1 M)%nat -> nth j (np.sum_axis0 M) 0%Q = np.sum (np.col M j).
Proof.
  intros Hj. unfold np.sum_axis0.
  rewrite nth_lookup, list_lookup_fmap.
  pose proof (nth_transpose M j Hj) as Ht. rewrite nth_lookup in Ht.
  destruct (np.transpose M !! j) as [c|] eqn:E.
  - simpl in *. congruence.
  - apply lookup_ge_None in E. rewrite length_transpose in E. lia.
Qed.

Lemma length_sum_axis0 (M : matrix) :
  length (np.sum_axis0 M) = np.shape1 M.
Proof. unfold np.sum_axis0. rewrite length_map. apply length_transpose. Qed.

Lemma nth_zero_to_one (v : vec) (j : nat) :
  (j < length v)%nat ->
  nth j (np.zero_to_one v) 0%Q
    = if Qeq_bool (nth j v 0%Q) 0 then 1%Q else nth j v 0%Q.
Proof.
  intros Hj. unfold np.zero_to_one.
  rewrite nth_lookup, list_lookup_fmap, (nth_lookup v).
  destruct (v !! j) as [x|] eqn:E; [reflexivity|].
  apply lookup_ge_None in E. lia.
Qed.

Lemma col_abs (M : matrix) (j : nat) :
  np.col (np.abs M) j = map Qabs (np.col M j).
Proof.
  unfold np.col, np.abs. rewrite !map_map. apply map_ext. intros r.
  rewrite <- (map_nth Qabs). reflexivity.
Qed.

Lemma shape1_abs (M : matrix) : np.shape1 (np.abs M) = np.shape1 M.
Proof.
  unfold np.shape1, np.abs. destruct M as [|r M]; [reflexivity|].
  simpl. apply length_map.
Qed.

(** ** Entry-wise equality *)

Lemma veq_refl (v : vec) : veq v v.
Proof. induction v; constructor; [reflexivity|assumption]. Qed.

Lemma veq_sym (u v : vec) : veq u v -> veq v u.
Proof.
  induction 1 as [|x y u v Hxy _ IH]; constructor;
    [symmetry; exact Hxy|exact IH].
Qed.

Lemma veq_trans (u v w : vec) : veq u v -> veq v w -> veq u w.
Proof.
  intros Huv. revert w.
  induction Huv as [|x y u v Hxy _ IH]; intros w Hvw;
    inversion Hvw; subst; constructor.
  - etransitivity; eassumption.
  - apply IH. assumption.
Qed.

#[export] Instance veq_equivalence : Equivalence veq.
Proof.
  split; [exact veq_refl|exact veq_sym|exact veq_trans].
Qed.

Lemma veq_length (u v : vec) : veq u v -> length u = length v.
Proof. induction 1; simpl; congruence. Qed.

Lemma veq_nth (u v : vec) (i : nat) :
  veq u v -> (nth i u 0 == nth i v 0)%Q.
Proof.
  intros Huv. revert i.
  induction Huv as [|x y u v Hxy _ IH]; intros [|i]; simpl;
    try reflexivity; auto.
Qed.

(** Two arrays of one length with [Qeq] entries are [veq]. *)
Lemma veq_ext (u v : vec) :
  length u = length v ->
  (forall i, (i < length u)%nat -> (nth i u 0 == nth i v 0)%Q) ->
  veq u v.
Proof.
  revert v. induction u as [|x u IH]; intros [|y v] Hlen Hnth;
    try discriminate; constructor.
  - apply (Hnth 0%nat). simpl. lia.
  - apply IH; [simpl in Hlen; lia|].
    intros i Hi. apply (Hnth (S i)). simpl. lia.
Qed.

(** ** Sums of rationals *)

Lemma sum_veq (u v : vec) : veq u v -> (np.sum u == np.sum v)%Q.
Proof.
  induction 1 as [|x y u v Hxy _ IH]; simpl; [reflexivity|].
  rewrite Hxy, IH. reflexivity.
Qed.

Lemma sum_map_div (v : vec) (c : Q) :
  (np.sum (map (fun x => x / c) v) == np.sum v / c)%Q.
Proof.
  induction v as [|x v IH]; simpl.
  - unfold Qdiv. ring.
  - rewrite IH. unfold Qdiv. ring.
Qed.

Lemma sum_nonneg (v : vec) : nonneg_vec v -> (0 <= np.sum v)%Q.
Proof.
  induction 1 as [|x v Hx _ IH]; simpl; [apply Qle_refl|].
  replace 0%Q with (0 + 0)%Q by reflexivity.
  apply Qplus_le_compat; assumption.
Qed.

Lemma nth_zip_with_div (r nf : vec) (j : nat) :
  (nth j (zip_with Qdiv r nf) 0 == nth j r 0 / nth j nf 0)%Q.
Proof.
  revert nf j. induction r as [|x r IH]; intros nf j.
  - destruct j; simpl; unfold Qdiv; ring.
  - destruct nf as [|y nf].
    + destruct j; simpl; unfold Qdiv, Qinv; simpl; ring.
    + destruct j; simpl; [reflexivity|apply IH].
Qed.

(** Column [j] of [M / v] is column [j] of [M] divided by [v[j]]. *)
Lemma col_div_rows (M : matrix) (nf : vec) (j : nat) :
  veq (np.col (np.div_rows M nf) j)
      (map (fun x => (x / nth j nf 0)%Q) (np.col M j)).
Proof.
  unfold np.col, np.div_rows. rewrite !map_map.
  induction M as [|r M IH]; simpl; constructor.
  - apply nth_zip_with_div.
  - exact IH.
Qed.

(** The column normalisation shared by [createInitWH] and the update rules:
    a column whose norm is not zero sums to [sum / norm] afterwards, and a
    column whose norm is zero is divided by one. *)
Lemma normalised_column (M : matrix) (norms : vec) (j : nat) :
  (j < length norms)%nat ->
  let W := np.div_rows M (np.zero_to_one norms) in
  (~ (nth j norms 0 == 0)%Q ->
     (np.sum (np.col W j) == np.sum (np.col M j) / nth j norms 0)%Q)
  /\ ((nth j norms 0 == 0)%Q -> veq (np.col W j) (np.col M j)).
Proof.
  intros Hj W. subst W.
  pose proof (col_div_rows M (np.zero_to_one norms) j) as Hcol.
  rewrite (nth_zero_to_one norms j Hj) in Hcol.
  split; intros Hn.
  - rewrite (sum_veq _ _ Hcol).
    destruct (Qeq_bool (nth j norms 0%Q) 0) eqn:E.
    + apply Qeq_bool_eq in E. contradiction.
    + apply sum_map_div.
  - apply Qeq_eq_bool in Hn. rewrite Hn in Hcol.
    etransitivity; [exact Hcol|].
    clear. induction (np.col M j) as [|x l IH]; simpl; constructor.
    + unfold Qdiv. field.
    + exact IH.
Qed.

(** ** Absolute values *)

Lemma Qabs_div (a b : Q) : (Qabs (a / b) == Qabs a / Qabs b)%Q.
Proof.
  unfold Qdiv. rewrite Qabs_Qmult, Qabs_Qinv. reflexivity.
Qed.

Lemma Qabs_sum_le (v : vec) : (Qabs (np.sum v) <= np.sum (map Qabs v))%Q.
Proof.
  induction v as [|x v IH]; simpl.
  - apply Qle_refl.
  - eapply Qle_trans; [apply Qabs_triangle|].
    apply Qplus_le_r. exact IH.
Qed.

Lemma sum_abs_nonneg (v : vec) : nonneg_vec v -> map Qabs v = v.
Proof.
  induction 1 as [|x v Hx _ IH]; simpl; [reflexivity|].
  rewrite IH. f_equal.
  destruct x as [n d]. unfold Qle in Hx. simpl in Hx.
  unfold Qabs. f_equal. apply Z.abs_eq. lia.
Qed.

(** ** Non-negative arrays *)

Lemma nonneg_nth (v : vec) (j : nat) : nonneg_vec v -> (0 <= nth j v 0)%Q.
Proof.
  intros Hv. revert j.
  induction Hv as [|x v Hx _ IH]; intros [|j]; simpl;
    auto using Qle_refl.
Qed.

(** Non-negativity of a given array, by evaluation. *)
Lemma nonneg_of_bool (M : matrix) :
  forallb (forallb (Qle_bool 0)) M = true -> nonneg M.
Proof.
  intros HM. apply Forall_forall. intros r Hr. apply Forall_forall.
  intros x Hx. apply Qle_bool_iff.
  rewrite forallb_forall in HM. apply list_elem_of_In in Hr.
  specialize (HM r Hr). rewrite forallb_forall in HM.
  apply HM, list_elem_of_In, Hx.
Qed.

Lemma nonneg_dot (u v : vec) :
  nonneg_vec u -> nonneg_vec v -> (0 <= np.dot u v)%Q.
Proof.
  intros Hu. revert v.
  induction Hu as [|x u Hx _ IH]; intros v Hv; simpl; [apply Qle_refl|].
  destruct Hv as [|y v Hy Hv]; [apply Qle_refl|].
  replace 0%Q with (0 + 0)%Q by reflexivity.
  apply Qplus_le_compat; [apply Qmult_le_0_compat; assumption|].
  apply IH. exact Hv.
Qed.

Lemma nonneg_col (M : matrix) (j : nat) : nonneg M -> nonneg_vec (np.col M j).
Proof.
  unfold np.col. induction 1 as [|r M Hr _ IH]; simpl; constructor.
  - apply nonneg_nth. exact Hr.
  - exact IH.
Qed.

Lemma nonneg_transpose (M : matrix) : nonneg M -> nonneg (np.transpose M).
Proof.
  intros HM. unfold np.transpose. apply Forall_map, Forall_forall.
  intros j _. apply (nonneg_col M j HM).
Qed.

Lemma nonneg_mulmv (T : matrix) (r : vec) :
  nonneg T -> nonneg_vec r -> nonneg_vec (map (fun c => np.dot r c) T).
Proof.
  intros HT Hr.
  induction HT as [|c T Hc _ IH]; simpl; constructor; [|exact IH].
  apply nonneg_dot; assumption.
Qed.

Lemma nonneg_matmul (A B : matrix) :
  nonneg A -> nonneg B -> nonneg (np.matmul A B).
Proof.
  intros HA HB. unfold np.matmul.
  pose proof (nonneg_transpose B HB) as HT.
  induction HA as [|r A Hr _ IH]; simpl; constructor; [|exact IH].
  apply nonneg_mulmv; assumption.
Qed.

Lemma nonneg_zip_with (f : Q -> Q -> Q) (u v : vec) :
  (forall x y, (0 <= x)%Q -> (0 <= y)%Q -> (0 <= f x y)%Q) ->
  nonneg_vec u -> nonneg_vec v -> nonneg_vec (zip_with f u v).
Proof.
  intros Hf Hu. revert v.
  induction Hu as [|x u Hx _ IH]; intros v Hv; simpl; [constructor|].
  destruct Hv as [|y v Hy Hv]; simpl; constructor;
    [apply Hf; assumption|apply IH; assumption].
Qed.

Lemma nonneg_map2 (f : Q -> Q -> Q) (A B : matrix) :
  (forall x y, (0 <= x)%Q -> (0 <= y)%Q -> (0 <= f x y)%Q) ->
  nonneg A -> nonneg B -> nonneg (np.map2 f A B).
Proof.
  intros Hf HA. revert B. unfold np.map2.
  induction HA as [|r A Hr _ IH]; intros B HB; simpl; [constructor|].
  destruct HB as [|s B Hs HB]; simpl; constructor;
    [apply nonneg_zip_with; assumption|apply IH; assumption].
Qed.

Lemma Qdiv_nonneg (x y : Q) : (0 <= x)%Q -> (0 <= y)%Q -> (0 <= x / y)%Q.
Proof.
  intros Hx Hy. unfold Qdiv. apply Qmult_le_0_compat; [exact Hx|].
  apply Qinv_le_0_compat. exact Hy.
Qed.

Lemma Qplus_nonneg (x y : Q) : (0 <= x)%Q -> (0 <= y)%Q -> (0 <= x + y)%Q.
Proof.
  intros Hx Hy. replace 0%Q with (0 + 0)%Q by reflexivity.
  apply Qplus_le_compat; assumption.
Qed.

Lemma nonneg_add_scalar (M : matrix) (c : Q) :
  (0 <= c)%Q -> nonneg M -> nonneg (np.add_scalar M c).
Proof.
  intros Hc HM. unfold np.add_scalar.
  induction HM as [|r M Hr _ IH]; simpl; constructor; [|exact IH].
  induction Hr as [|x r Hx _ IHr]; simpl; constructor; [|exact IHr].
  apply Qplus_nonneg; assumption.
Qed.

Lemma eps_nonneg : (0 <= eps)%Q.
Proof. discriminate. Qed.

Lemma nonneg_abs (M : matrix) : nonneg M -> np.abs M = M.
Proof.
  unfold np.abs. induction 1 as [|r M Hr _ IH]; simpl; [reflexivity|].
  rewrite IH, (sum_abs_nonneg r Hr). reflexivity.
Qed.

Lemma nonneg_sum_axis0 (M : matrix) :
  nonneg M -> nonneg_vec (np.sum_axis0 M).
Proof.
  intros HM. unfold np.sum_axis0.
  pose proof (nonneg_transpose M HM) as HT.
  induction HT as [|c T Hc _ IH]; simpl; constructor; [|exact IH].
  apply sum_nonneg. exact Hc.
Qed.

Lemma nonneg_zero_to_one (v : vec) :
  nonneg_vec v -> nonneg_vec (np.zero_to_one v).
Proof.
  unfold np.zero_to_one.
  induction 1 as [|x v Hx _ IH]; simpl; constructor; [|exact IH].
  destruct (Qeq_bool x 0); [discriminate|exact Hx].
Qed.

Lemma nonneg_div_rows (M : matrix) (v : vec) :
  nonneg M -> nonneg_vec v -> nonneg (np.div_rows M v).
Proof.
  intros HM Hv. unfold np.div_rows.
  induction HM as [|r M Hr _ IH]; simpl; constructor; [|exact IH].
  apply nonneg_zip_with; auto using Qdiv_nonneg.
Qed.

(** [W * numerator/denom] is non-negative on non-negative factors. *)
Lemma nonneg_before_norm (A W H : matrix) :
  nonneg A -> nonneg W -> nonneg H ->
  nonneg (multiplicativeUpdate_before_norm A W H).
Proof.
  intros HA HW HH. unfold multiplicativeUpdate_before_norm, np.div, np.mul.
  apply nonneg_map2; [exact Qdiv_nonneg| |].
  - apply nonneg_map2; [exact Qmult_le_0_compat|exact HW|].
    apply nonneg_matmul; [exact HA|apply nonneg_transpose, HH].
  - apply nonneg_add_scalar; [exact eps_nonneg|].
    apply nonneg_matmul; [|apply nonneg_transpose, HH].
    apply nonneg_matmul; assumption.
Qed.

(** Without the symmetry penalty the multiplicative update returns, and
    keeps non-negative factors non-negative. *)
Lemma multiplicativeUpdate_plain_nonneg (A W H : matrix) (fp : Footprint)
    (offset : Q) (includeBkg : bool) (beta : Q) :
  nonneg A -> nonneg W -> nonneg H ->
  exists W' H',
    multiplicativeUpdate A W H fp offset includeBkg beta None = Ok (W', H')
    /\ nonneg W' /\ nonneg H'.
Proof.
  intros HA HW HH. unfold multiplicativeUpdate.
  fold (multiplicativeUpdate_before_norm A W H).
  set (W0 := multiplicativeUpdate_before_norm A W H).
  pose proof (nonneg_before_norm A W H HA HW HH) as HW0. fold W0 in HW0.
  set (W' := np.div_rows W0 (np.zero_to_one (np.sum_axis0 (np.abs W0)))).
  assert (HW' : nonneg W').
  { apply nonneg_div_rows; [exact HW0|].
    apply nonneg_zero_to_one, nonneg_sum_axis0.
    rewrite (nonneg_abs W0 HW0). exact HW0. }
  eexists. eexists. split; [reflexivity|]. split; [exact HW'|].
  unfold np.div, np.mul.
  apply nonneg_map2; [exact Qdiv_nonneg| |].
  - apply nonneg_map2; [exact Qmult_le_0_compat|exact HH|].
    apply nonneg_matmul; [apply nonneg_transpose, HW'|exact HA].
  - apply nonneg_add_scalar; [exact eps_nonneg|].
    apply nonneg_matmul; [|exact HH].
    apply nonneg_matmul; [apply nonneg_transpose, HW'|exact HW'].
Qed.

(** The invariant over the solver loop: any number of multiplicative updates
    without symmetry penalty returns non-negative factors. *)
Lemma iterate_plain_nonneg (beta : Q) (A : matrix) (fp : Footprint)
    (offset : Q) (includeBkg : bool) (steps : nat) (W H : matrix) :
  nonneg A -> nonneg W -> nonneg H ->
  exists W' H',
    iterate (plainMultiplicativeUpdate beta) A fp offset includeBkg steps W H
      = Ok (W', H')
    /\ nonneg W' /\ nonneg H'.
Proof.
  intros HA. revert W H.
  induction steps as [|steps IH]; intros W H HW HH.
  - exists W, H. simpl. auto.
  - destruct (multiplicativeUpdate_plain_nonneg A W H fp offset includeBkg
                beta HA HW HH) as (W1 & H1 & Hrun & HW1 & HH1).
    destruct (IH W1 H1 HW1 HH1) as (W' & H' & Hit & HW' & HH').
    exists W', H'. split; [|auto].
    change (multiplicativeUpdate A W H fp offset includeBkg beta None)
      with (plainMultiplicativeUpdate beta A W H fp offset includeBkg)
      in Hrun.
    cbn [iterate]. rewrite Hrun. exact Hit.
Qed.

(** ** The symmetry operator, entry by entry *)

Lemma Qeq_bool_half_pred (p n : Z) :
  Qeq_bool (inject_Z p) (half_pred n) = (2 * p =? n - 1).
Proof.
  apply eq_true_iff_eq. rewrite Qeq_bool_iff, Z.eqb_eq.
  unfold half_pred, Qeq. simpl. lia.
Qed.

Lemma Qlt_bool_half_pred_r (p n : Z) :
  Qlt_bool (inject_Z p) (half_pred n) = (2 * p <? n - 1).
Proof.
  apply eq_true_iff_eq. unfold Qlt_bool.
  rewrite negb_true_iff, <- not_true_iff_false, Qle_bool_iff, Z.ltb_lt.
  unfold half_pred, Qle. simpl. lia.
Qed.

Lemma Qlt_bool_half_pred_l (p n : Z) :
  Qlt_bool (half_pred n) (inject_Z p) = (n - 1 <? 2 * p).
Proof.
  apply eq_true_iff_eq. unfold Qlt_bool.
  rewrite negb_true_iff, <- not_true_iff_false, Qle_bool_iff, Z.ltb_lt.
  unfold half_pred, Qle. simpl. lia.
Qed.

(** The two branches of [getPeakSymmetryOperator]. *)
Lemma getPeakSymmetryOperator_center (row : np.ndarray) (shape : Z * Z)
    (px py : Z) :
  centered shape px py = true ->
  getPeakSymmetryOperator row shape px py
    = np.fliplr (np.eye (np.size row)).
Proof.
  intros Hc. unfold getPeakSymmetryOperator. cbn [fst snd].
  rewrite !Qeq_bool_half_pred. unfold centered in Hc. rewrite Hc.
  reflexivity.
Qed.

Lemma getPeakSymmetryOperator_offcenter (row : np.ndarray) (shape : Z * Z)
    (px py : Z) :
  centered shape px py = false ->
  getPeakSymmetryOperator row shape px py
    = offcenter_operator (fst shape) (snd shape)
        (axis_range py (fst shape)) (axis_range px (snd shape)).
Proof.
  intros Hc. unfold getPeakSymmetryOperator. cbn [fst snd].
  rewrite !Qeq_bool_half_pred. unfold centered in Hc. rewrite Hc.
  rewrite !Qlt_bool_half_pred_r, !Qlt_bool_half_pred_l.
  destruct shape as [fpHeight fpWidth]. cbn [fst snd].
  unfold offcenter_operator, axis_range, zeroed_block.
  destruct (2 * py <? fpHeight - 1), (fpHeight - 1 <? 2 * py),
    (2 * px <? fpWidth - 1), (fpWidth - 1 <? 2 * px); reflexivity.
Qed.

(** The symmetric range of an axis: inside the axis, not empty, centred on
    the peak, and touching one end of the axis. *)
Lemma axis_range_spec (p size : Z) :
  0 <= p < size ->
  let '(lo, hi) := axis_range p size in
  0 <= lo /\ lo < hi /\ hi <= size /\ lo + hi - 1 = 2 * p
  /\ (lo = 0 \/ hi = size).
Proof.
  intros Hp. unfold axis_range.
  destruct (2 * p <? size - 1) eqn:E1; [apply Z.ltb_lt in E1; lia|].
  destruct (size - 1 <? 2 * p) eqn:E2; [apply Z.ltb_lt in E2; lia|].
  apply Z.ltb_ge in E1, E2. lia.
Qed.

(** *** The sub-block before the reversal *)

Lemma eye_diag_mask (n : nat) : np.eye n = diag_mask n (fun _ => false).
Proof.
  unfold np.eye, diag_mask, mask_row. apply map_ext. intros i.
  apply map_ext. intros j. rewrite andb_true_r. reflexivity.
Qed.

Lemma diag_mask_ext (n : nat) (z z' : nat -> bool) :
  (forall i, (i < n)%nat -> z i = z' i) -> diag_mask n z = diag_mask n z'.
Proof.
  intros Hz. unfold diag_mask. apply map_ext_in. intros i Hi.
  apply in_seq in Hi. rewrite Hz by lia. reflexivity.
Qed.

Lemma length_mask_row (n i : nat) (b : bool) : length (mask_row n i b) = n.
Proof. unfold mask_row. rewrite length_map. apply length_seq. Qed.

Lemma length_diag_mask (n : nat) (z : nat -> bool) :
  length (diag_mask n z) = n.
Proof. unfold diag_mask. rewrite length_map. apply length_seq. Qed.

Lemma nth_diag_mask (n : nat) (z : nat -> bool) (i : nat) :
  (i < n)%nat -> nth i (diag_mask n z) [] = mask_row n i (z i).
Proof.
  intros Hi. unfold diag_mask.
  exact (nth_map_seq (fun i => mask_row n i (z i)) n i [] Hi).
Qed.

Lemma nth_mask_row (n i j : nat) (b : bool) :
  (j < n)%nat ->
  nth j (mask_row n i b) 0%Q = if Nat.eqb i j && negb b then 1%Q else 0%Q.
Proof.
  intros Hj. unfold mask_row.
  exact (nth_map_seq (fun j => if Nat.eqb i j && negb b then 1%Q else 0%Q)
           n j 0%Q Hj).
Qed.

(** Writing 0 on the diagonal of row [k] empties the row. *)
Lemma insert_mask_row (n k : nat) (b : bool) :
  <[ k := 0%Q ]> (mask_row n k b) = mask_row n k true.
Proof.
  apply nth_ext with (d := 0%Q) (d' := 0%Q).
  - rewrite length_insert, !length_mask_row. reflexivity.
  - intros j Hj. rewrite length_insert, length_mask_row in Hj.
    rewrite (nth_mask_row n k j true Hj), andb_false_r.
    rewrite nth_lookup.
    destruct (Nat.eq_dec k j) as [->|Hkj].
    + rewrite list_lookup_insert_eq by (rewrite length_mask_row; exact Hj).
      reflexivity.
    + rewrite list_lookup_insert_ne by exact Hkj.
      rewrite <- nth_lookup, (nth_mask_row n k j b Hj).
      apply Nat.eqb_neq in Hkj. rewrite Hkj. reflexivity.
Qed.

(** [subOp[k, k] = 0] on a masked identity adds [k] to the mask. *)
Lemma setitem_diag_mask (n : nat) (z : nat -> bool) (k : nat) :
  np.setitem (diag_mask n z) k k 0%Q
    = diag_mask n (fun i => z i || Nat.eqb i k).
Proof.
  unfold np.setitem.
  destruct (Nat.lt_ge_cases k n) as [Hk|Hk].
  - rewrite (nth_diag_mask n z k Hk), insert_mask_row.
    apply nth_ext with (d := []) (d' := []).
    + rewrite length_insert, !length_diag_mask. reflexivity.
    + intros i Hi. rewrite length_insert, length_diag_mask in Hi.
      rewrite (nth_diag_mask n _ i Hi), nth_lookup.
      destruct (Nat.eq_dec k i) as [->|Hki].
      * rewrite list_lookup_insert_eq by (rewrite length_diag_mask; exact Hi).
        rewrite Nat.eqb_refl, orb_true_r. reflexivity.
      * rewrite list_lookup_insert_ne by exact Hki.
        rewrite <- nth_lookup, (nth_diag_mask n z i Hi).
        assert (Hik : Nat.eqb i k = false) by (apply Nat.eqb_neq; lia).
        rewrite Hik, orb_false_r. reflexivity.
  - rewrite list_insert_ge by (rewrite length_diag_mask; exact Hk).
    apply diag_mask_ext. intros i Hi.
    assert (Hik : Nat.eqb i k = false) by (apply Nat.eqb_neq; lia).
    rewrite Hik, orb_false_r. reflexivity.
Qed.

Lemma fold_setitem_diag_mask (n : nat) (l : list nat) (z : nat -> bool) :
  fold_left (fun M k => np.setitem M k k 0%Q) l (diag_mask n z)
    = diag_mask n (fun i => z i || existsb (Nat.eqb i) l).
Proof.
  revert z. induction l as [|k l IH]; intros z; simpl.
  - apply diag_mask_ext. intros i _. rewrite orb_false_r. reflexivity.
  - rewrite setitem_diag_mask, IH. apply diag_mask_ext. intros i _.
    rewrite orb_assoc. reflexivity.
Qed.

(** Two nested [for] loops visit the indices of the flattened list. *)
Lemma fold_left_nested {S A B C : Type} (h : S -> C -> S) (f : A -> B -> C)
    (la : list A) (lb : list B) (s : S) :
  fold_left (fun s a => fold_left (fun s b => h s (f a b)) lb s) la s
    = fold_left h (flat_map (fun a => map (f a) lb) la) s.
Proof.
  revert s. induction la as [|a la IH]; intros s; simpl; [reflexivity|].
  rewrite fold_left_app, IH. f_equal.
  clear. revert s. induction lb as [|b lb IH]; intros s; simpl;
    [reflexivity|apply IH].
Qed.

Lemma zeroed_block_mask (fpWidth tWidth tHeight : Z) :
  zeroed_block fpWidth tWidth tHeight
    = diag_mask (Z.to_nat ((tHeight - 1) * fpWidth + tWidth))
                (zeroed fpWidth tWidth tHeight).
Proof.
  unfold zeroed_block.
  rewrite (fold_left_nested (fun M k => np.setitem M k k 0%Q)
             (fun i j => Z.to_nat ((i + 1) * tWidth
                                   + i * (fpWidth - tWidth) + j))).
  rewrite eye_diag_mask, fold_setitem_diag_mask. reflexivity.
Qed.

(** *** Reversal and embedding *)

Lemma nth_repeat_lt {A : Type} (x d : A) (n i : nat) :
  (i < n)%nat -> nth i (repeat x n) d = x.
Proof.
  revert i. induction n as [|n IH]; intros [|i] Hi; simpl; try lia;
    [reflexivity|apply IH; lia].
Qed.

Lemma nth_imap {A B : Type} (f : nat -> A -> B) (l : list A) (i : nat)
    (d : B) (d' : A) :
  (i < length l)%nat -> nth i (imap f l) d = f i (nth i l d').
Proof.
  intros Hi. rewrite nth_lookup, list_lookup_imap, (nth_lookup l i d').
  destruct (l !! i) as [x|] eqn:E; [reflexivity|].
  apply lookup_ge_None in E. lia.
Qed.

Ltac bool_cases :=
  repeat match goal with
    | |- context [(?a <=? ?b)%nat] => destruct (Nat.leb_spec a b)
    | |- context [(?a <? ?b)%nat] => destruct (Nat.ltb_spec a b)
    | |- context [(?a =? ?b)%nat] => destruct (Nat.eqb_spec a b)
    end;
  cbn [andb orb negb]; try reflexivity; try lia.

Lemma get_fliplr_diag_mask (n : nat) (z : nat -> bool) (i j : nat) :
  np.get (np.fliplr (diag_mask n z)) i j
    = if (i <? n)%nat && (j <? n)%nat && (i + j =? n - 1)%nat && negb (z i)
      then 1%Q else 0%Q.
Proof.
  unfold np.get, np.fliplr.
  change (@nil Q) with (rev (@nil Q)) at 1. rewrite map_nth.
  destruct (Nat.lt_ge_cases i n) as [Hi|Hi].
  - rewrite (nth_diag_mask n z i Hi).
    destruct (Nat.lt_ge_cases j n) as [Hj|Hj].
    + rewrite rev_nth by (rewrite length_mask_row; exact Hj).
      rewrite length_mask_row, nth_mask_row by lia.
      destruct (z i); bool_cases.
    + rewrite nth_default_ge
        by (rewrite length_rev, length_mask_row; exact Hj).
      bool_cases.
  - rewrite (nth_default_ge (diag_mask n z))
      by (rewrite length_diag_mask; exact Hi).
    simpl. destruct j; bool_cases.
Qed.

Section Embedding.

Variable N lo hi : nat.
Variable B : matrix.

Let S : matrix := np.setblock (np.zeros N N) lo hi B.

Lemma length_setblock : length S = N.
Proof.
  unfold S, np.setblock, np.zeros. rewrite length_imap. apply repeat_length.
Qed.

Lemma length_row_setblock (p : nat) :
  (p < N)%nat -> length (nth p S []) = N.
Proof.
  intros Hp. unfold S, np.setblock.
  rewrite (nth_imap _ _ p [] [])
    by (unfold np.zeros; rewrite repeat_length; exact Hp).
  unfold np.zeros. rewrite (nth_repeat_lt _ _ N p Hp).
  destruct ((lo <=? p)%nat && (p <? hi)%nat);
    [rewrite length_imap|]; apply repeat_length.
Qed.

Lemma get_setblock (p q : nat) :
  (hi <= N)%nat ->
  np.get S p q
    = if (lo <=? p)%nat && (p <? hi)%nat && (lo <=? q)%nat && (q <? hi)%nat
      then np.get B (p - lo) (q - lo) else 0%Q.
Proof.
  intros Hhi. unfold np.get at 1.
  destruct (Nat.lt_ge_cases p N) as [Hp|Hp].
  - unfold S, np.setblock.
    rewrite (nth_imap _ _ p [] [])
      by (unfold np.zeros; rewrite repeat_length; exact Hp).
    unfold np.zeros. rewrite (nth_repeat_lt _ _ N p Hp).
    destruct ((lo <=? p)%nat && (p <? hi)%nat) eqn:E; cbn [andb].
    + destruct (Nat.lt_ge_cases q N) as [Hq|Hq].
      * rewrite (nth_imap _ _ q 0%Q 0%Q)
          by (unfold np.zeros1; rewrite repeat_length; exact Hq).
        unfold np.zeros1. rewrite (nth_repeat_lt _ _ N q Hq). reflexivity.
      * rewrite nth_default_ge
          by (rewrite length_imap; unfold np.zeros1;
              rewrite repeat_length; exact Hq).
        bool_cases.
    + destruct (Nat.lt_ge_cases q N) as [Hq|Hq].
      * unfold np.zeros1. apply nth_repeat_lt. exact Hq.
      * apply nth_default_ge. unfold np.zeros1.
        rewrite repeat_length. exact Hq.
  - rewrite (nth_default_ge S) by (rewrite length_setblock; exact Hp).
    destruct q; simpl; bool_cases.
Qed.

End Embedding.

(** The entries of a reversed masked identity laid into the zero matrix. *)
Lemma get_embedded_flip (N lo hi : nat) (z : nat -> bool) (p q : nat) :
  (lo <= hi)%nat -> (hi <= N)%nat ->
  np.get (np.setblock (np.zeros N N) lo hi
            (np.fliplr (diag_mask (hi - lo) z))) p q
    = if (lo <=? p)%nat && (p <? hi)%nat && (lo <=? q)%nat && (q <? hi)%nat
         && (p + q =? lo + hi - 1)%nat && negb (z (p - lo)%nat)
      then 1%Q else 0%Q.
Proof.
  intros Hlo Hhi. rewrite get_setblock by exact Hhi.
  rewrite get_fliplr_diag_mask.
  destruct (z (p - lo)%nat); bool_cases.
Qed.

(** *** The off-centre operator on pixel coordinates *)

Lemma In_range (n x : Z) : In x (np.range n) <-> 0 <= x < n.
Proof.
  unfold np.range. rewrite in_map_iff. split.
  - intros (k & <- & Hk). apply in_seq in Hk. lia.
  - intros Hx. exists (Z.to_nat x). split; [lia|]. apply in_seq. lia.
Qed.

(** Every index below the pixel count is a pixel of the grid. *)
Lemma pixel_decompose (fpHeight fpWidth : Z) (p : nat) :
  0 < fpWidth ->
  (p < Z.to_nat (fpWidth * fpHeight))%nat ->
  exists x y, 0 <= x < fpWidth /\ 0 <= y < fpHeight
              /\ p = pixel fpWidth x y.
Proof.
  intros Hw Hp.
  exists (Z.of_nat p mod fpWidth), (Z.of_nat p / fpWidth).
  pose proof (Z.mod_pos_bound (Z.of_nat p) fpWidth Hw) as Hm.
  pose proof (Z.div_mod (Z.of_nat p) fpWidth ltac:(lia)) as Hdm.
  split; [exact Hm|]. split.
  - split; [apply Z.div_pos; lia|].
    apply Z.div_lt_upper_bound; lia.
  - unfold pixel. lia.
Qed.

Section Geometry.

Variables fpHeight fpWidth ymin ymax xmin xmax : Z.
Hypothesis Hy : 0 <= ymin < ymax /\ ymax <= fpHeight.
Hypothesis Hx : 0 <= xmin < xmax /\ xmax <= fpWidth.
Hypothesis Hedge : xmin = 0 \/ xmax = fpWidth.

Let tWidth := xmax - xmin.
Let tHeight := ymax - ymin.
Let smin := ymin * fpWidth + xmin.
Let smax := (ymax - 1) * fpWidth + xmax.
Let S := offcenter_operator fpHeight fpWidth (ymin, ymax) (xmin, xmax).

Lemma block_bounds :
  0 <= smin /\ smin < smax /\ smax <= fpWidth * fpHeight
  /\ smax - smin = (tHeight - 1) * fpWidth + tWidth.
Proof. unfold smin, smax, tHeight, tWidth. nia. Qed.

Lemma offcenter_operator_embedded :
  S = np.setblock
        (np.zeros (Z.to_nat (fpWidth * fpHeight))
                  (Z.to_nat (fpWidth * fpHeight)))
        (Z.to_nat smin) (Z.to_nat smax)
        (np.fliplr (diag_mask (Z.to_nat smax - Z.to_nat smin)
                              (zeroed fpWidth tWidth tHeight))).
Proof.
  unfold S, offcenter_operator. rewrite zeroed_block_mask.
  fold tWidth tHeight smin smax.
  destruct block_bounds as (H0 & H1 & H2 & H3).
  replace (Z.to_nat ((tHeight - 1) * fpWidth + tWidth))
    with (Z.to_nat smax - Z.to_nat smin)%nat by lia.
  reflexivity.
Qed.

(** The indices zeroed by the loops: the extra columns [tWidth + j] of the
    interior rows [r] of the block. *)
Lemma zeroed_iff (i : nat) :
  zeroed fpWidth tWidth tHeight i = true
  <-> exists r j, 0 <= r < tHeight - 1 /\ 0 <= j < fpWidth - tWidth
                  /\ Z.of_nat i = r * fpWidth + tWidth + j.
Proof.
  unfold zeroed, zeroed_indices. rewrite existsb_exists. split.
  - intros (k & Hin & Hk). apply Nat.eqb_eq in Hk. subst k.
    apply in_flat_map in Hin. destruct Hin as (r & Hr & Hin).
    apply in_map_iff in Hin. destruct Hin as (j & Hij & Hj).
    apply In_range in Hr, Hj. exists r, j.
    split; [exact Hr|]. split; [exact Hj|]. unfold tWidth in *. nia.
  - intros (r & j & Hr & Hj & Hi). exists i. split; [|apply Nat.eqb_refl].
    apply in_flat_map. exists r. split; [apply In_range; exact Hr|].
    apply in_map_iff. exists j. split; [|apply In_range; exact Hj].
    unfold tWidth in *. nia.
Qed.

(** The zeroed indices are symmetric under the reversal of the block. *)
Lemma zeroed_reversal (i i' : nat) :
  Z.of_nat i + Z.of_nat i' = smax - smin - 1 ->
  zeroed fpWidth tWidth tHeight i = true ->
  zeroed fpWidth tWidth tHeight i' = true.
Proof.
  intros Hsum Hz. apply zeroed_iff in Hz. apply zeroed_iff.
  destruct Hz as (r & j & Hr & Hj & Hi).
  exists (tHeight - 2 - r), (fpWidth - tWidth - 1 - j).
  destruct block_bounds as (_ & _ & _ & Hn).
  split; [lia|]. split; [lia|]. nia.
Qed.

Lemma zeroed_reversal_eq (i i' : nat) :
  Z.of_nat i + Z.of_nat i' = smax - smin - 1 ->
  zeroed fpWidth tWidth tHeight i = zeroed fpWidth tWidth tHeight i'.
Proof.
  intros Hsum.
  destruct (zeroed fpWidth tWidth tHeight i) eqn:E1,
           (zeroed fpWidth tWidth tHeight i') eqn:E2; try reflexivity.
  - rewrite (zeroed_reversal i i' Hsum E1) in E2. discriminate.
  - rewrite (zeroed_reversal i' i) in E1; [discriminate|lia|exact E2].
Qed.

(** A pixel [(x, y)] of the grid is an active row of the block (inside it
    and not zeroed) exactly when it lies in the sub-rectangle. *)
Lemma active_iff (x y : Z) :
  0 <= x < fpWidth -> 0 <= y < fpHeight ->
  (smin <= y * fpWidth + x < smax
   /\ zeroed fpWidth tWidth tHeight (Z.to_nat (y * fpWidth + x - smin))
      = false)
  <-> (xmin <= x < xmax /\ ymin <= y < ymax).
Proof.
  intros Hxr Hyr. split.
  - intros [Hp Hz].
    assert (Hxin : xmin <= x < xmax).
    { destruct (Z_lt_le_dec x xmin) as [Hlt|Hge].
      - exfalso. destruct Hedge as [He|He]; [lia|].
        assert (Hz' : zeroed fpWidth tWidth tHeight
                        (Z.to_nat (y * fpWidth + x - smin)) = true).
        { apply zeroed_iff. exists (y - ymin - 1), x.
          unfold smin, smax, tHeight, tWidth in *.
          assert (ymin + 1 <= y) by nia. assert (y < ymax) by nia.
          split; [lia|]. split; [lia|]. rewrite Z2Nat.id by nia. nia. }
        congruence.
      - destruct (Z_lt_le_dec x xmax) as [Hlt'|Hge']; [lia|].
        exfalso. destruct Hedge as [He|He]; [|lia].
        assert (Hz' : zeroed fpWidth tWidth tHeight
                        (Z.to_nat (y * fpWidth + x - smin)) = true).
        { apply zeroed_iff. exists (y - ymin), (x - tWidth).
          unfold smin, smax, tHeight, tWidth in *.
          assert (ymin <= y) by nia. assert (y < ymax - 1) by nia.
          split; [lia|]. split; [lia|]. rewrite Z2Nat.id by nia. nia. }
        congruence. }
    split; [exact Hxin|]. unfold smin, smax in Hp. nia.
  - intros [Hxin Hyin].
    assert (Hp : smin <= y * fpWidth + x < smax)
      by (unfold smin, smax; nia).
    split; [exact Hp|].
    destruct (zeroed fpWidth tWidth tHeight
                (Z.to_nat (y * fpWidth + x - smin))) eqn:E; [|reflexivity].
    exfalso. apply zeroed_iff in E. destruct E as (r & j & Hr & Hj & Hi).
    rewrite Z2Nat.id in Hi by lia.
    unfold smin, tWidth, tHeight in *.
    destruct Hedge as [He|He].
    + assert (Hd : (y - ymin - r) * fpWidth = xmax + j - x) by nia.
      assert (y - ymin - r <= 0 \/ 1 <= y - ymin - r) as [Hd'|Hd'] by lia;
        nia.
    + assert (Hd : (y - ymin - r - 1) * fpWidth = j - x) by nia.
      assert (y - ymin - r - 1 <= -1 \/ 0 <= y - ymin - r - 1)
        as [Hd'|Hd'] by lia; nia.
Qed.

(** The reversal of the block sends an active pixel to its mirror image in
    the sub-rectangle. *)
Lemma mirror_index (x y : Z) :
  xmin <= x < xmax -> ymin <= y < ymax ->
  (Z.to_nat smin + Z.to_nat smax - 1 - pixel fpWidth x y)%nat
    = pixel fpWidth (xmin + xmax - 1 - x) (ymin + ymax - 1 - y).
Proof.
  intros Hxin Hyin. unfold pixel.
  destruct block_bounds as (H0 & H1 & H2 & H3).
  assert (Hp : smin <= y * fpWidth + x < smax)
    by (unfold smin, smax; nia).
  assert (Hm : (ymin + ymax - 1 - y) * fpWidth + (xmin + xmax - 1 - x)
               = smin + smax - 1 - (y * fpWidth + x))
    by (unfold smin, smax; ring).
  rewrite Hm. lia.
Qed.

(** The entries of the off-centre operator: row [(x, y)] holds a single 1,
    in the column of the mirror image, when [(x, y)] is in the
    sub-rectangle, and is zero otherwise. *)
Lemma get_offcenter_pixel (x y : Z) (q : nat) :
  0 <= x < fpWidth -> 0 <= y < fpHeight ->
  np.get S (pixel fpWidth x y) q
    = if in_rect (ymin, ymax) (xmin, xmax) x y
         && Nat.eqb q (pixel fpWidth (xmin + xmax - 1 - x)
                                     (ymin + ymax - 1 - y))
      then 1%Q else 0%Q.
Proof.
  intros Hxr Hyr. rewrite offcenter_operator_embedded.
  destruct block_bounds as (H0 & H1 & H2 & H3).
  rewrite get_embedded_flip by lia.
  pose proof (active_iff x y Hxr Hyr) as Hact.
  assert (Hpix : Z.of_nat (pixel fpWidth x y) = y * fpWidth + x)
    by (unfold pixel; nia).
  replace (pixel fpWidth x y - Z.to_nat smin)%nat
    with (Z.to_nat (y * fpWidth + x - smin)) by lia.
  destruct (in_rect (ymin, ymax) (xmin, xmax) x y) eqn:Er;
    unfold in_rect in Er; cbn [fst snd] in Er.
  - assert (Hin : xmin <= x < xmax /\ ymin <= y < ymax) by lia.
    destruct Hin as [Hxin Hyin].
    destruct (proj2 Hact (conj Hxin Hyin)) as [Hp Hz].
    rewrite Hz, <- (mirror_index x y Hxin Hyin). bool_cases.
  - assert (Hout : ~ (xmin <= x < xmax /\ ymin <= y < ymax)) by lia.
    destruct (zeroed fpWidth tWidth tHeight
                (Z.to_nat (y * fpWidth + x - smin))) eqn:Ez.
    + rewrite !andb_false_r. reflexivity.
    + assert (Hnp : ~ (smin <= y * fpWidth + x < smax)) by tauto.
      bool_cases.
Qed.

Lemma length_offcenter :
  length S = Z.to_nat (fpWidth * fpHeight)
  /\ forall p, (p < Z.to_nat (fpWidth * fpHeight))%nat ->
               length (nth p S []) = Z.to_nat (fpWidth * fpHeight).
Proof.
  rewrite offcenter_operator_embedded. split.
  - apply length_setblock.
  - intros p Hp. apply length_row_setblock. exact Hp.
Qed.

(** The off-centre operator is a symmetric matrix. *)
Lemma offcenter_symmetric_entries (p q : nat) :
  np.get S p q = np.get S q p.
Proof.
  rewrite offcenter_operator_embedded.
  destruct block_bounds as (H0 & H1 & H2 & H3).
  rewrite !get_embedded_flip by lia.
  destruct (Nat.eq_dec (p + q)%nat (Z.to_nat smin + Z.to_nat smax - 1)%nat)
    as [Hpq|Hpq].
  - destruct (Nat.le_gt_cases (Z.to_nat smin) p) as [Hp|Hp];
      [|bool_cases].
    destruct (Nat.le_gt_cases (Z.to_nat smin) q) as [Hq|Hq];
      [|bool_cases].
    rewrite (zeroed_reversal_eq (p - Z.to_nat smin)%nat
               (q - Z.to_nat smin)%nat)
      by lia.
    destruct (zeroed fpWidth tWidth tHeight (q - Z.to_nat smin)%nat);
      bool_cases.
  - bool_cases.
Qed.

(** The extra columns of the interior rows: an empty row of the sub-block
    before the reversal, and an empty row of the operator. *)
Lemma extra_columns_zeroed (i j : Z) :
  0 <= i < tHeight - 1 -> 0 <= j < fpWidth - tWidth ->
  let idx := Z.to_nat ((i + 1) * tWidth + i * (fpWidth - tWidth) + j) in
  np.get (zeroed_block fpWidth tWidth tHeight) idx idx = 0%Q
  /\ nth idx (zeroed_block fpWidth tWidth tHeight) []
     = np.zeros1 (Z.to_nat (smax - smin))
  /\ forall q, np.get S (Z.to_nat smin + idx) q = 0%Q.
Proof.
  intros Hi Hj idx.
  destruct block_bounds as (H0 & H1 & H2 & H3).
  assert (Hidx : Z.of_nat idx = i * fpWidth + tWidth + j)
    by (unfold idx, tWidth in *; nia).
  assert (Hz : zeroed fpWidth tWidth tHeight idx = true).
  { apply zeroed_iff. exists i, j. auto. }
  assert (Hlt : (idx < Z.to_nat (smax - smin))%nat) by nia.
  assert (Hrow : nth idx (zeroed_block fpWidth tWidth tHeight) []
                 = np.zeros1 (Z.to_nat (smax - smin))).
  { rewrite zeroed_block_mask, <- H3, nth_diag_mask by exact Hlt.
    rewrite Hz. unfold mask_row, np.zeros1.
    generalize (Z.to_nat (smax - smin)) as n. intros n.
    generalize 0%nat as a.
    induction n as [|n IH]; intros a; simpl; [reflexivity|].
    rewrite andb_false_r, IH. reflexivity. }
  split; [|split].
  - unfold np.get. rewrite Hrow. unfold np.zeros1.
    apply nth_repeat_lt. exact Hlt.
  - exact Hrow.
  - intros q. rewrite offcenter_operator_embedded.
    rewrite get_embedded_flip by lia.
    replace (Z.to_nat smin + idx - Z.to_nat smin)%nat with idx by lia.
    rewrite Hz, !andb_false_r. reflexivity.
Qed.

(** Every entry of the operator that is not zero couples a pixel of the
    sub-rectangle with its mirror image. *)
Lemma nonzero_entry_mirror (p q : nat) :
  0 < fpWidth ->
  np.get S p q <> 0%Q ->
  exists x y,
    xmin <= x < xmax /\ ymin <= y < ymax
    /\ p = pixel fpWidth x y
    /\ q = pixel fpWidth (xmin + xmax - 1 - x) (ymin + ymax - 1 - y).
Proof.
  intros Hw Hnz.
  destruct (Nat.lt_ge_cases p (Z.to_nat (fpWidth * fpHeight))) as [Hp|Hp].
  - destruct (pixel_decompose fpHeight fpWidth p Hw Hp)
      as (x & y & Hxr & Hyr & ->).
    rewrite get_offcenter_pixel in Hnz by assumption.
    destruct (in_rect (ymin, ymax) (xmin, xmax) x y) eqn:Er;
      [|contradiction Hnz; reflexivity].
    cbn [andb] in Hnz.
    destruct (Nat.eqb_spec q
                (pixel fpWidth (xmin + xmax - 1 - x) (ymin + ymax - 1 - y)))
      as [Hq|Hq]; [|contradiction Hnz; reflexivity].
    unfold in_rect in Er. cbn [fst snd] in Er.
    exists x, y. split; [lia|]. split; [lia|]. split; [reflexivity|exact Hq].
  - exfalso. apply Hnz. unfold np.get.
    rewrite (nth_default_ge S)
      by (rewrite (proj1 length_offcenter); exact Hp).
    destruct q; reflexivity.
Qed.

End Geometry.

(** *** Symmetric matrices *)

Lemma transpose_symmetric (M : matrix) (N : nat) :
  length M = N ->
  (forall p, (p < N)%nat -> length (nth p M []) = N) ->
  (forall p q, (p < N)%nat -> (q < N)%nat -> np.get M p q = np.get M q p) ->
  np.transpose M = M.
Proof.
  intros Hlen Hrow Hsym.
  assert (Hs1 : np.shape1 M = N).
  { unfold np.shape1. destruct N as [|N].
    - destruct M; [reflexivity|discriminate].
    - apply Hrow. lia. }
  apply nth_ext with (d := []) (d' := []).
  - rewrite length_transpose. congruence.
  - intros p Hp. rewrite length_transpose, Hs1 in Hp.
    rewrite nth_transpose by (rewrite Hs1; exact Hp).
    apply nth_ext with (d := 0%Q) (d' := 0%Q).
    + unfold np.col. rewrite length_map, Hrow by exact Hp. exact Hlen.
    + intros q Hq. unfold np.col in Hq. rewrite length_map, Hlen in Hq.
      rewrite nth_col. apply Hsym; assumption.
Qed.

Lemma reversal_symmetric (m : nat) :
  np.transpose (np.fliplr (np.eye m)) = np.fliplr (np.eye m).
Proof.
  rewrite eye_diag_mask. apply (transpose_symmetric _ m).
  - unfold np.fliplr. rewrite length_map. apply length_diag_mask.
  - intros p Hp. unfold np.fliplr.
    change (@nil Q) with (rev (@nil Q)). rewrite map_nth, length_rev.
    rewrite nth_diag_mask by exact Hp. apply length_mask_row.
  - intros p q Hp Hq. rewrite !get_fliplr_diag_mask. bool_cases.
Qed.

(** The symmetry operator of a peak inside the grid is a symmetric matrix,
    in both branches. *)
Lemma getPeakSymmetryOperator_symmetric (row : np.ndarray) (shape : Z * Z)
    (px py : Z) :
  0 <= px < snd shape -> 0 <= py < fst shape ->
  np.transpose (getPeakSymmetryOperator row shape px py)
    = getPeakSymmetryOperator row shape px py.
Proof.
  intros Hpx Hpy. destruct (centered shape px py) eqn:Ec.
  - rewrite getPeakSymmetryOperator_center by exact Ec.
    apply reversal_symmetric.
  - rewrite getPeakSymmetryOperator_offcenter by exact Ec.
    pose proof (axis_range_spec py (fst shape) Hpy) as Hyr.
    pose proof (axis_range_spec px (snd shape) Hpx) as Hxr.
    destruct (axis_range py (fst shape)) as [ymin ymax].
    destruct (axis_range px (snd shape)) as [xmin xmax].
    assert (Hy : 0 <= ymin < ymax /\ ymax <= fst shape) by lia.
    assert (Hx : 0 <= xmin < xmax /\ xmax <= snd shape) by lia.
    assert (He : xmin = 0 \/ xmax = snd shape) by tauto.
    destruct (length_offcenter (fst shape) (snd shape) ymin ymax xmin xmax
                Hy Hx He) as [Hlen Hrows].
    apply (transpose_symmetric _ (Z.to_nat (snd shape * fst shape)));
      [exact Hlen|exact Hrows|].
    intros p q _ _. apply offcenter_symmetric_entries; assumption.
Qed.

(** ** Products with a vector *)

Lemma dot_nil_r (u : vec) : np.dot u [] = 0%Q.
Proof. destruct u; reflexivity. Qed.

Lemma dot_veq (u u' v v' : vec) :
  veq u u' -> veq v v' -> (np.dot u v == np.dot u' v')%Q.
Proof.
  intros Hu. revert v v'.
  induction Hu as [|x x' u u' Hx _ IH]; intros v v' Hv; simpl;
    [reflexivity|].
  destruct Hv as [|y y' v v' Hy Hv]; [reflexivity|].
  rewrite Hx, Hy, (IH v v' Hv). reflexivity.
Qed.

Lemma dot_map_linear {A : Type} (x : Q) (f g : A -> Q) (l : list A)
    (v : vec) :
  (np.dot (map (fun j => x * f j + g j) l) v
     == x * np.dot (map f l) v + np.dot (map g l) v)%Q.
Proof.
  revert v. induction l as [|a l IH]; intros v; simpl; [ring|].
  destruct v as [|y v]; [ring|]. rewrite IH. ring.
Qed.

Lemma dot_map_zero {A : Type} (l : list A) (v : vec) :
  (np.dot (map (fun _ => 0) l) v == 0)%Q.
Proof.
  revert v. induction l as [|a l IH]; intros v; simpl; [reflexivity|].
  destruct v as [|y v]; [reflexivity|]. rewrite IH. ring.
Qed.

Lemma map_nth_seq (b : vec) :
  map (fun j => nth j b 0%Q) (seq 0 (length b)) = b.
Proof.
  apply nth_ext with (d := 0%Q) (d' := 0%Q).
  - rewrite length_map, length_seq. reflexivity.
  - intros j Hj. rewrite length_map, length_seq in Hj.
    exact (nth_map_seq (fun j => nth j b 0%Q) (length b) j 0%Q Hj).
Qed.

(** [r.(B.v) = (r.B).v] for a rectangular [B]. *)
Lemma dot_assoc (B : matrix) (c : nat) (r v : vec) :
  Forall (fun b => length b = c) B ->
  (np.dot (map (fun j => np.dot r (np.col B j)) (seq 0 c)) v
     == np.dot r (np.mulmv B v))%Q.
Proof.
  intros HB. revert r.
  induction HB as [|b B Hb _ IH]; intros r.
  - cbn [np.mulmv map np.col]. rewrite dot_nil_r. apply dot_map_zero.
  - destruct r as [|x r].
    + simpl. apply dot_map_zero.
    + cbn [np.mulmv map np.dot].
      change (map (fun r0 => np.dot r0 v) B) with (np.mulmv B v).
      rewrite <- IH, <- (map_nth_seq b) at 1. rewrite Hb.
      rewrite <- dot_map_linear. reflexivity.
Qed.

Lemma mulmv_matmul (A B : matrix) (c : nat) (v : vec) :
  B <> [] -> Forall (fun b => length b = c) B ->
  veq (np.mulmv (np.matmul A B) v) (np.mulmv A (np.mulmv B v)).
Proof.
  intros Hne HB. unfold np.matmul, np.mulmv at 1 3. rewrite map_map.
  assert (Hc : np.shape1 B = c).
  { unfold np.shape1. destruct HB; [contradiction|assumption]. }
  induction A as [|r A IH]; simpl; constructor; [|exact IH].
  unfold np.transpose. rewrite Hc, map_map.
  apply (dot_assoc B c r v HB).
Qed.

Lemma mulmv_veq (A : matrix) (u v : vec) :
  veq u v -> veq (np.mulmv A u) (np.mulmv A v).
Proof.
  intros Huv. unfold np.mulmv.
  induction A as [|r A IH]; simpl; constructor; [|exact IH].
  apply dot_veq; [reflexivity|exact Huv].
Qed.

Lemma dot_zip_plus (a b v : vec) :
  length a = length b ->
  (np.dot (zip_with Qplus a b) v == np.dot a v + np.dot b v)%Q.
Proof.
  revert b v. induction a as [|s a IH]; intros [|t b] v Hlen;
    try discriminate; simpl; [ring|].
  destruct v as [|y v]; [ring|].
  rewrite IH by (simpl in Hlen; lia). ring.
Qed.

Lemma dot_zip_minus (a b v : vec) :
  length a = length b ->
  (np.dot (zip_with Qminus a b) v == np.dot a v - np.dot b v)%Q.
Proof.
  revert b v. induction a as [|s a IH]; intros [|t b] v Hlen;
    try discriminate; simpl; [ring|].
  destruct v as [|y v]; [ring|].
  rewrite IH by (simpl in Hlen; lia). ring.
Qed.

Lemma dot_map_scale (c : Q) (a v : vec) :
  (np.dot (map (Qmult c) a) v == c * np.dot a v)%Q.
Proof.
  revert v. induction a as [|s a IH]; intros v; simpl; [ring|].
  destruct v as [|y v]; [ring|]. rewrite IH. ring.
Qed.

Lemma nth_zip_with_rows (f : vec -> vec -> vec) (A B : matrix) (p : nat) :
  (p < length A)%nat -> (p < length B)%nat ->
  nth p (zip_with f A B) [] = f (nth p A []) (nth p B []).
Proof.
  intros HA HB. rewrite !nth_lookup, lookup_zip_with.
  destruct (A !! p) as [a|] eqn:Ea;
    [|apply lookup_ge_None in Ea; lia].
  destruct (B !! p) as [b|] eqn:Eb;
    [|apply lookup_ge_None in Eb; lia].
  reflexivity.
Qed.

Lemma Forall_rows (M : matrix) (N : nat) :
  (forall p, (p < length M)%nat -> length (nth p M []) = N) ->
  Forall (fun r => length r = N) M.
Proof.
  intros Hrows. apply Forall_lookup. intros p r Hp.
  pose proof (lookup_lt_Some _ _ _ Hp) as Hlt.
  specialize (Hrows p Hlt). rewrite nth_lookup, Hp in Hrows. exact Hrows.
Qed.

Lemma nth_mulmv (M : matrix) (v : vec) (p : nat) :
  nth p (np.mulmv M v) 0%Q = np.dot (nth p M []) v.
Proof.
  unfold np.mulmv.
  change 0%Q with (np.dot [] v) at 1.
  apply (map_nth (fun r => np.dot r v)).
Qed.

(** A 0/1 row picks one entry of the vector, or none. *)
Lemma dot_mask_row (n i : nat) (b : bool) (v : vec) :
  (b = false -> (i < n)%nat) ->
  (np.dot (mask_row n i b) v == if b then 0 else nth i v 0)%Q.
Proof.
  intros Hi. unfold mask_row.
  assert (Hgen : forall a k w,
             (np.dot (map (fun j => if Nat.eqb i j && negb b
                                    then 1 else 0) (seq a k)) w
                == if b then 0
                   else if (a <=? i)%nat && (i <? a + k)%nat
                        then nth (i - a) w 0 else 0)%Q).
  { intros a k. revert a. induction k as [|k IH]; intros a w.
    - cbn [seq map np.dot]. destruct b; [reflexivity|]. bool_cases.
    - cbn [seq map]. destruct w as [|y w].
      + cbn [np.dot]. destruct b; [reflexivity|].
        destruct ((a <=? i)%nat && (i <? a + S k)%nat);
          [destruct (i - a)%nat|]; reflexivity.
      + cbn [np.dot]. rewrite IH. destruct b; cbn [negb].
        * rewrite andb_false_r. ring.
        * rewrite andb_true_r.
          replace (S a + k)%nat with (a + S k)%nat by lia.
          destruct (lt_eq_lt_dec i a) as [[Hlt|Heq]|Hgt].
          -- rewrite (proj2 (Nat.eqb_neq i a)) by lia.
             rewrite (proj2 (Nat.leb_gt (S a) i)) by lia.
             rewrite (proj2 (Nat.leb_gt a i)) by lia.
             cbn [andb]. ring.
          -- subst i. rewrite Nat.eqb_refl.
             rewrite (proj2 (Nat.leb_gt (S a) a)) by lia.
             rewrite (proj2 (Nat.leb_le a a)) by lia.
             rewrite (proj2 (Nat.ltb_lt a (a + S k))) by lia.
             rewrite Nat.sub_diag. cbn [andb nth]. ring.
          -- rewrite (proj2 (Nat.eqb_neq i a)) by lia.
             rewrite (proj2 (Nat.leb_le (S a) i)) by lia.
             rewrite (proj2 (Nat.leb_le a i)) by lia.
             replace (i - a)%nat with (S (i - S a)) by lia.
             destruct (i <? a + S k)%nat; cbn [andb nth]; ring. }
  rewrite Hgen. destruct b; [reflexivity|]. specialize (Hi eq_refl).
  replace ((0 <=? i)%nat) with true by reflexivity.
  replace ((i <? 0 + n)%nat) with true by (symmetry; apply Nat.ltb_lt; lia).
  simpl. rewrite Nat.sub_0_r. reflexivity.
Qed.

(** A row known by its entries. *)
Lemma row_of_entries (r : vec) (N m : nat) (b : bool) :
  length r = N ->
  (forall q, (q < N)%nat ->
             nth q r 0%Q = if b && Nat.eqb q m then 1%Q else 0%Q) ->
  r = mask_row N m (negb b).
Proof.
  intros Hlen Hq. apply nth_ext with (d := 0%Q) (d' := 0%Q).
  - rewrite length_mask_row. exact Hlen.
  - intros q Hlt. rewrite Hlen in Hlt.
    rewrite (Hq q Hlt), (nth_mask_row N m q _ Hlt), negb_involutive.
    rewrite (Nat.eqb_sym m q), andb_comm. reflexivity.
Qed.

Lemma mulmv_eye (v : vec) : veq (np.mulmv (np.eye (length v)) v) v.
Proof.
  apply veq_ext.
  - unfold np.mulmv, np.eye. rewrite !length_map, length_seq. reflexivity.
  - intros p Hp. unfold np.mulmv, np.eye in Hp.
    rewrite !length_map, length_seq in Hp.
    rewrite nth_mulmv, eye_diag_mask, nth_diag_mask by exact Hp.
    apply (dot_mask_row (length v) p false v). intros _. exact Hp.
Qed.

(** ** Shapes and linearity of [M.dot(v)] *)

Lemma same_shape (A B : matrix) (r c : nat) :
  has_shape A r c -> has_shape B r c ->
  Forall2 (fun a b => length a = length b) A B.
Proof.
  intros [HA HrA] [HB HrB]. subst r. revert B HB HrB.
  induction HrA as [|a A Ha _ IH]; intros [|b B] HB HrB;
    try discriminate; constructor.
  - inversion HrB; subst. congruence.
  - apply IH; [simpl in HB; lia|inversion HrB; assumption].
Qed.

Lemma has_shape_eye (n : nat) : has_shape (np.eye n) n n.
Proof.
  split.
  - unfold np.eye. rewrite length_map. apply length_seq.
  - unfold np.eye. apply Forall_map, Forall_forall. intros i _.
    rewrite length_map. apply length_seq.
Qed.

Lemma has_shape_matmul (A B : matrix) :
  has_shape (np.matmul A B) (length A) (np.shape1 B).
Proof.
  unfold np.matmul. split.
  - apply length_map.
  - apply Forall_map, Forall_forall. intros r _.
    rewrite length_map. apply length_transpose.
Qed.

Lemma has_shape_scale (x : Q) (M : matrix) (r c : nat) :
  has_shape M r c -> has_shape (np.scale x M) r c.
Proof.
  intros [HM Hrows]. unfold np.scale. split.
  - rewrite length_map. exact HM.
  - apply Forall_map. eapply Forall_impl; [exact Hrows|].
    intros row Hrow. simpl. rewrite length_map. exact Hrow.
Qed.

Lemma has_shape_map2 (f : Q -> Q -> Q) (A B : matrix) (r c : nat) :
  has_shape A r c -> has_shape B r c -> has_shape (np.map2 f A B) r c.
Proof.
  intros HA HB. pose proof (same_shape A B r c HA HB) as H2.
  destruct HA as [HA HrA]. subst r. unfold np.map2. clear HB.
  induction H2 as [|a b A B Hab _ IH]; [split; [reflexivity|constructor]|].
  inversion HrA as [|? ? Ha HrA']; subst.
  destruct (IH HrA') as [Hl Hr]. split.
  - simpl. simpl in Hl. congruence.
  - simpl. constructor; [|exact Hr].
    rewrite length_zip_with. lia.
Qed.

Lemma mulmv_add (A B : matrix) (v : vec) :
  Forall2 (fun a b => length a = length b) A B ->
  veq (np.mulmv (np.add A B) v)
      (zip_with Qplus (np.mulmv A v) (np.mulmv B v)).
Proof.
  unfold np.add, np.map2, np.mulmv.
  induction 1 as [|a b A B Hab _ IH]; simpl; constructor; [|exact IH].
  apply dot_zip_plus. exact Hab.
Qed.

Lemma mulmv_sub (A B : matrix) (v : vec) :
  Forall2 (fun a b => length a = length b) A B ->
  veq (np.mulmv (np.sub A B) v)
      (zip_with Qminus (np.mulmv A v) (np.mulmv B v)).
Proof.
  unfold np.sub, np.map2, np.mulmv.
  induction 1 as [|a b A B Hab _ IH]; simpl; constructor; [|exact IH].
  apply dot_zip_minus. exact Hab.
Qed.

Lemma mulmv_scale (x : Q) (A : matrix) (v : vec) :
  veq (np.mulmv (np.scale x A) v) (map (Qmult x) (np.mulmv A v)).
Proof.
  unfold np.scale, np.mulmv.
  induction A as [|a A IH]; simpl; constructor; [|exact IH].
  apply dot_map_scale.
Qed.

Lemma veq_zip_with (f : Q -> Q -> Q) (u u' v v' : vec) :
  (forall x x' y y', (x == x')%Q -> (y == y')%Q -> (f x y == f x' y')%Q) ->
  veq u u' -> veq v v' -> veq (zip_with f u v) (zip_with f u' v').
Proof.
  intros Hf Hu. revert v v'.
  induction Hu as [|x x' u u' Hx _ IH]; intros v v' Hv; simpl;
    [constructor|].
  destruct Hv as [|y y' v v' Hy Hv]; simpl; constructor;
    [apply Hf; assumption|apply IH; assumption].
Qed.

Lemma veq_map (f : Q -> Q) (u u' : vec) :
  (forall x x', (x == x')%Q -> (f x == f x')%Q) ->
  veq u u' -> veq (map f u) (map f u').
Proof.
  intros Hf. induction 1 as [|x x' u u' Hx _ IH]; simpl; constructor;
    [apply Hf; assumption|exact IH].
Qed.

(** [v + v - 2 v = 0], entry by entry. *)
Lemma penalty_cancels (v : vec) :
  veq (zip_with Qminus (zip_with Qplus v v) (map (Qmult 2) v))
      (np.zeros1 (length v)).
Proof.
  unfold np.zeros1. induction v as [|x v IH]; simpl; constructor;
    [ring|exact IH].
Qed.
(** ** Shapes *)

Lemma shape1_of_has_shape (M : matrix) (r c : nat) :
  has_shape M r c -> (0 < r)%nat -> np.shape1 M = c.
Proof.
  intros [Hl Hr] Hpos. unfold np.shape1.
  destruct Hr as [|row M Hrow _]; [simpl in Hl; lia|exact Hrow].
Qed.

Lemma has_shape_transpose (M : matrix) (r c : nat) :
  has_shape M r c -> (0 < r)%nat -> has_shape (np.transpose M) c r.
Proof.
  intros HM Hpos. pose proof (shape1_of_has_shape M r c HM Hpos) as Hc.
  destruct HM as [Hl _]. unfold np.transpose. rewrite Hc. split.
  - rewrite length_map. apply length_seq.
  - apply Forall_map, Forall_forall. intros j _.
    rewrite length_map. exact Hl.
Qed.

Lemma has_shape_matmul_gen (A B : matrix) (r k c : nat) :
  length A = r -> has_shape B k c -> (0 < k)%nat ->
  has_shape (np.matmul A B) r c.
Proof.
  intros HA HB Hk. pose proof (has_shape_matmul A B) as Hm.
  rewrite HA, (shape1_of_has_shape B k c HB Hk) in Hm. exact Hm.
Qed.

Lemma has_shape_map (f : Q -> Q) (M : matrix) (r c : nat) :
  has_shape M r c -> has_shape (map (map f) M) r c.
Proof.
  intros [Hl Hr]. split.
  - rewrite length_map. exact Hl.
  - apply Forall_map. eapply Forall_impl; [exact Hr|].
    intros row Hrow. simpl. rewrite length_map. exact Hrow.
Qed.

Lemma has_shape_div_rows (M : matrix) (v : vec) (r c : nat) :
  has_shape M r c -> length v = c -> has_shape (np.div_rows M v) r c.
Proof.
  intros [Hl Hr] Hv. unfold np.div_rows. split.
  - rewrite length_map. exact Hl.
  - apply Forall_map. eapply Forall_impl; [exact Hr|].
    intros row Hrow. simpl in Hrow |- *. rewrite length_zip_with. lia.
Qed.

Lemma length_zero_to_one (v : vec) :
  length (np.zero_to_one v) = length v.
Proof. unfold np.zero_to_one. apply length_map. Qed.

Lemma has_shape_nth (M : matrix) (r c k : nat) :
  has_shape M r c -> (k < r)%nat -> length (nth k M []) = c.
Proof.
  intros [Hl Hr] Hk. rewrite Forall_lookup in Hr.
  destruct (M !! k) as [row|] eqn:E.
  - rewrite nth_lookup, E. apply (Hr k row E).
  - apply lookup_ge_None in E. lia.
Qed.

Lemma has_shape_of_rows (M : matrix) (r c : nat) :
  length M = r ->
  (forall k, (k < r)%nat -> length (nth k M []) = c) ->
  has_shape M r c.
Proof.
  intros Hl Hrows. split; [exact Hl|].
  apply Forall_rows. rewrite Hl. exact Hrows.
Qed.

Lemma length_mulmv (M : matrix) (v : vec) :
  length (np.mulmv M v) = length M.
Proof. unfold np.mulmv. apply length_map. Qed.

(** ** The loop of the symmetry penalty *)

Lemma assign_row_same {A : Type} (src : list A) (n : nat) :
  length src = n -> assign_row src n = Ok src.
Proof.
  intros Hn. unfold assign_row. rewrite Hn, Nat.eqb_refl. reflexivity.
Qed.

Lemma assign_row_raises {A : Type} (src : list A) (n : nat) (e : exn) :
  assign_row src n = Raise e -> e = ValueError.
Proof.
  unfold assign_row. destruct (Nat.eqb (length src) n); [discriminate|].
  destruct src as [|x [|y src]]; congruence.
Qed.

Lemma dot_mv_fits (D : matrix) (v : vec) (P : nat) :
  has_shape D P P -> length v = P -> dot_mv D v = Ok (np.mulmv D v).
Proof.
  intros [Hl Hr] Hv. unfold dot_mv.
  assert (Hs : np.shape1 D = length v).
  { destruct D as [|r D]; [simpl in Hl; unfold np.shape1; simpl; lia|].
    unfold np.shape1. cbn [nth]. inversion Hr; subst. lia. }
  rewrite Hs, Nat.eqb_refl. cbn [andb].
  assert (Hall : forallb (fun r => Nat.eqb (length r) (length v)) D = true).
  { apply forallb_forall. intros r Hin. apply Nat.eqb_eq.
    rewrite Forall_forall in Hr.
    rewrite (Hr r (proj2 (list_elem_of_In _ _) Hin)). lia. }
  rewrite Hall. reflexivity.
Qed.

Lemma dot_mv_misfit (D : matrix) (v : vec) :
  np.shape1 D <> length v -> dot_mv D v = Raise ValueError.
Proof.
  intros Hne. unfold dot_mv.
  destruct (Nat.eqb_spec (np.shape1 D) (length v)); [contradiction|].
  reflexivity.
Qed.

Lemma dot_mv_raises (D : matrix) (v : vec) (e : exn) :
  dot_mv D v = Raise e -> e = ValueError.
Proof. unfold dot_mv. destruct (_ && _); congruence. Qed.

Section PenaltyRows.

Variable H : matrix.
Variable diffOp : list matrix.
Variables K P : nat.
Hypothesis HH : has_shape H K P.

Let step : matrix -> nat -> result matrix :=
  fun Hdiff k =>
    Hk ← np.getitem H k;
    r ← dot_mv (nth k diffOp []) Hk;
    row ← assign_row r (np.shape1 H);
    Ok (<[ k := row ]> Hdiff).

Lemma penalty_step_ok (acc : matrix) (a : nat) :
  (a < K)%nat -> has_shape (nth a diffOp []) P P ->
  step acc a = Ok (<[ a := np.mulmv (nth a diffOp []) (nth a H []) ]> acc).
Proof.
  intros Ha HD. unfold step, np.getitem. rewrite (nth_lookup H a []).
  pose proof (has_shape_nth H K P a HH Ha) as Hrow.
  pose proof (shape1_of_has_shape H K P HH ltac:(lia)) as Hs.
  rewrite (nth_lookup H a []) in Hrow.
  destruct (H !! a) as [Hk|] eqn:E;
    [|destruct HH as [Hl _]; apply lookup_ge_None in E; lia].
  cbn [default from_option id mbind result_bind] in Hrow |- *.
  rewrite (dot_mv_fits _ _ P HD Hrow). cbn [mbind result_bind].
  rewrite assign_row_same; [reflexivity|].
  rewrite length_mulmv, Hs. apply HD.
Qed.

Lemma penalty_step_misfit (acc : matrix) (a : nat) :
  (a < K)%nat -> np.shape1 (nth a diffOp []) <> P ->
  step acc a = Raise ValueError.
Proof.
  intros Ha HD. unfold step, np.getitem.
  pose proof (has_shape_nth H K P a HH Ha) as Hrow.
  rewrite (nth_lookup H a []) in Hrow.
  destruct (H !! a) as [Hk|] eqn:E;
    [|destruct HH as [Hl _]; apply lookup_ge_None in E; lia].
  cbn [default from_option id mbind result_bind] in Hrow |- *.
  rewrite dot_mv_misfit by (rewrite Hrow; exact HD). reflexivity.
Qed.

Lemma penalty_step_outside (acc : matrix) (a : nat) :
  (K <= a)%nat -> step acc a = Raise IndexError.
Proof.
  intros Ha. unfold step, np.getitem. destruct HH as [Hl _].
  rewrite (proj2 (lookup_ge_None H a)) by lia. reflexivity.
Qed.

Lemma penalty_loop_spec (n a : nat) (acc : matrix) :
  (a + n <= K)%nat ->
  (forall k, (a <= k < a + n)%nat -> has_shape (nth k diffOp []) P P) ->
  exists acc',
    foldM step (seq a n) acc = Ok acc'
    /\ length acc' = length acc
    /\ forall k, (k < length acc)%nat ->
         nth k acc' []
         = if (a <=? k)%nat && (k <? a + n)%nat
           then np.mulmv (nth k diffOp []) (nth k H [])
           else nth k acc [].
Proof.
  revert a acc. induction n as [|n IH]; intros a acc Hle Hfit.
  - exists acc. split; [reflexivity|]. split; [reflexivity|].
    intros k Hk. bool_cases.
  - destruct (IH (S a)
                (<[ a := np.mulmv (nth a diffOp []) (nth a H []) ]> acc))
      as (acc' & Hrun & Hlen & Hrows);
      [lia|intros k Hk; apply Hfit; lia|].
    exists acc'. split; [|split].
    + change (foldM step (seq a (S n)) acc)
        with (step acc a ≫= foldM step (seq (S a) n)).
      rewrite penalty_step_ok by (lia || (apply Hfit; lia)). exact Hrun.
    + rewrite Hlen. apply length_insert.
    + intros k Hk. rewrite Hrows by (rewrite length_insert; exact Hk).
      destruct (Nat.eq_dec k a) as [->|Hka].
      * replace ((S a <=? a)%nat) with false
          by (symmetry; apply Nat.leb_gt; lia).
        replace ((a <=? a)%nat) with true
          by (symmetry; apply Nat.leb_le; lia).
        replace ((a <? a + S n)%nat) with true
          by (symmetry; apply Nat.ltb_lt; lia).
        cbn [andb].
        rewrite (nth_lookup (<[ a := _ ]> acc)), list_lookup_insert_eq
          by exact Hk.
        reflexivity.
      * rewrite (nth_lookup (<[ a := _ ]> acc)),
          list_lookup_insert_ne, <- nth_lookup by lia.
        bool_cases.
Qed.

(** The loop stops at the first index that is beyond [H] (IndexError) or
    whose operator does not have the width of [H] (ValueError). *)
Lemma penalty_loop_stops (n a k0 : nat) (acc : matrix) (e : exn) :
  (a <= k0 < a + n)%nat ->
  (forall k, (a <= k < k0)%nat ->
             (k < K)%nat /\ has_shape (nth k diffOp []) P P) ->
  (forall acc', step acc' k0 = Raise e) ->
  foldM step (seq a n) acc = Raise e.
Proof.
  revert a acc. induction n as [|n IH]; intros a acc Hk0 Hfit Hstop.
  - exfalso. lia.
  - change (foldM step (seq a (S n)) acc)
      with (step acc a ≫= foldM step (seq (S a) n)).
    destruct (Nat.eq_dec a k0) as [->|Hne].
    + rewrite Hstop. reflexivity.
    + destruct (Hfit a ltac:(lia)) as [HaK HaD].
      rewrite (penalty_step_ok acc a HaK HaD). cbn [mbind result_bind].
      apply IH; [lia| |exact Hstop].
      intros k Hk. apply Hfit. lia.
Qed.

End PenaltyRows.

Lemma getIntensityDiff_ok (H : matrix) (diffOp : list matrix)
    (offset : Q) (includeBkg : bool) (K P : nat) :
  has_shape H K P -> (0 < K)%nat -> (length diffOp <= K)%nat ->
  Forall (fun D => has_shape D P P) diffOp ->
  exists Hdiff,
    getIntensityDiff H diffOp offset includeBkg = Ok Hdiff
    /\ has_shape Hdiff K P
    /\ forall k, (k < K)%nat ->
         nth k Hdiff []
         = if (k <? length diffOp)%nat
           then np.mulmv (nth k diffOp []) (nth k H [])
           else np.zeros1 P.
Proof.
  intros HH HK Hle Hfit.
  pose proof (shape1_of_has_shape H K P HH HK) as Hs.
  assert (Hl : length H = K) by apply HH.
  assert (Hz : length (np.zeros (np.shape0 H) (np.shape1 H)) = K).
  { unfold np.zeros, np.shape0. rewrite repeat_length. exact Hl. }
  assert (HfitK : forall k, (0 <= k < 0 + length diffOp)%nat ->
                            has_shape (nth k diffOp []) P P).
  { intros k Hk. rewrite Forall_lookup in Hfit. rewrite nth_lookup.
    destruct (diffOp !! k) as [D|] eqn:E; [apply (Hfit k D E)|].
    apply lookup_ge_None in E. lia. }
  unfold getIntensityDiff.
  destruct (penalty_loop_spec H diffOp K P HH (length diffOp) 0
              (np.zeros (np.shape0 H) (np.shape1 H)))
    as (acc' & Hrun & Hlen & Hrows); [lia|exact HfitK|].
  exists acc'. rewrite Hrun. cbn [mbind result_bind].
  assert (Hrow : forall k, (k < K)%nat ->
             nth k acc' []
             = if (k <? length diffOp)%nat
               then np.mulmv (nth k diffOp []) (nth k H [])
               else np.zeros1 P).
  { intros k Hk. rewrite Hrows by (rewrite Hz; exact Hk).
    replace ((0 <=? k)%nat) with true by reflexivity.
    cbn [andb plus]. destruct (k <? length diffOp)%nat; [reflexivity|].
    unfold np.zeros, np.shape0. rewrite Hs, Hl.
    apply nth_repeat_lt. exact Hk. }
  split; [|split; [|exact Hrow]].
  - destruct includeBkg; cbn [mbind result_bind]; [|reflexivity].
    unfold np.getitem_last.
    destruct (last H) as [r|] eqn:E; [reflexivity|].
    apply last_None in E. rewrite E in Hl. simpl in Hl. lia.
  - apply has_shape_of_rows; [congruence|].
    intros k Hk. rewrite (Hrow k Hk).
    destruct (Nat.ltb_spec k (length diffOp)) as [Hkd|Hkd].
    + rewrite length_mulmv. apply (HfitK k). lia.
    + unfold np.zeros1. apply repeat_length.
Qed.

Lemma getIntensityDiff_stops (H : matrix) (diffOp : list matrix)
    (offset : Q) (includeBkg : bool) (K P k0 : nat) (e : exn) :
  has_shape H K P -> (k0 < length diffOp)%nat ->
  Forall (fun D => has_shape D P P) (take k0 diffOp) ->
  (k0 <= K)%nat ->
  (k0 = K /\ e = IndexError)
  \/ ((k0 < K)%nat /\ np.shape1 (nth k0 diffOp []) <> P
      /\ e = ValueError) ->
  getIntensityDiff H diffOp offset includeBkg = Raise e.
Proof.
  intros HH Hk0 Hfit HkK Hstop. unfold getIntensityDiff.
  rewrite (penalty_loop_stops H diffOp K P HH (length diffOp) 0 k0 _ e);
    [reflexivity|lia| |].
  - intros k Hk. split; [lia|].
    rewrite Forall_lookup in Hfit. rewrite nth_lookup.
    destruct (diffOp !! k) as [D|] eqn:E;
      [|apply lookup_ge_None in E; lia].
    apply (Hfit k D). rewrite lookup_take_lt by lia. exact E.
  - intros acc'. destruct Hstop as [[-> ->]|(Hlt & Hmis & ->)].
    + apply (penalty_step_outside H diffOp K P HH). lia.
    + apply (penalty_step_misfit H diffOp K P HH); assumption.
Qed.


(** ** Non-negativity under the symmetry penalty *)

(** C1 fails with the symmetry penalty: on a 1x4 footprint with one peak at
    [x = 1], non-negative [A], [W], [H] and [beta = 1], the penalty
    [beta * Hdiff] is [-18] at the first pixel, the denominator of the
    [H] update is negative there, and the updated [H[0, 0]] is negative. *)
Theorem multiplicativeUpdate_penalty_negative :
  let fp := mkFootprint (mkBBox 0 0 4 1) [mkPeak 1 0] in
  let A := [[5; 5; 5; 5]]%Q in
  let W := [[1]]%Q in
  let H := [[1; 1; 10; 0]]%Q in
  nonneg A /\ nonneg W /\ nonneg H /\
  getIntensityDiff H (getSymmetryDiffOp H fp) 0 false
    = Ok [[-18 # 1; 0; 18 # 1; 0]%Q] /\
  exists W' H',
    multiplicativeUpdate A W H fp 0 false 1 (Some (getSymmetryDiffOp H fp))
      = Ok (W', H') /\
    (np.get H' 0 0 < 0)%Q.
Proof.
  intros fp A W H.
  split; [|split; [|split; [|split]]].
  - apply nonneg_of_bool. reflexivity.
  - apply nonneg_of_bool. reflexivity.
  - apply nonneg_of_bool. reflexivity.
  - vm_compute. reflexivity.
  - eexists. eexists. split; [vm_compute; reflexivity|].
    vm_compute. reflexivity.
Qed.

(** ** Normalisation of the columns of [W] *)




(** ** The difference operator *)

(** C3: for a footprint whose peaks lie in its bounding box there is one
    difference operator per peak, and the operator of source [k] is
    [I + Sk^T Sk - 2 Sk] for the symmetry operator [Sk] of that source (the
    source multiplies [Sk] by itself, and [Sk] is a symmetric matrix). *)
Theorem getSymmetryDiffOp_spec (H : matrix) (fp : Footprint) :
  peaks_in_bbox fp ->
  length (getSymmetryDiffOp H fp) = length (getPeaks fp)
  /\ forall k Sk,
      getSymmetryOperator H fp !! k = Some Sk ->
      getSymmetryDiffOp H fp !! k = Some (diffOperator_spec Sk).
Proof.
  intros Hpeaks. split.
  - unfold getSymmetryDiffOp, getSymmetryOperator.
    rewrite length_map, length_imap. reflexivity.
  - intros k Sk HSk. unfold getSymmetryDiffOp.
    rewrite list_lookup_fmap, HSk. cbn [fmap option_fmap option_map].
    f_equal. unfold diffOperator_spec. do 3 f_equal.
    unfold getSymmetryOperator in HSk.
    rewrite list_lookup_imap in HSk.
    destruct (getPeaks fp !! k) as [peak|] eqn:Epk; [|discriminate].
    cbn [fmap option_fmap option_map] in HSk.
    injection HSk as <-.
    unfold peaks_in_bbox in Hpeaks. rewrite Forall_forall in Hpeaks.
    destruct (Hpeaks peak) as [Hpx Hpy].
    { apply list_elem_of_lookup. exists k. exact Epk. }
    symmetry. apply getPeakSymmetryOperator_symmetric; assumption.
Qed.

Lemma getSymmetryDiffOp_spec_witness :
  let fp := mkFootprint (mkBBox 10 20 4 3) [mkPeak 12 21; mkPeak 10 20] in
  let H := np.zeros 2 12 in
  peaks_in_bbox fp
  /\ exists Sk,
      getSymmetryOperator H fp !! 1%nat = Some Sk
      /\ getSymmetryDiffOp H fp !! 1%nat = Some (diffOperator_spec Sk).
Proof.
  intros fp H.
  assert (Hpeaks : peaks_in_bbox fp)
    by (repeat constructor; vm_compute; congruence).
  split; [exact Hpeaks|].
  eexists. split; [reflexivity|].
  apply (proj2 (getSymmetryDiffOp_spec H fp Hpeaks)). reflexivity.
Defined.

(** ** The shape of the symmetry operators *)

(** C4 fails for a centred peak: there is one operator per peak and none
    for the background row, but [getSymmetryOperator] hands
    [getPeakSymmetryOperator] the slice [H[n:]], so that with a background
    row below the source the full reversal is built over [np.size(H[0:])
    = 18] entries instead of the [P = 9] pixels of the 3x3 footprint, while
    an off-centre peak of the same footprint gets a 9x9 operator. *)
Theorem getSymmetryOperator_center_shape :
  let H := np.zeros 2 9 in
  let shapes S := map (fun s => (np.shape0 s, np.shape1 s)) S in
  (forall H fp, length (getSymmetryOperator H fp) = length (getPeaks fp))
  /\ shapes (getSymmetryOperator H
               (mkFootprint (mkBBox 0 0 3 3) [mkPeak 1 1]))
     = [(18, 18)%nat]
  /\ shapes (getSymmetryOperator H
               (mkFootprint (mkBBox 0 0 3 3) [mkPeak 0 1]))
     = [(9, 9)%nat].
Proof.
  split; [|split; vm_compute; reflexivity].
  intros H fp. unfold getSymmetryOperator. apply length_imap.
Qed.

(** ** The operator is the point reflection about the peak *)

Section Reflection.

Variable row : np.ndarray.
Variable shape : Z * Z.
Variables px py : Z.
Hypothesis Hpx : 0 <= px < snd shape.
Hypothesis Hpy : 0 <= py < fst shape.
Hypothesis Hsize :
  centered shape px py = true ->
  np.size row = Z.to_nat (snd shape * fst shape).

Let N : nat := Z.to_nat (snd shape * fst shape).
Let S : matrix := getPeakSymmetryOperator row shape px py.

Lemma getPeakSymmetryOperator_shape :
  length S = N /\ forall p, (p < N)%nat -> length (nth p S []) = N.
Proof.
  unfold S. destruct (centered shape px py) eqn:Ec.
  - rewrite getPeakSymmetryOperator_center, (Hsize eq_refl), eye_diag_mask
      by exact Ec.
    fold N. unfold np.fliplr. split.
    + rewrite length_map. apply length_diag_mask.
    + intros p Hp. change (@nil Q) with (rev (@nil Q)).
      rewrite map_nth, length_rev, nth_diag_mask by exact Hp.
      apply length_mask_row.
  - rewrite getPeakSymmetryOperator_offcenter by exact Ec.
    pose proof (axis_range_spec py (fst shape) Hpy) as Hyr.
    pose proof (axis_range_spec px (snd shape) Hpx) as Hxr.
    destruct (axis_range py (fst shape)) as [ymin ymax].
    destruct (axis_range px (snd shape)) as [xmin xmax].
    apply length_offcenter; lia.
Qed.

(** Row [(x, y)] of the operator: a single 1 in the column of the mirror
    image of [(x, y)] when that image is on the grid, nothing otherwise. *)
Lemma getPeakSymmetryOperator_row (x y : Z) :
  0 <= x < snd shape -> 0 <= y < fst shape ->
  nth (pixel (snd shape) x y) S []
    = mask_row N (pixel (snd shape) (2 * px - x) (2 * py - y))
               (negb (mirror_on_grid shape px py x y)).
Proof.
  intros Hxr Hyr.
  assert (Hp : (pixel (snd shape) x y < N)%nat)
    by (unfold pixel, N; nia).
  apply row_of_entries.
  - apply getPeakSymmetryOperator_shape. exact Hp.
  - intros q Hq. change (nth q (nth (pixel (snd shape) x y) S []) 0%Q)
      with (np.get S (pixel (snd shape) x y) q).
    unfold S. destruct (centered shape px py) eqn:Ec.
    + rewrite getPeakSymmetryOperator_center, (Hsize eq_refl), eye_diag_mask
        by exact Ec.
      fold N. rewrite get_fliplr_diag_mask.
      unfold centered in Ec. apply andb_prop in Ec. destruct Ec as [Ex Ey].
      apply Z.eqb_eq in Ex, Ey.
      assert (Hm : mirror_on_grid shape px py x y = true)
        by (unfold mirror_on_grid; lia).
      rewrite Hm.
      assert (Hmir : Z.of_nat (pixel (snd shape) (2 * px - x) (2 * py - y))
                     = Z.of_nat N - 1 - Z.of_nat (pixel (snd shape) x y))
        by (unfold pixel, N; nia).
      bool_cases.
    + rewrite getPeakSymmetryOperator_offcenter by exact Ec.
      pose proof (axis_range_spec py (fst shape) Hpy) as Hyr'.
      pose proof (axis_range_spec px (snd shape) Hpx) as Hxr'.
      destruct (axis_range py (fst shape)) as [ymin ymax].
      destruct (axis_range px (snd shape)) as [xmin xmax].
      rewrite get_offcenter_pixel by lia.
      replace (xmin + xmax - 1 - x) with (2 * px - x) by lia.
      replace (ymin + ymax - 1 - y) with (2 * py - y) by lia.
      replace (in_rect (ymin, ymax) (xmin, xmax) x y)
        with (mirror_on_grid shape px py x y); [reflexivity|].
      unfold in_rect, mirror_on_grid. cbn [fst snd].
      apply eq_true_iff_eq. rewrite !andb_true_iff. lia.
Qed.

(** Applied to a row of intensities, the operator reads every pixel at its
    mirror image, and reads 0 where the image is off the grid. *)
Lemma getPeakSymmetryOperator_reflects (v : vec) (x y : Z) :
  0 <= x < snd shape -> 0 <= y < fst shape ->
  (nth (pixel (snd shape) x y) (np.mulmv S v) 0
     == if mirror_on_grid shape px py x y
        then nth (pixel (snd shape) (2 * px - x) (2 * py - y)) v 0
        else 0)%Q.
Proof.
  intros Hxr Hyr.
  rewrite nth_mulmv, (getPeakSymmetryOperator_row x y Hxr Hyr).
  rewrite dot_mask_row.
  - destruct (mirror_on_grid shape px py x y); reflexivity.
  - intros Hm. apply negb_false_iff in Hm.
    unfold mirror_on_grid in Hm. unfold pixel, N. nia.
Qed.

(** A point-symmetric row that vanishes where its mirror image is off the
    grid is a fixed point of the operator. *)
Lemma symmetric_fixed_point (v : vec) :
  length v = N ->
  point_symmetric shape px py v -> vanishes_off_mirror shape px py v ->
  veq (np.mulmv S v) v.
Proof.
  intros Hlen Hsym Hvan. apply veq_ext.
  - unfold np.mulmv. rewrite length_map.
    rewrite (proj1 getPeakSymmetryOperator_shape). congruence.
  - intros p Hp. unfold np.mulmv in Hp.
    rewrite length_map, (proj1 getPeakSymmetryOperator_shape) in Hp.
    destruct (pixel_decompose (fst shape) (snd shape) p ltac:(lia) Hp)
      as (x & y & Hxr & Hyr & ->).
    rewrite (getPeakSymmetryOperator_reflects v x y Hxr Hyr).
    destruct (mirror_on_grid shape px py x y) eqn:Em;
      unfold mirror_on_grid in Em.
    + symmetry. apply Hsym; lia.
    + symmetry. apply Hvan; lia.
Qed.

(** ... and is annihilated by [I + S.S - 2 S]. *)
Lemma symmetric_annihilated (v : vec) :
  length v = N ->
  point_symmetric shape px py v -> vanishes_off_mirror shape px py v ->
  veq (np.mulmv (np.sub (np.add (np.eye (np.shape0 S)) (np.matmul S S))
                        (np.scale 2 S)) v)
      (np.zeros1 N).
Proof.
  intros Hlen Hsym Hvan.
  pose proof (symmetric_fixed_point v Hlen Hsym Hvan) as Hfix.
  destruct getPeakSymmetryOperator_shape as [HS Hrows].
  assert (HN : (0 < N)%nat) by (unfold N; nia).
  assert (Hrect : Forall (fun r => length r = N) S).
  { apply Forall_rows. rewrite HS. exact Hrows. }
  assert (Hne : S <> []) by (intros E; rewrite E in HS; simpl in HS; lia).
  assert (HSS : has_shape (np.matmul S S) N N).
  { pose proof (has_shape_matmul S S) as Hm. rewrite HS in Hm.
    replace (np.shape1 S) with N in Hm; [exact Hm|].
    unfold np.shape1. symmetry. apply Hrows. exact HN. }
  assert (Hproper2 : forall f : Q -> Q -> Q,
             f = Qplus \/ f = Qminus ->
             forall x x' y y',
               (x == x')%Q -> (y == y')%Q -> (f x y == f x' y')%Q).
  { intros f [-> | ->] x x' y y' Hx Hy; rewrite Hx, Hy; reflexivity. }
  unfold np.shape0. rewrite HS.
  etransitivity.
  { apply mulmv_sub. apply (same_shape _ _ N N).
    - apply has_shape_map2; [apply has_shape_eye|exact HSS].
    - apply has_shape_scale. split; assumption. }
  etransitivity; [|rewrite <- Hlen; apply penalty_cancels].
  apply veq_zip_with; [apply Hproper2; auto| |].
  - etransitivity.
    { apply mulmv_add. apply (same_shape _ _ N N);
        [apply has_shape_eye|exact HSS]. }
    apply veq_zip_with; [apply Hproper2; auto| |].
    + rewrite <- Hlen. apply mulmv_eye.
    + etransitivity; [apply (mulmv_matmul S S N v Hne Hrect)|].
      etransitivity; [apply (mulmv_veq S _ _ Hfix)|exact Hfix].
  - etransitivity; [apply mulmv_scale|].
    apply veq_map; [|exact Hfix].
    intros x x' Hx. rewrite Hx. reflexivity.
Qed.

End Reflection.

(** C5 (as amended): for a source whose peak lies in the bounding box (and
    whose operator, when the peak is at the exact centre, is built over the
    pixels of one row), a row of intensities that is point-symmetric about
    the peak and is zero at every pixel whose mirror image falls off the
    grid is left unchanged by the symmetry operator of the source and is
    annihilated by its difference operator. *)
Theorem symmetric_row_invariant (H : matrix) (fp : Footprint) (k : nat)
    (peak : Peak) (v : vec) :
  getPeaks fp !! k = Some peak ->
  let bbox := getBBox fp in
  let shape := (getHeight bbox, getWidth bbox) in
  let px := getIx peak - getMinX bbox in
  let py := getIy peak - getMinY bbox in
  0 <= px < getWidth bbox -> 0 <= py < getHeight bbox ->
  (centered shape px py = true ->
   np.size (np.Arr2 (drop k H))
     = Z.to_nat (getWidth bbox * getHeight bbox)) ->
  length v = Z.to_nat (getWidth bbox * getHeight bbox) ->
  point_symmetric shape px py v -> vanishes_off_mirror shape px py v ->
  exists Sk Dk,
    getSymmetryOperator H fp !! k = Some Sk
    /\ getSymmetryDiffOp H fp !! k = Some Dk
    /\ veq (np.mulmv Sk v) v
    /\ veq (np.mulmv Dk v) (np.zeros1 (length v)).
Proof.
  intros Hpeak bbox shape px py Hpx Hpy Hsize Hlen Hsym Hvan.
  set (Sk := getPeakSymmetryOperator (np.Arr2 (drop k H)) shape px py).
  assert (HSk : getSymmetryOperator H fp !! k = Some Sk).
  { unfold getSymmetryOperator. rewrite list_lookup_imap, Hpeak.
    reflexivity. }
  exists Sk.
  exists (np.sub (np.add (np.eye (np.shape0 Sk)) (np.matmul Sk Sk))
                 (np.scale 2 Sk)).
  split; [exact HSk|]. split.
  - unfold getSymmetryDiffOp. rewrite list_lookup_fmap, HSk. reflexivity.
  - split.
    + apply (symmetric_fixed_point _ shape px py Hpx Hpy Hsize v Hlen
               Hsym Hvan).
    + rewrite Hlen.
      apply (symmetric_annihilated _ shape px py Hpx Hpy Hsize v Hlen
               Hsym Hvan).
Qed.

Lemma symmetric_row_invariant_witness :
  let fp := mkFootprint (mkBBox 0 0 4 1) [mkPeak 1 0] in
  let v := [3; 5; 3; 0]%Q in
  exists Sk Dk,
    getSymmetryOperator [v; [7; 7; 7; 7]%Q] fp !! 0%nat = Some Sk
    /\ getSymmetryDiffOp [v; [7; 7; 7; 7]%Q] fp !! 0%nat = Some Dk
    /\ veq (np.mulmv Sk v) v
    /\ veq (np.mulmv Dk v) (np.zeros1 (length v)).
Proof.
  intros fp v.
  apply (symmetric_row_invariant [v; [7; 7; 7; 7]%Q] fp 0 (mkPeak 1 0) v).
  - reflexivity.
  - simpl. lia.
  - simpl. lia.
  - intros Hc. vm_compute in Hc. discriminate Hc.
  - reflexivity.
  - intros x y Hx Hy Hmx Hmy. cbn [fst snd getHeight getWidth getBBox fp]
      in Hx, Hy, Hmx, Hmy.
    cbn [getIx getIy getMinX getMinY getBBox fp] in Hmx, Hmy.
    assert (Hy0 : y = 0) by lia. subst y.
    assert (Hx3 : x = 0 \/ x = 1 \/ x = 2) by lia.
    destruct Hx3 as [-> | [-> | ->]]; vm_compute; reflexivity.
  - intros x y Hx Hy Hm. cbn [fst snd getHeight getWidth getBBox fp]
      in Hx, Hy, Hm.
    cbn [getIx getIy getMinX getMinY getBBox fp] in Hm.
    assert (Hy0 : y = 0) by lia. subst y.
    assert (Hx3 : x = 3) by lia. subst x. vm_compute. reflexivity.
Defined.

(** C5 as stated fails for an off-centre peak: the row [1, 1, 1] of a 1x3
    grid is point-symmetric about the peak at [x = 0], but the operator
    keeps the peak pixel only, and the difference operator returns the two
    other pixels. *)
Lemma symmetric_row_counterexample :
  let fp := mkFootprint (mkBBox 0 0 3 1) [mkPeak 0 0] in
  let v := [1; 1; 1]%Q in
  point_symmetric (1, 3) 0 0 v
  /\ np.mulmv (getPeakSymmetryOperator (np.Arr1 v) (1, 3) 0 0) v
     = [1; 0; 0]%Q
  /\ ~ veq (np.mulmv (getPeakSymmetryOperator (np.Arr1 v) (1, 3) 0 0) v) v
  /\ exists D,
      getSymmetryDiffOp [v] fp = [D]
      /\ ~ veq (np.mulmv D v) (np.zeros1 3).
Proof.
  intros fp v. split; [|split; [|split]].
  - intros x y Hx Hy Hmx Hmy. cbn [fst snd] in *.
    assert (Hx0 : x = 0) by lia. assert (Hy0 : y = 0) by lia.
    subst. reflexivity.
  - vm_compute. reflexivity.
  - intros Hv. apply (veq_nth _ _ 1) in Hv. vm_compute in Hv.
    discriminate Hv.
  - eexists. split; [reflexivity|].
    intros Hv. apply (veq_nth _ _ 1) in Hv. vm_compute in Hv.
    discriminate Hv.
Qed.

(** ** Edge alignment of the off-centre operator *)

(** C6: for a peak of the grid that is not at its centre, with the
    sub-rectangle [(xmin, xmax) x (ymin, ymax)] of the source and
    [extraWidth = fpWidth - tWidth] extra columns: for every interior row [i]
    of the sub-rectangle and every extra column [j], the row [idx] of the
    sub-block is empty before the reversal (its diagonal entry in
    particular), the matching row of the operator is empty, and every entry
    of the operator that is not zero couples a pixel of the sub-rectangle
    with its mirror image about the peak: no pixel is reflected into another
    row. *)
Theorem extra_columns_not_aliased (row : np.ndarray) (shape : Z * Z)
    (px py : Z) :
  0 <= px < snd shape -> 0 <= py < fst shape ->
  centered shape px py = false ->
  let S := getPeakSymmetryOperator row shape px py in
  let fpWidth := snd shape in
  let '(ymin, ymax) := axis_range py (fst shape) in
  let '(xmin, xmax) := axis_range px (snd shape) in
  let tWidth := xmax - xmin in
  let tHeight := ymax - ymin in
  let extraWidth := fpWidth - tWidth in
  let pixels := (tHeight - 1) * fpWidth + tWidth in
  let smin := ymin * fpWidth + xmin in
  (forall i j,
      0 <= i < tHeight - 1 -> 0 <= j < extraWidth ->
      let idx := Z.to_nat ((i + 1) * tWidth + i * extraWidth + j) in
      np.get (zeroed_block fpWidth tWidth tHeight) idx idx = 0%Q
      /\ nth idx (zeroed_block fpWidth tWidth tHeight) []
         = np.zeros1 (Z.to_nat pixels)
      /\ forall q, np.get S (Z.to_nat smin + idx) q = 0%Q)
  /\ (forall p q,
         np.get S p q <> 0%Q ->
         exists x y,
           xmin <= x < xmax /\ ymin <= y < ymax
           /\ p = pixel fpWidth x y
           /\ q = pixel fpWidth (2 * px - x) (2 * py - y)).
Proof.
  intros Hpx Hpy Hc S fpWidth. subst S.
  rewrite getPeakSymmetryOperator_offcenter by exact Hc.
  pose proof (axis_range_spec py (fst shape) Hpy) as Hyr.
  pose proof (axis_range_spec px (snd shape) Hpx) as Hxr.
  destruct (axis_range py (fst shape)) as [ymin ymax].
  destruct (axis_range px (snd shape)) as [xmin xmax].
  assert (Hy : 0 <= ymin < ymax /\ ymax <= fst shape) by lia.
  assert (Hx : 0 <= xmin < xmax /\ xmax <= snd shape) by lia.
  assert (He : xmin = 0 \/ xmax = snd shape) by tauto.
  cbv zeta. split.
  - intros i j Hi Hj.
    pose proof (extra_columns_zeroed (fst shape) (snd shape) ymin ymax xmin
                  xmax Hy Hx He i j Hi Hj) as Hz.
    cbv zeta in Hz.
    replace ((ymax - 1) * snd shape + xmax - (ymin * snd shape + xmin))
      with ((ymax - ymin - 1) * fpWidth + (xmax - xmin)) in Hz
      by (unfold fpWidth; ring).
    exact Hz.
  - intros p q Hnz.
    destruct (nonzero_entry_mirror (fst shape) (snd shape) ymin ymax xmin
                xmax Hy Hx He p q ltac:(lia) Hnz)
      as (x & y & Hxin & Hyin & Hp & Hq).
    exists x, y. split; [exact Hxin|]. split; [exact Hyin|].
    split; [exact Hp|].
    replace (2 * px - x) with (xmin + xmax - 1 - x) by lia.
    replace (2 * py - y) with (ymin + ymax - 1 - y) by lia.
    exact Hq.
Qed.

Lemma extra_columns_not_aliased_witness :
  np.get (getPeakSymmetryOperator (np.Arr1 (np.zeros1 12)) (3, 4) 2 1) 4 7
    = 0%Q.
Proof.
  pose proof (extra_columns_not_aliased (np.Arr1 (np.zeros1 12)) (3, 4) 2 1
                ltac:(simpl; lia) ltac:(simpl; lia) eq_refl) as Ht.
  cbn [fst snd] in Ht.
  change (axis_range 1 3) with (0, 3) in Ht.
  change (axis_range 2 4) with (1, 4) in Ht.
  cbv beta iota zeta in Ht.
  destruct Ht as [Hrows _].
  destruct (Hrows 0 0 ltac:(lia) ltac:(lia)) as (_ & _ & Hrow).
  exact (Hrow 7%nat).
Defined.

(** ** The regulariser of the exact-inverse update *)

(** C7 fails: [1e-9] is added to every entry.  With two sources of one
    intensity row the matrix handed to [np.linalg.inv] is singular (it has
    no right inverse at all) and [inverseUpdate] raises, where the update
    with [eps] on the diagonal returns; and where both return, as for
    [H = I], they return different [W]. *)
Theorem inverseUpdate_adds_eps_everywhere :
  let fp := mkFootprint (mkBBox 0 0 1 1) [mkPeak 0 0] in
  let H2 := [[1]; [1]]%Q in
  let M := np.add_scalar (np.matmul H2 (np.transpose H2)) eps in
  let A := [[1; 2]; [3; 4]]%Q in
  let I2 := [[1; 0]; [0; 1]]%Q in
  (forall N, ~ meq (np.matmul M N) (np.eye 2))
  /\ inverseUpdate [[1]]%Q [[1; 1]]%Q H2 fp 0 false = Raise LinAlgError
  /\ (exists WH, inverseUpdate_spec [[1]]%Q H2 = Ok WH)
  /\ (exists W H W' H',
         inverseUpdate A [[1; 1]; [1; 1]]%Q I2 fp 0 false = Ok (W, H)
         /\ inverseUpdate_spec A I2 = Ok (W', H')
         /\ ~ (np.get W 0 0 == np.get W' 0 0)%Q).
Proof.
  intros fp H2 M A I2. split; [|split; [|split]].
  - intros N HN. subst M H2.
    change (np.eye 2) with [[1; 0]; [0; 1]]%Q in HN.
    match type of HN with meq (np.matmul ?m _) _ => set (M := m) in HN end.
    vm_compute in M. subst M. unfold np.matmul in HN. cbn [map] in HN.
    match type of HN with meq [?l; _] _ => remember l as L eqn:EL end.
    clear EL. inversion HN as [|r1 e1 R E Hr1 HR]; subst.
    inversion HR as [|r2 e2 R' E' Hr2 _]; subst.
    destruct L as [|a L]; [inversion Hr1|].
    inversion Hr1 as [|? ? ? ? Ha _]; subst.
    inversion Hr2 as [|? ? ? ? Hb _]; subst.
    rewrite Ha in Hb. discriminate Hb.
  - vm_compute. reflexivity.
  - eexists. vm_compute. reflexivity.
  - do 4 eexists. split; [vm_compute; reflexivity|].
    split; [vm_compute; reflexivity|]. vm_compute. discriminate.
Qed.
(** ** Unimplemented operators in proximal.py *)

Section Unsupported.

Variable buildNmfData :
  Footprint -> result (proximal.cube * proximal.cube * proximal.cube).
Variable getParentFootprint :
  Z -> bool -> bool -> result (Footprint * list Peak).
Variable plotSeds : option matrix -> result unit.
Variable plotIntensities :
  option matrix -> option proximal.cube -> result unit.
Variable showFit : matrix -> proximal.cube -> result unit.
Variable maskVariance :
  option proximal.cube -> option proximal.cube -> result proximal.cube.
Variable peakPositions :
  proximal.DeblendedParent -> result (list (Z * Z)).
Variable nmf_deblender :
  option proximal.cube -> nat -> Z -> list (Z * Z) -> proximal.cube ->
  string -> result (matrix * proximal.cube * proximal.cube).

Let initNMF := proximal.initNMF buildNmfData plotSeds plotIntensities.
Let deblend :=
  proximal.deblend buildNmfData plotSeds plotIntensities showFit
                   maskVariance peakPositions nmf_deblender.
Let deblendParent :=
  proximal.deblendParent buildNmfData getParentFootprint plotSeds
    plotIntensities showFit maskVariance peakPositions nmf_deblender.

(** C8 (as amended): once the data of the footprint are built, asking for
    the PSF operator raises NotImplementedError, from [initNMF] and from
    [deblendParent] alike, and the data stay loaded; a failure of
    [buildNmfData] comes before it, with or without the PSF operator, and
    leaves the parent as it was; [getMonotonicOp] returns [None] and
    leaves the parent as it is; and a [deblendParent] without PSF and
    plots is [DeblendedParent.deblend] on the initialised parent whatever
    the constraints ask for, so that no failure comes from the loading of
    an operator. *)
Theorem unsupported_operators :
  (forall self displaySeds displayTemplates d m v,
      buildNmfData (proximal.footprint self) = Ok (d, m, v) ->
      snd (initNMF true displaySeds displayTemplates self)
        = Raise psf_unsupported
      /\ proximal.data
           (fst (initNMF true displaySeds displayTemplates self)) = Some d)
  /\ (forall self initPsf displaySeds displayTemplates e,
        buildNmfData (proximal.footprint self) = Raise e ->
        initNMF initPsf displaySeds displayTemplates self
          = (self, Raise e))
  /\ (forall parentIdx display displaySeds displayTemplates imgLimits
             constraints maxiter fp pks,
        getParentFootprint parentIdx display imgLimits = Ok (fp, pks) ->
        deblendParent parentIdx true display displaySeds displayTemplates
                      imgLimits constraints maxiter
          = match buildNmfData fp with
            | Ok _ => Raise psf_unsupported
            | Raise e => Raise e
            end)
  /\ (forall self, proximal.getMonotonicOp self = (self, Ok None))
  /\ (forall parentIdx display imgLimits constraints maxiter fp pks,
        getParentFootprint parentIdx display imgLimits = Ok (fp, pks) ->
        deblendParent parentIdx false display false false imgLimits
                      constraints maxiter
          = (let '(parent, r) :=
               deblend constraints maxiter display
                 (fst (initNMF false false false (proximal.init fp pks)))
             in _ ← r; Ok parent)).
Proof.
  split; [|split; [|split; [|split]]].
  - intros self ds dt d m v Hd. unfold initNMF, proximal.initNMF.
    rewrite Hd. split; reflexivity.
  - intros self ip ds dt e He. unfold initNMF, proximal.initNMF.
    rewrite He. reflexivity.
  - intros idx display ds dt il c mi fp pks Hfp.
    unfold deblendParent, proximal.deblendParent. rewrite Hfp.
    cbn [mbind result_bind]. unfold proximal.initNMF.
    cbn [proximal.init proximal.footprint].
    destruct (buildNmfData fp) as [[[d m] v]|e]; reflexivity.
  - intros self. reflexivity.
  - intros idx display il c mi fp pks Hfp.
    unfold deblendParent, proximal.deblendParent. rewrite Hfp.
    cbn [mbind result_bind].
    unfold deblend, proximal.deblend, initNMF, proximal.initNMF.
    simpl. destruct (buildNmfData fp) as [[[d m] v]|e] eqn:Eb; simpl.
    + destruct (proximal.contains "s" _), (proximal.contains "m" _);
        reflexivity.
    + rewrite Eb. reflexivity.
Qed.

End Unsupported.

Lemma unsupported_operators_witness :
  let fp := mkFootprint (mkBBox 0 0 3 3) [mkPeak 1 1] in
  proximal.deblendParent
    (fun _ => Ok ([], [], [])) (fun _ _ _ => Ok (fp, [mkPeak 1 1]))
    (fun _ => Ok tt) (fun _ _ => Ok tt) (fun _ _ => Ok tt)
    (fun _ _ => Ok []) (fun _ => Ok [(1, 1)])
    (fun _ _ _ _ _ _ => Ok ([], [], []))
    0 true false false false false "M" 10
  = Raise psf_unsupported.
Proof.
  intros fp.
  apply (proj1 (proj2 (proj2 (unsupported_operators
           (fun _ => Ok ([], [], [])) (fun _ _ _ => Ok (fp, [mkPeak 1 1]))
           (fun _ => Ok tt) (fun _ _ => Ok tt) (fun _ _ => Ok tt)
           (fun _ _ => Ok []) (fun _ => Ok [(1, 1)])
           (fun _ _ _ _ _ _ => Ok ([], [], []))))))
    with (fp := fp) (pks := [mkPeak 1 1]).
  reflexivity.
Defined.

(** C8 as stated fails for the monotonicity operator: requesting it returns
    [None] without any failure. *)
Lemma getMonotonicOp_silent_counterexample :
  let self := proximal.init (mkFootprint (mkBBox 0 0 3 3) [mkPeak 1 1])
                            [mkPeak 1 1] in
  ~ (exists msg,
        snd (proximal.getMonotonicOp self) = Raise (NotImplementedError msg))
  /\ proximal.getMonotonicOp self = (self, Ok None).
Proof.
  simpl. split; [|reflexivity]. intros [msg Hmsg]. discriminate Hmsg.
Qed.

(** ** The fit diagnostic of [MulticolorCalExp.deblend] *)

(** C9 (as amended): the logged residual difference of a band is the
    percentage [100 * |sum residual| / |sum A[band]|] of the signed sums;
    for non-negative data it is at most [100] times the fraction of the
    absolute values. *)
Theorem residualDifference_signed_sums (W H A : matrix) (fidx : nat) :
  ~ (np.sum (nth fidx A []) == 0)%Q ->
  (residualDifference W H A fidx
     == 100 * (Qabs (np.sum (nth fidx (np.sub (np.matmul W H) A) []))
               / Qabs (np.sum (nth fidx A []))))%Q
  /\ (nonneg_vec (nth fidx A []) ->
      (residualDifference W H A fidx
         <= 100 * residualEnergyFraction W H A fidx)%Q).
Proof.
  intros Hsum. unfold residualDifference, residualEnergyFraction.
  set (diff := nth fidx (np.sub (np.matmul W H) A) []).
  set (a := nth fidx A []) in *.
  split.
  - rewrite Qabs_div. reflexivity.
  - intros Hnn. rewrite Qabs_div, (sum_abs_nonneg a Hnn).
    pose proof (sum_nonneg a Hnn) as Ha.
    rewrite (Qabs_pos _ Ha).
    assert (Hpos : (0 < np.sum a)%Q).
    { apply Qle_lteq in Ha. destruct Ha as [Ha|Ha]; [exact Ha|].
      exfalso. apply Hsum. symmetry. exact Ha. }
    apply Qmult_le_l; [reflexivity|].
    unfold Qdiv. apply Qmult_le_compat_r.
    + apply Qabs_sum_le.
    + apply Qlt_le_weak, Qinv_lt_0_compat, Hpos.
Qed.

Lemma residualDifference_signed_sums_witness :
  (residualDifference [[1]] [[2; 0]] [[1; 1]] 0
     == 100 * (Qabs (np.sum (nth 0 (np.sub (np.matmul [[1]] [[2; 0]])
                                          [[1; 1]]) []))
               / Qabs (np.sum (nth 0 [[1; 1]] []))))%Q.
Proof.
  apply (residualDifference_signed_sums [[1]] [[2; 0]] [[1; 1]] 0)%Q.
  vm_compute. discriminate.
Defined.

(** C9 as stated fails: residuals of opposite sign cancel in the logged
    value ([0] here) and not in [sum |residual| / sum |A[band]|] ([1]). *)
Lemma residualDifference_cancellation_counterexample :
  ~ (residualDifference [[1]] [[2; 0]] [[1; 1]] 0
       == residualEnergyFraction [[1]] [[2; 0]] [[1; 1]] 0)%Q.
Proof. vm_compute. discriminate. Qed.
(** ** The symmetry penalty [getIntensityDiff] *)

(** C10 (as amended): for an [H] with at least one row the outcome of
    [getIntensityDiff] does not depend on [offset] and [includeBkg]; and
    when there are fewer operators than rows (one per real source, the
    background row last) and every operator is a [P x P] matrix for the [P]
    pixels of [H], the call returns and the background row of the penalty
    is zero. *)
Theorem getIntensityDiff_ignores_background
    (H : matrix) (diffOp : list matrix) (offset : Q) (includeBkg : bool) :
  H <> [] ->
  getIntensityDiff H diffOp offset includeBkg
    = getIntensityDiff H diffOp 0 false
  /\ (forall K P,
        has_shape H K P -> (length diffOp < K)%nat ->
        Forall (fun D => has_shape D P P) diffOp ->
        exists Hdiff,
          getIntensityDiff H diffOp offset includeBkg = Ok Hdiff /\
          length Hdiff = length H /\
          last Hdiff = Some (np.zeros1 (np.shape1 H))).
Proof.
  intros Hne. split.
  - unfold getIntensityDiff.
    assert (Hlast : exists r, np.getitem_last H = Ok r).
    { unfold np.getitem_last. destruct (last H) as [r|] eqn:E; [eauto|].
      apply last_None in E. contradiction. }
    destruct Hlast as [r Hr].
    destruct (foldM _ _ _) as [Hdiff|e]; simpl; [|reflexivity].
    destruct includeBkg; simpl; [|reflexivity].
    rewrite Hr. reflexivity.
  - intros K P HH Hlt Hfit.
    destruct (getIntensityDiff_ok H diffOp offset includeBkg K P HH
                ltac:(lia) ltac:(lia) Hfit)
      as (Hdiff & Hrun & [Hlen Hrows] & Hrow).
    exists Hdiff. split; [exact Hrun|].
    assert (HlH : length H = K) by apply HH.
    split; [congruence|].
    rewrite (shape1_of_has_shape H K P HH ltac:(lia)).
    pose proof (Hrow (K - 1)%nat ltac:(lia)) as Hk.
    destruct (Nat.ltb_spec (K - 1) (length diffOp)) as [Hc|_]; [lia|].
    rewrite last_lookup, Hlen.
    replace (Nat.pred K) with (K - 1)%nat by lia.
    rewrite nth_lookup in Hk.
    destruct (Hdiff !! (K - 1)%nat) as [row|] eqn:E;
      [simpl in Hk; congruence|].
    apply lookup_ge_None in E. lia.
Qed.

Lemma getIntensityDiff_ignores_background_witness :
  getIntensityDiff [[1;2];[3;4]]%Q [[[0;1];[1;0]]%Q] 7 true
    = getIntensityDiff [[1;2];[3;4]]%Q [[[0;1];[1;0]]%Q] 0 false
  /\ exists Hdiff,
       getIntensityDiff [[1;2];[3;4]]%Q [[[0;1];[1;0]]%Q] 7 true = Ok Hdiff
       /\ last Hdiff = Some [0; 0]%Q.
Proof.
  destruct (getIntensityDiff_ignores_background [[1;2];[3;4]]%Q
              [[[0;1];[1;0]]%Q] 7 true)
    as [Heq Hret]; [discriminate|].
  split; [exact Heq|].
  destruct (Hret 2%nat 2%nat) as (Hdiff & Hrun & _ & Hlast).
  - split; [reflexivity|repeat constructor].
  - simpl. lia.
  - repeat constructor.
  - exists Hdiff. split; [exact Hrun|exact Hlast].
Defined.

(** C10 as stated fails on an intensity matrix without rows: [H[-1]] raises
    IndexError when [includeBkg] is set, and only then. *)
Lemma getIntensityDiff_empty_H_counterexample :
  getIntensityDiff [] [] 0 true <> getIntensityDiff [] [] 0 false.
Proof. vm_compute. discriminate. Qed.

(** * Further properties *)

(** ** The symmetry operator as a reflection *)

Lemma nth_zip_with_lt (f : Q -> Q -> Q) (a b : vec) (p : nat) :
  (p < length a)%nat -> (p < length b)%nat ->
  nth p (zip_with f a b) 0%Q = f (nth p a 0%Q) (nth p b 0%Q).
Proof.
  intros Ha Hb. rewrite !nth_lookup, lookup_zip_with.
  destruct (a !! p) as [x|] eqn:Ea; [|apply lookup_ge_None in Ea; lia].
  destruct (b !! p) as [y|] eqn:Eb; [|apply lookup_ge_None in Eb; lia].
  reflexivity.
Qed.

Section ReflectionMore.

Variable row : np.ndarray.
Variable shape : Z * Z.
Variables px py : Z.
Hypothesis Hpx : 0 <= px < snd shape.
Hypothesis Hpy : 0 <= py < fst shape.
Hypothesis Hsize :
  centered shape px py = true ->
  np.size row = Z.to_nat (snd shape * fst shape).

Let N : nat := Z.to_nat (snd shape * fst shape).
Let S : matrix := getPeakSymmetryOperator row shape px py.
Let D : matrix :=
  np.sub (np.add (np.eye (np.shape0 S)) (np.matmul S S)) (np.scale 2 S).

Lemma pixel_lt (x y : Z) :
  0 <= x < snd shape -> 0 <= y < fst shape ->
  (pixel (snd shape) x y < N)%nat.
Proof. intros Hx Hy. unfold pixel, N. nia. Qed.

Lemma mirror_of_mirror (x y : Z) :
  0 <= x < snd shape -> 0 <= y < fst shape ->
  mirror_on_grid shape px py x y = true ->
  mirror_on_grid shape px py (2 * px - x) (2 * py - y) = true.
Proof.
  intros Hx Hy Hm. unfold mirror_on_grid in *.
  replace (2 * px - (2 * px - x)) with x by ring.
  replace (2 * py - (2 * py - y)) with y by ring. lia.
Qed.

(** Twice the operator: the row itself where the mirror image is on the
    grid, 0 elsewhere. *)
Lemma operator_twice (v : vec) (x y : Z) :
  0 <= x < snd shape -> 0 <= y < fst shape ->
  (nth (pixel (snd shape) x y) (np.mulmv S (np.mulmv S v)) 0
     == if mirror_on_grid shape px py x y
        then nth (pixel (snd shape) x y) v 0 else 0)%Q.
Proof.
  intros Hx Hy. unfold S.
  rewrite (getPeakSymmetryOperator_reflects row shape px py Hpx Hpy Hsize
             _ x y Hx Hy).
  destruct (mirror_on_grid shape px py x y) eqn:Em; [|reflexivity].
  assert (Hx' : 0 <= 2 * px - x < snd shape)
    by (unfold mirror_on_grid in Em; lia).
  assert (Hy' : 0 <= 2 * py - y < fst shape)
    by (unfold mirror_on_grid in Em; lia).
  rewrite (getPeakSymmetryOperator_reflects row shape px py Hpx Hpy Hsize
             v _ _ Hx' Hy').
  rewrite (mirror_of_mirror x y Hx Hy Em).
  replace (2 * px - (2 * px - x)) with x by ring.
  replace (2 * py - (2 * py - y)) with y by ring. reflexivity.
Qed.

(** The difference operator, pixel by pixel: twice the difference between
    the pixel and its mirror image on the grid, the pixel itself where the
    image is off the grid. *)
Lemma diff_operator_action (v : vec) (x y : Z) :
  length v = N ->
  0 <= x < snd shape -> 0 <= y < fst shape ->
  (nth (pixel (snd shape) x y) (np.mulmv D v) 0
     == if mirror_on_grid shape px py x y
        then 2 * (nth (pixel (snd shape) x y) v 0
                  - nth (pixel (snd shape) (2 * px - x) (2 * py - y)) v 0)
        else nth (pixel (snd shape) x y) v 0)%Q.
Proof.
  intros Hlen Hx Hy.
  destruct (getPeakSymmetryOperator_shape row shape px py Hpx Hpy Hsize)
    as [HS Hrows].
  fold S N in HS, Hrows.
  pose proof (pixel_lt x y Hx Hy) as Hp.
  set (p := pixel (snd shape) x y) in *.
  assert (Hrect : Forall (fun r => length r = N) S).
  { apply Forall_rows. rewrite HS. exact Hrows. }
  assert (Hne : S <> []) by (intros E; rewrite E in HS; simpl in HS; lia).
  assert (HSS : has_shape (np.matmul S S) N N).
  { pose proof (has_shape_matmul S S) as Hm. rewrite HS in Hm.
    replace (np.shape1 S) with N in Hm; [exact Hm|].
    unfold np.shape1. symmetry. apply Hrows. lia. }
  assert (Hsub : veq (np.mulmv D v)
                   (zip_with Qminus
                      (zip_with Qplus (np.mulmv (np.eye N) v)
                                      (np.mulmv (np.matmul S S) v))
                      (np.mulmv (np.scale 2 S) v))).
  { unfold D, np.shape0. rewrite HS. etransitivity.
    { apply mulmv_sub. apply (same_shape _ _ N N).
      - apply has_shape_map2; [apply has_shape_eye|exact HSS].
      - apply has_shape_scale. split; assumption. }
    apply veq_zip_with.
    - intros a a' b b' Ha Hb. rewrite Ha, Hb. reflexivity.
    - apply mulmv_add. apply (same_shape _ _ N N);
        [apply has_shape_eye|exact HSS].
    - reflexivity. }
  rewrite (veq_nth _ _ p Hsub).
  assert (Hle : length (np.mulmv (np.eye N) v) = N).
  { rewrite length_mulmv. apply has_shape_eye. }
  assert (Hlm : length (np.mulmv (np.matmul S S) v) = N).
  { rewrite length_mulmv. apply HSS. }
  assert (Hls : length (np.mulmv (np.scale 2 S) v) = N).
  { rewrite length_mulmv. unfold np.scale. rewrite length_map. exact HS. }
  rewrite nth_zip_with_lt by (rewrite ?length_zip_with; lia).
  rewrite nth_zip_with_lt by lia.
  rewrite <- Hlen at 1. rewrite (veq_nth _ _ p (mulmv_eye v)).
  rewrite (veq_nth _ _ p (mulmv_matmul S S N v Hne Hrect)).
  rewrite (veq_nth _ _ p (mulmv_scale 2 S v)).
  change 0%Q with (2 * 0)%Q at 3. rewrite (map_nth (Qmult 2)).
  unfold p. rewrite (operator_twice v x y Hx Hy). unfold S.
  rewrite (getPeakSymmetryOperator_reflects row shape px py Hpx Hpy Hsize
             v x y Hx Hy).
  destruct (mirror_on_grid shape px py x y); ring.
Qed.

(** The difference operator annihilates exactly the rows that are
    point-symmetric and vanish where the mirror image is off the grid. *)
Lemma diff_operator_kernel (v : vec) :
  length v = N ->
  veq (np.mulmv D v) (np.zeros1 N)
  <-> point_symmetric shape px py v /\ vanishes_off_mirror shape px py v.
Proof.
  intros Hlen. split.
  - intros Hz.
    assert (Hp0 : forall x y,
               0 <= x < snd shape -> 0 <= y < fst shape ->
               (nth (pixel (snd shape) x y) (np.mulmv D v) 0 == 0)%Q).
    { intros x y Hx Hy. rewrite (veq_nth _ _ _ Hz). unfold np.zeros1.
      rewrite (nth_repeat_lt _ _ N _ (pixel_lt x y Hx Hy)). reflexivity. }
    split.
    + intros x y Hx Hy Hmx Hmy. specialize (Hp0 x y Hx Hy).
      rewrite (diff_operator_action v x y Hlen Hx Hy) in Hp0.
      replace (mirror_on_grid shape px py x y) with true in Hp0
        by (symmetry; unfold mirror_on_grid; lia).
      lra.
    + intros x y Hx Hy Hm. specialize (Hp0 x y Hx Hy).
      rewrite (diff_operator_action v x y Hlen Hx Hy) in Hp0.
      replace (mirror_on_grid shape px py x y) with false in Hp0
        by (symmetry; unfold mirror_on_grid; lia).
      exact Hp0.
  - intros [Hsym Hvan]. unfold D, S.
    apply (symmetric_annihilated row shape px py Hpx Hpy Hsize v Hlen
             Hsym Hvan).
Qed.

End ReflectionMore.

(** X1: the symmetry operator of a peak inside the grid reads every pixel of
    a row of intensities at its mirror image about the peak, and reads 0
    where that image is off the grid. *)
Theorem symmetry_operator_reflects (row : np.ndarray) (shape : Z * Z)
    (px py : Z) (v : vec) (x y : Z) :
  0 <= px < snd shape -> 0 <= py < fst shape ->
  (centered shape px py = true ->
   np.size row = Z.to_nat (snd shape * fst shape)) ->
  0 <= x < snd shape -> 0 <= y < fst shape ->
  (nth (pixel (snd shape) x y)
       (np.mulmv (getPeakSymmetryOperator row shape px py) v) 0
     == if mirror_on_grid shape px py x y
        then nth (pixel (snd shape) (2 * px - x) (2 * py - y)) v 0
        else 0)%Q.
Proof.
  intros Hpx Hpy Hsize Hx Hy.
  apply getPeakSymmetryOperator_reflects; assumption.
Qed.

Lemma symmetry_operator_reflects_witness :
  (nth (pixel 4 0 1)
       (np.mulmv (getPeakSymmetryOperator (np.Arr1 (np.zeros1 12))
                                          (3, 4)%Z 1 1)
                 [0; 1; 2; 3; 4; 5; 6; 7; 8; 9; 10; 11]) 0
     == 6)%Q.
Proof.
  apply (symmetry_operator_reflects (np.Arr1 (np.zeros1 12)) (3, 4) 1 1
           [0; 1; 2; 3; 4; 5; 6; 7; 8; 9; 10; 11]%Q 0 1);
    [simpl; lia|simpl; lia|intros Hc; vm_compute in Hc; discriminate Hc
    |simpl; lia|simpl; lia].
Defined.

(** X2: applied twice, the symmetry operator gives the row back on the
    pixels whose mirror image is on the grid and 0 elsewhere: it is an
    involution of the symmetric sub-rectangle. *)
Theorem symmetry_operator_twice (row : np.ndarray) (shape : Z * Z)
    (px py : Z) (v : vec) (x y : Z) :
  0 <= px < snd shape -> 0 <= py < fst shape ->
  (centered shape px py = true ->
   np.size row = Z.to_nat (snd shape * fst shape)) ->
  0 <= x < snd shape -> 0 <= y < fst shape ->
  let S := getPeakSymmetryOperator row shape px py in
  (nth (pixel (snd shape) x y) (np.mulmv S (np.mulmv S v)) 0
     == if mirror_on_grid shape px py x y
        then nth (pixel (snd shape) x y) v 0 else 0)%Q.
Proof.
  intros Hpx Hpy Hsize Hx Hy S. apply operator_twice; assumption.
Qed.

Lemma symmetry_operator_twice_witness :
  let S := getPeakSymmetryOperator (np.Arr1 (np.zeros1 12)) (3, 4) 1 1 in
  let v := [0; 1; 2; 3; 4; 5; 6; 7; 8; 9; 10; 11]%Q in
  (nth (pixel 4 0 1) (np.mulmv S (np.mulmv S v)) 0 == 4)%Q
  /\ (nth (pixel 4 3 1) (np.mulmv S (np.mulmv S v)) 0 == 0)%Q.
Proof.
  intros S v. split.
  - apply (symmetry_operator_twice (np.Arr1 (np.zeros1 12)) (3, 4) 1 1 v
             0 1);
      [simpl; lia|simpl; lia|intros Hc; vm_compute in Hc; discriminate Hc
      |simpl; lia|simpl; lia].
  - apply (symmetry_operator_twice (np.Arr1 (np.zeros1 12)) (3, 4) 1 1 v
             3 1);
      [simpl; lia|simpl; lia|intros Hc; vm_compute in Hc; discriminate Hc
      |simpl; lia|simpl; lia].
Defined.

(** X3: for a peak at the exact centre and a row with as many entries as
    the operator was built over, the symmetry operator reverses the row. *)
Theorem centered_operator_reverses (row : np.ndarray) (shape : Z * Z)
    (px py : Z) (v : vec) :
  centered shape px py = true ->
  np.size row = length v ->
  veq (np.mulmv (getPeakSymmetryOperator row shape px py) v) (rev v).
Proof.
  intros Hc Hsize.
  rewrite getPeakSymmetryOperator_center, Hsize, eye_diag_mask by exact Hc.
  set (n := length v).
  assert (HS : length (np.fliplr (diag_mask n (fun _ => false))) = n).
  { unfold np.fliplr. rewrite length_map. apply length_diag_mask. }
  apply veq_ext.
  - rewrite length_mulmv, length_rev. exact HS.
  - intros p Hp. rewrite length_mulmv, HS in Hp.
    rewrite nth_mulmv.
    assert (Hrow : nth p (np.fliplr (diag_mask n (fun _ => false))) []
                   = mask_row n (n - 1 - p) (negb true)).
    { apply row_of_entries.
      - unfold np.fliplr. change (@nil Q) with (rev (@nil Q)).
        rewrite map_nth, length_rev, nth_diag_mask by exact Hp.
        apply length_mask_row.
      - intros q Hq.
        change (nth q (nth p (np.fliplr (diag_mask n (fun _ => false))) [])
                    0%Q)
          with (np.get (np.fliplr (diag_mask n (fun _ => false))) p q).
        rewrite get_fliplr_diag_mask. bool_cases. }
    rewrite Hrow, dot_mask_row by (intros _; lia).
    cbn [negb]. rewrite rev_nth by exact Hp.
    replace (length v - S p)%nat with (n - 1 - p)%nat by (unfold n; lia).
    reflexivity.
Qed.

Lemma centered_operator_reverses_witness :
  veq (np.mulmv (getPeakSymmetryOperator (np.Arr1 [1; 2; 3]%Q) (1, 3) 1 0)
                [1; 2; 3]%Q)
      [3; 2; 1]%Q.
Proof.
  apply (centered_operator_reverses (np.Arr1 [1; 2; 3]%Q) (1, 3) 1 0
           [1; 2; 3]%Q); reflexivity.
Defined.

Lemma lookup_getSymmetryDiffOp (H : matrix) (fp : Footprint) (k : nat)
    (peak : Peak) :
  getPeaks fp !! k = Some peak ->
  let shape := (getHeight (getBBox fp), getWidth (getBBox fp)) in
  let S := getPeakSymmetryOperator (np.Arr2 (drop k H)) shape
             (getIx peak - getMinX (getBBox fp))
             (getIy peak - getMinY (getBBox fp)) in
  getSymmetryOperator H fp !! k = Some S
  /\ getSymmetryDiffOp H fp !! k
     = Some (np.sub (np.add (np.eye (np.shape0 S)) (np.matmul S S))
                    (np.scale 2 S)).
Proof.
  intros Hpeak shape S.
  assert (HS : getSymmetryOperator H fp !! k = Some S).
  { unfold getSymmetryOperator. rewrite list_lookup_imap, Hpeak.
    reflexivity. }
  split; [exact HS|].
  unfold getSymmetryDiffOp. rewrite list_lookup_fmap, HS. reflexivity.
Qed.

(** X4: for a peak inside the bounding box (a peak at the exact centre
    being handed a slice [H[k:]] of [P] entries, that is a single row), the
    difference operator of the source measures the asymmetry of a row of
    [P] pixels pixel by pixel: twice the difference between the pixel and
    its mirror image about the peak where that image is on the grid, and
    the pixel itself where it is not. *)
Theorem diffOp_measures_asymmetry (H : matrix) (fp : Footprint) (k : nat)
    (peak : Peak) (v : vec) (x y : Z) :
  getPeaks fp !! k = Some peak ->
  let bbox := getBBox fp in
  let shape := (getHeight bbox, getWidth bbox) in
  let px := getIx peak - getMinX bbox in
  let py := getIy peak - getMinY bbox in
  0 <= px < getWidth bbox -> 0 <= py < getHeight bbox ->
  (centered shape px py = true ->
   np.size (np.Arr2 (drop k H))
     = Z.to_nat (getWidth bbox * getHeight bbox)) ->
  length v = Z.to_nat (getWidth bbox * getHeight bbox) ->
  0 <= x < getWidth bbox -> 0 <= y < getHeight bbox ->
  exists Dk,
    getSymmetryDiffOp H fp !! k = Some Dk
    /\ (nth (pixel (getWidth bbox) x y) (np.mulmv Dk v) 0
          == if mirror_on_grid shape px py x y
             then 2 * (nth (pixel (getWidth bbox) x y) v 0
                       - nth (pixel (getWidth bbox) (2 * px - x)
                                    (2 * py - y)) v 0)
             else nth (pixel (getWidth bbox) x y) v 0)%Q.
Proof.
  intros Hpeak bbox shape px py Hpx Hpy Hsize Hlen Hx Hy.
  destruct (lookup_getSymmetryDiffOp H fp k peak Hpeak) as [_ HD].
  eexists. split; [exact HD|].
  apply (diff_operator_action _ shape px py Hpx Hpy Hsize v x y Hlen Hx Hy).
Qed.

Lemma diffOp_measures_asymmetry_witness :
  let fp := mkFootprint (mkBBox 0 0 4 1) [mkPeak 1 0] in
  exists Dk,
    getSymmetryDiffOp [[1; 1; 10; 7]%Q] fp !! 0%nat = Some Dk
    /\ (nth 0 (np.mulmv Dk [1; 1; 10; 7]) 0 == 2 * (1 - 10))%Q
    /\ (nth 3 (np.mulmv Dk [1; 1; 10; 7]) 0 == 7)%Q.
Proof.
  intros fp.
  destruct (diffOp_measures_asymmetry [[1; 1; 10; 7]%Q] fp 0 (mkPeak 1 0)
              [1; 1; 10; 7]%Q 0 0 eq_refl ltac:(simpl; lia)
              ltac:(simpl; lia)
              ltac:(intros Hc; vm_compute in Hc; discriminate Hc)
              eq_refl ltac:(simpl; lia) ltac:(simpl; lia))
    as (Dk & HD & H0).
  destruct (diffOp_measures_asymmetry [[1; 1; 10; 7]%Q] fp 0 (mkPeak 1 0)
              [1; 1; 10; 7]%Q 3 0 eq_refl ltac:(simpl; lia)
              ltac:(simpl; lia)
              ltac:(intros Hc; vm_compute in Hc; discriminate Hc)
              eq_refl ltac:(simpl; lia) ltac:(simpl; lia))
    as (Dk' & HD' & H3).
  exists Dk. split; [exact HD|].
  rewrite HD in HD'. injection HD' as <-.
  split; [exact H0|exact H3].
Defined.

(** X5: for a peak inside the bounding box (a peak at the exact centre
    being handed a slice [H[k:]] of [P] entries, that is a single row), the
    difference operator of the source annihilates a row of [P] pixels
    exactly when the row is point-symmetric about the peak and zero at
    every pixel whose mirror image is off the grid. *)
Theorem diffOp_zero_iff_symmetric (H : matrix) (fp : Footprint) (k : nat)
    (peak : Peak) (v : vec) :
  getPeaks fp !! k = Some peak ->
  let bbox := getBBox fp in
  let shape := (getHeight bbox, getWidth bbox) in
  let px := getIx peak - getMinX bbox in
  let py := getIy peak - getMinY bbox in
  0 <= px < getWidth bbox -> 0 <= py < getHeight bbox ->
  (centered shape px py = true ->
   np.size (np.Arr2 (drop k H))
     = Z.to_nat (getWidth bbox * getHeight bbox)) ->
  length v = Z.to_nat (getWidth bbox * getHeight bbox) ->
  exists Dk,
    getSymmetryDiffOp H fp !! k = Some Dk
    /\ (veq (np.mulmv Dk v) (np.zeros1 (length v))
        <-> point_symmetric shape px py v
            /\ vanishes_off_mirror shape px py v).
Proof.
  intros Hpeak bbox shape px py Hpx Hpy Hsize Hlen.
  destruct (lookup_getSymmetryDiffOp H fp k peak Hpeak) as [_ HD].
  eexists. split; [exact HD|]. rewrite Hlen.
  apply (diff_operator_kernel _ shape px py Hpx Hpy Hsize v Hlen).
Qed.

Lemma diffOp_zero_iff_symmetric_witness :
  let fp := mkFootprint (mkBBox 0 0 4 1) [mkPeak 1 0] in
  exists Dk,
    getSymmetryDiffOp [[1; 1; 10; 7]%Q] fp !! 0%nat = Some Dk
    /\ ~ (point_symmetric (1, 4) 1 0 [1; 1; 10; 7]%Q
          /\ vanishes_off_mirror (1, 4) 1 0 [1; 1; 10; 7]%Q).
Proof.
  intros fp.
  destruct (diffOp_zero_iff_symmetric [[1; 1; 10; 7]%Q] fp 0 (mkPeak 1 0)
              [1; 1; 10; 7]%Q eq_refl ltac:(simpl; lia) ltac:(simpl; lia)
              ltac:(intros Hc; vm_compute in Hc; discriminate Hc) eq_refl)
    as (Dk & HD & Hiff).
  exists Dk. split; [exact HD|].
  intros Hsym. apply Hiff in Hsym.
  apply (veq_nth _ _ 0) in Hsym. vm_compute in HD.
  injection HD as <-. vm_compute in Hsym. discriminate Hsym.
Defined.

Lemma get_mask_row_cases (n m : nat) (b : bool) (q : nat) :
  (nth q (mask_row n m b) 0%Q = 1%Q /\ q = m)
  \/ nth q (mask_row n m b) 0%Q = 0%Q.
Proof.
  destruct (Nat.lt_ge_cases q n) as [Hq|Hq].
  - rewrite nth_mask_row by exact Hq.
    destruct (Nat.eqb_spec m q) as [->|Hne]; destruct b; cbn; auto.
  - right. apply nth_default_ge. rewrite length_mask_row. exact Hq.
Qed.

(** X6: for a footprint whose peaks lie in its bounding box of [P] pixels
    (a peak at the exact centre being handed a slice of [P] entries), every
    symmetry operator is a [P x P] matrix of zeros and ones with at most
    one 1 in every row. *)
Theorem symmetry_operators_partial_permutation (H : matrix)
    (fp : Footprint) :
  let bbox := getBBox fp in
  let shape := (getHeight bbox, getWidth bbox) in
  let P := Z.to_nat (getWidth bbox * getHeight bbox) in
  peaks_in_bbox fp ->
  (forall k peak,
      getPeaks fp !! k = Some peak ->
      centered shape (getIx peak - getMinX bbox) (getIy peak - getMinY bbox)
        = true ->
      np.size (np.Arr2 (drop k H)) = P) ->
  Forall (fun Sk =>
            has_shape Sk P P
            /\ (forall p q, np.get Sk p q = 0%Q \/ np.get Sk p q = 1%Q)
            /\ (forall p q q',
                   np.get Sk p q = 1%Q -> np.get Sk p q' = 1%Q -> q = q'))
         (getSymmetryOperator H fp).
Proof.
  intros bbox shape P Hpeaks Hcenter.
  apply Forall_lookup. intros k Sk HSk.
  unfold getSymmetryOperator in HSk. rewrite list_lookup_imap in HSk.
  destruct (getPeaks fp !! k) as [peak|] eqn:Epk; [|discriminate].
  cbn [fmap option_fmap option_map] in HSk. injection HSk as <-.
  unfold peaks_in_bbox in Hpeaks. rewrite Forall_forall in Hpeaks.
  destruct (Hpeaks peak) as [Hpx Hpy].
  { apply list_elem_of_lookup. exists k. exact Epk. }
  fold bbox in Hpx, Hpy |- *. fold shape.
  set (px := getIx peak - getMinX bbox) in *.
  set (py := getIy peak - getMinY bbox) in *.
  specialize (Hcenter k peak Epk). fold px py in Hcenter.
  set (row := np.Arr2 (drop k H)) in *.
  destruct (getPeakSymmetryOperator_shape row shape px py Hpx Hpy Hcenter)
    as [HS Hrows].
  assert (Hent : forall p,
             (exists m b,
                 nth p (getPeakSymmetryOperator row shape px py) []
                 = mask_row P m b)
             \/ nth p (getPeakSymmetryOperator row shape px py) [] = []).
  { intros p. destruct (Nat.lt_ge_cases p P) as [Hp|Hp].
    - left.
      destruct (pixel_decompose (fst shape) (snd shape) p ltac:(simpl; lia)
                  Hp) as (x & y & Hx & Hy & ->).
      eexists. eexists.
      apply (getPeakSymmetryOperator_row row shape px py Hpx Hpy Hcenter
               x y Hx Hy).
    - right. apply nth_default_ge. rewrite HS. exact Hp. }
  split; [|split].
  - split; [exact HS|]. apply Forall_rows. rewrite HS. exact Hrows.
  - intros p q. unfold np.get.
    destruct (Hent p) as [(m & b & ->)| ->].
    + destruct (get_mask_row_cases P m b q) as [[H1 _]|H0]; auto.
    + left. destruct q; reflexivity.
  - intros p q q'. unfold np.get.
    destruct (Hent p) as [(m & b & ->)| ->].
    + intros Hq Hq'.
      destruct (get_mask_row_cases P m b q) as [[_ E]|H0];
        [|rewrite H0 in Hq; discriminate Hq].
      destruct (get_mask_row_cases P m b q') as [[_ E']|H0];
        [|rewrite H0 in Hq'; discriminate Hq'].
      congruence.
    + intros Hq. destruct q; discriminate Hq.
Qed.

Lemma symmetry_operators_partial_permutation_witness :
  let fp := mkFootprint (mkBBox 10 20 4 3) [mkPeak 12 21; mkPeak 10 20] in
  Forall (fun Sk => has_shape Sk 12 12)
         (getSymmetryOperator (np.zeros 3 12) fp).
Proof.
  intros fp.
  eapply Forall_impl.
  - apply (symmetry_operators_partial_permutation (np.zeros 3 12) fp).
    + repeat constructor; vm_compute; congruence.
    + intros k peak Hk Hc. destruct k as [|[|k]]; simpl in Hk.
      * injection Hk as <-. vm_compute in Hc. discriminate Hc.
      * injection Hk as <-. vm_compute in Hc. discriminate Hc.
      * discriminate Hk.
  - intros Sk [Hs _]. exact Hs.
Defined.

(** ** Entries of the element-wise operations *)

Lemma nth_zip_with_absorbing (f : Q -> Q -> Q) (a b : vec) (j : nat) :
  (forall y, (f 0 y == 0)%Q) -> (forall x, (f x 0 == 0)%Q) ->
  (nth j (zip_with f a b) 0 == f (nth j a 0) (nth j b 0))%Q.
Proof.
  intros Hl Hr. revert b j. induction a as [|x a IH]; intros b j.
  - simpl. destruct j; symmetry; apply Hl.
  - destruct b as [|y b].
    + simpl. destruct j; symmetry; apply Hr.
    + destruct j; simpl; [reflexivity|apply IH].
Qed.

Lemma get_map2_absorbing (f : Q -> Q -> Q) (A B : matrix) (i j : nat) :
  (forall y, (f 0 y == 0)%Q) -> (forall x, (f x 0 == 0)%Q) ->
  (np.get (np.map2 f A B) i j == f (np.get A i j) (np.get B i j))%Q.
Proof.
  intros Hl Hr. unfold np.get, np.map2. revert B i.
  induction A as [|a A IH]; intros B i.
  - simpl. destruct i, j; symmetry; apply Hl.
  - destruct B as [|b B].
    + simpl. destruct i, j; symmetry; apply Hr.
    + destruct i; simpl; [apply nth_zip_with_absorbing; assumption|].
      apply IH.
Qed.

Lemma get_mul (A B : matrix) (i j : nat) :
  (np.get (np.mul A B) i j == np.get A i j * np.get B i j)%Q.
Proof.
  apply get_map2_absorbing; intros; ring.
Qed.

Lemma get_div (A B : matrix) (i j : nat) :
  (np.get (np.div A B) i j == np.get A i j / np.get B i j)%Q.
Proof.
  apply get_map2_absorbing; intros; unfold Qdiv; [ring|].
  unfold Qinv. simpl. ring.
Qed.

Lemma get_div_rows (M : matrix) (v : vec) (i j : nat) :
  (np.get (np.div_rows M v) i j == np.get M i j / nth j v 0)%Q.
Proof.
  unfold np.get, np.div_rows.
  change (@nil Q) with (zip_with Qdiv (@nil Q) v) at 1.
  rewrite (map_nth (fun r => zip_with Qdiv r v)).
  apply nth_zip_with_div.
Qed.

(** ** The multiplicative update *)

(** What [multiplicativeUpdate] returns, when it returns. *)
Lemma multiplicativeUpdate_returns (A W H : matrix) (fp : Footprint)
    (offset : Q) (includeBkg : bool) (beta : Q)
    (diffOp : option (list matrix)) (W' H' : matrix) :
  multiplicativeUpdate A W H fp offset includeBkg beta diffOp = Ok (W', H') ->
  let W0 := multiplicativeUpdate_before_norm A W H in
  W' = np.div_rows W0 (np.zero_to_one (np.sum_axis0 (np.abs W0)))
  /\ exists denom,
      H' = np.div (np.mul H (np.matmul (np.transpose W') A)) denom.
Proof.
  intros Hrun W0. unfold multiplicativeUpdate in Hrun.
  fold (multiplicativeUpdate_before_norm A W H) in Hrun. fold W0 in Hrun.
  destruct diffOp as [d|]; cbn [mbind result_bind] in Hrun.
  - destruct (getIntensityDiff H d offset includeBkg) as [Hdiff|e];
      cbn [mbind result_bind] in Hrun; [|discriminate].
    injection Hrun as <- <-. split; [reflexivity|]. eexists. reflexivity.
  - injection Hrun as <- <-. split; [reflexivity|]. eexists. reflexivity.
Qed.

Lemma add_scalar_ge (M : matrix) (c : Q) :
  nonneg M -> Forall (Forall (fun d => (c <= d)%Q)) (np.add_scalar M c).
Proof.
  intros HM. unfold np.add_scalar. apply Forall_map.
  eapply Forall_impl; [exact HM|]. intros r Hr. simpl.
  apply Forall_map. eapply Forall_impl; [exact Hr|].
  intros x Hx. simpl in Hx |- *. lra.
Qed.

(** X7: for non-negative [A], [W] and [H] whose shapes fit, the
    multiplicative update divides by entries that are at least [eps], in
    the update of [W] and, without penalty, in the update of [H]; and it
    never revives an entry: where [W] is zero the returned [W] is zero,
    with or without penalty, and without penalty the same holds of [H]. *)
Theorem multiplicativeUpdate_keeps_zeros (A W H : matrix) (fp : Footprint)
    (offset : Q) (includeBkg : bool) (beta : Q)
    (diffOp : option (list matrix)) (W' H' : matrix) (B K P : nat) :
  has_shape A B P -> has_shape W B K -> has_shape H K P ->
  nonneg A -> nonneg W -> nonneg H ->
  multiplicativeUpdate A W H fp offset includeBkg beta diffOp = Ok (W', H') ->
  Forall (Forall (fun d => (eps <= d)%Q))
         (np.add_scalar (np.matmul (np.matmul W H) (np.transpose H)) eps)
  /\ (forall i j, (np.get W i j == 0)%Q -> (np.get W' i j == 0)%Q)
  /\ (diffOp = None ->
      Forall (Forall (fun d => (eps <= d)%Q))
             (np.add_scalar
                (np.matmul (np.matmul (np.transpose W') W') H) eps)
      /\ forall i j, (np.get H i j == 0)%Q -> (np.get H' i j == 0)%Q).
Proof.
  intros _ _ _ HA HW HH Hrun.
  destruct (multiplicativeUpdate_returns _ _ _ _ _ _ _ _ _ _ Hrun)
    as [HW' _].
  split; [|split].
  - apply add_scalar_ge, nonneg_matmul; [|apply nonneg_transpose, HH].
    apply nonneg_matmul; assumption.
  - intros i j Hz. rewrite HW', get_div_rows.
    unfold multiplicativeUpdate_before_norm.
    rewrite get_div, get_mul, Hz. unfold Qdiv. ring.
  - intros ->.
    destruct (multiplicativeUpdate_plain_nonneg A W H fp offset includeBkg
                beta HA HW HH) as (W1 & H1 & Hrun1 & HW1 & _).
    rewrite Hrun in Hrun1. injection Hrun1 as <- <-.
    split.
    + apply add_scalar_ge, nonneg_matmul; [|exact HH].
      apply nonneg_matmul; [apply nonneg_transpose, HW1|exact HW1].
    + intros i j Hz. unfold multiplicativeUpdate in Hrun.
      cbn [mbind result_bind] in Hrun. injection Hrun as _ <-.
      rewrite get_div, get_mul, Hz. unfold Qdiv. ring.
Qed.

Lemma multiplicativeUpdate_keeps_zeros_witness :
  let fp := mkFootprint (mkBBox 0 0 2 1) [mkPeak 0 0] in
  exists W' H',
    multiplicativeUpdate [[1; 2]; [3; 4]]%Q [[1; 0]; [1; 1]]%Q
                         [[1; 1]; [0; 2]]%Q fp 0 false 0 None
      = Ok (W', H')
    /\ (np.get W' 0 1 == 0)%Q /\ (np.get H' 1 0 == 0)%Q.
Proof.
  intros fp.
  destruct (multiplicativeUpdate_plain_nonneg [[1; 2]; [3; 4]]%Q
              [[1; 0]; [1; 1]]%Q [[1; 1]; [0; 2]]%Q fp 0%Q false 0%Q
              ltac:(apply nonneg_of_bool; reflexivity)
              ltac:(apply nonneg_of_bool; reflexivity)
              ltac:(apply nonneg_of_bool; reflexivity))
    as (W' & H' & Hrun & _).
  exists W', H'. split; [exact Hrun|].
  destruct (multiplicativeUpdate_keeps_zeros [[1; 2]; [3; 4]]%Q
              [[1; 0]; [1; 1]]%Q [[1; 1]; [0; 2]]%Q fp 0%Q false 0%Q None
              W' H' 2 2 2
              ltac:(split; [reflexivity|repeat constructor])
              ltac:(split; [reflexivity|repeat constructor])
              ltac:(split; [reflexivity|repeat constructor])
              ltac:(apply nonneg_of_bool; reflexivity)
              ltac:(apply nonneg_of_bool; reflexivity)
              ltac:(apply nonneg_of_bool; reflexivity) Hrun)
    as (_ & HWz & HHz).
  split; [apply HWz|apply (proj2 (HHz eq_refl))]; reflexivity.
Defined.

(** ** The rows of the symmetry penalty *)

(** X8: for an [H] of [K] rows of [P] pixels, [getIntensityDiff] goes
    through the operators in turn.  With at most [K] operators, each a
    [P x P] matrix, it returns an array of the shape of [H]: row [k] is
    [diffOp[k].dot(H[k])] for every operator and a row of zeros after the
    last one.  It raises IndexError when it comes to an operator beyond the
    rows of [H], and ValueError when it comes to an operator whose width is
    not [P], the operators before it being [P x P]. *)
Theorem getIntensityDiff_rows (H : matrix) (diffOp : list matrix)
    (offset : Q) (includeBkg : bool) (K P : nat) :
  has_shape H K P ->
  ((0 < K)%nat -> (length diffOp <= K)%nat ->
   Forall (fun D => has_shape D P P) diffOp ->
   exists Hdiff,
     getIntensityDiff H diffOp offset includeBkg = Ok Hdiff
     /\ has_shape Hdiff K P
     /\ forall k, (k < K)%nat ->
          nth k Hdiff []
          = if (k <? length diffOp)%nat
            then np.mulmv (nth k diffOp []) (nth k H [])
            else np.zeros1 P)
  /\ ((K < length diffOp)%nat ->
      Forall (fun D => has_shape D P P) (take K diffOp) ->
      getIntensityDiff H diffOp offset includeBkg = Raise IndexError)
  /\ (forall k0,
        (k0 < length diffOp)%nat -> (k0 < K)%nat ->
        Forall (fun D => has_shape D P P) (take k0 diffOp) ->
        np.shape1 (nth k0 diffOp []) <> P ->
        getIntensityDiff H diffOp offset includeBkg = Raise ValueError).
Proof.
  intros HH. split; [|split].
  - intros HK Hle Hfit. apply getIntensityDiff_ok; assumption.
  - intros Hlt Hfit.
    apply (getIntensityDiff_stops H diffOp offset includeBkg K P K);
      try assumption; [lia|]. left. split; reflexivity.
  - intros k0 Hk0 HkK Hfit Hmis.
    apply (getIntensityDiff_stops H diffOp offset includeBkg K P k0);
      try assumption; [lia|]. right. repeat split; assumption.
Qed.

Lemma getIntensityDiff_rows_witness :
  (exists Hdiff,
      getIntensityDiff [[1; 2]; [3; 4]]%Q [[[0; 1]; [1; 0]]%Q] 0 true
        = Ok Hdiff
      /\ has_shape Hdiff 2 2)
  /\ getIntensityDiff [[1; 2]]%Q [[[0; 1]; [1; 0]]%Q; [[1; 0]; [0; 1]]%Q]
                      0 true
     = Raise IndexError
  /\ getIntensityDiff [[1; 2]; [3; 4]]%Q
                      [[[0; 1]; [1; 0]]%Q; [[1; 0; 0]; [0; 1; 0]]%Q] 0 true
     = Raise ValueError.
Proof.
  split; [|split].
  - destruct (proj1 (getIntensityDiff_rows [[1; 2]; [3; 4]]%Q
                       [[[0; 1]; [1; 0]]%Q] 0%Q true 2 2
                       ltac:(split; [reflexivity|repeat constructor]))
                ltac:(lia) ltac:(simpl; lia)
                ltac:(repeat constructor))
      as (Hdiff & Hrun & Hs & _).
    exists Hdiff. split; [exact Hrun|exact Hs].
  - apply (proj1 (proj2 (getIntensityDiff_rows [[1; 2]]%Q
                    [[[0; 1]; [1; 0]]%Q; [[1; 0]; [0; 1]]%Q] 0%Q true 1 2
                    ltac:(split; [reflexivity|repeat constructor]))));
      [simpl; lia|].
    constructor; [split; [reflexivity|repeat constructor]|constructor].
  - apply (proj2 (proj2 (getIntensityDiff_rows [[1; 2]; [3; 4]]%Q
                    [[[0; 1]; [1; 0]]%Q; [[1; 0; 0]; [0; 1; 0]]%Q]
                    0%Q true 2 2
                    ltac:(split; [reflexivity|repeat constructor])))
             1%nat);
      [simpl; lia|lia| |unfold np.shape1; simpl; lia].
    constructor; [split; [reflexivity|repeat constructor]|constructor].
Defined.

(** ** Shapes under the update *)

Lemma multiplicativeUpdate_shapes (A W H : matrix) (fp : Footprint)
    (offset : Q) (includeBkg : bool) (beta : Q)
    (diffOp : option (list matrix)) (B K P : nat) :
  has_shape A B P -> has_shape W B K -> has_shape H K P ->
  (0 < B)%nat -> (0 < K)%nat -> (0 < P)%nat ->
  match diffOp with
  | Some d => (length d <= K)%nat /\ Forall (fun D => has_shape D P P) d
  | None => True
  end ->
  exists W' H',
    multiplicativeUpdate A W H fp offset includeBkg beta diffOp = Ok (W', H')
    /\ has_shape W' B K /\ has_shape H' K P.
Proof.
  intros HA HW HH HB HK HP Hd.
  assert (HHt : has_shape (np.transpose H) P K)
    by (apply has_shape_transpose; assumption).
  set (W0 := multiplicativeUpdate_before_norm A W H).
  assert (HW0 : has_shape W0 B K).
  { unfold W0, multiplicativeUpdate_before_norm, np.div, np.mul.
    apply has_shape_map2.
    - apply has_shape_map2; [exact HW|].
      apply (has_shape_matmul_gen _ _ B P K); [apply HA|exact HHt|exact HP].
    - apply has_shape_map.
      apply (has_shape_matmul_gen _ _ B P K); [|exact HHt|exact HP].
      unfold np.matmul. rewrite length_map. apply HW. }
  set (W' := np.div_rows W0 (np.zero_to_one (np.sum_axis0 (np.abs W0)))).
  assert (HW' : has_shape W' B K).
  { apply has_shape_div_rows; [exact HW0|].
    rewrite length_zero_to_one, length_sum_axis0, shape1_abs.
    apply (shape1_of_has_shape W0 B K HW0 HB). }
  assert (HWt : has_shape (np.transpose W') K B)
    by (apply has_shape_transpose; assumption).
  assert (Hnum : has_shape (np.matmul (np.transpose W') A) K P).
  { apply (has_shape_matmul_gen _ _ K B P); [apply HWt|exact HA|exact HB]. }
  assert (HWWH : has_shape
                   (np.matmul (np.matmul (np.transpose W') W') H) K P).
  { apply (has_shape_matmul_gen _ _ K K P); [|exact HH|exact HK].
    unfold np.matmul. rewrite length_map. apply HWt. }
  unfold multiplicativeUpdate.
  fold (multiplicativeUpdate_before_norm A W H). fold W0. fold W'.
  destruct diffOp as [d|]; cbn [mbind result_bind].
  - destruct Hd as [Hdl Hdr].
    destruct (getIntensityDiff_ok H d offset includeBkg K P HH HK Hdl Hdr)
      as (Hdiff & Hrun & HHd & _).
    rewrite Hrun. cbn [mbind result_bind].
    eexists. eexists. split; [reflexivity|]. split; [exact HW'|].
    unfold np.div, np.mul. apply has_shape_map2.
    + apply has_shape_map2; [exact HH|exact Hnum].
    + apply has_shape_map. apply has_shape_map2; [exact HWWH|].
      apply has_shape_scale. exact HHd.
  - eexists. eexists. split; [reflexivity|]. split; [exact HW'|].
    unfold np.div, np.mul. apply has_shape_map2.
    + apply has_shape_map2; [exact HH|exact Hnum].
    + apply has_shape_map. exact HWWH.
Qed.

(** X9: on a data matrix of [B] bands and [P] pixels and factors of [K]
    sources, the multiplicative update returns factors of the same shapes:
    without penalty, and with at most [K] difference operators, each a
    [P x P] matrix. *)
Theorem multiplicativeUpdate_keeps_shapes (A W H : matrix) (fp : Footprint)
    (offset : Q) (includeBkg : bool) (beta : Q)
    (diffOp : option (list matrix)) (B K P : nat) :
  has_shape A B P -> has_shape W B K -> has_shape H K P ->
  (0 < B)%nat -> (0 < K)%nat -> (0 < P)%nat ->
  match diffOp with
  | Some d => (length d <= K)%nat /\ Forall (fun D => has_shape D P P) d
  | None => True
  end ->
  exists W' H',
    multiplicativeUpdate A W H fp offset includeBkg beta diffOp = Ok (W', H')
    /\ has_shape W' B K /\ has_shape H' K P.
Proof. apply multiplicativeUpdate_shapes. Qed.

Lemma multiplicativeUpdate_keeps_shapes_witness :
  let fp := mkFootprint (mkBBox 0 0 2 1) [mkPeak 0 0] in
  exists W' H',
    multiplicativeUpdate [[1; 2]; [3; 4]]%Q [[1]; [1]]%Q [[1; 1]]%Q fp 0
                         false 1
                         (Some (getSymmetryDiffOp [[1; 1]]%Q fp))
      = Ok (W', H')
    /\ has_shape W' 2 1 /\ has_shape H' 1 2.
Proof.
  intros fp.
  apply (multiplicativeUpdate_keeps_shapes [[1; 2]; [3; 4]]%Q [[1]; [1]]%Q
           [[1; 1]]%Q fp 0%Q false 1%Q
           (Some (getSymmetryDiffOp [[1; 1]]%Q fp)) 2 1 2);
    try (split; [reflexivity|repeat constructor]); lia.
Defined.

(** ** Zero matrices and exact factorisations *)

Lemma dot_vzero_l (u v : vec) : vzero u -> (np.dot u v == 0)%Q.
Proof.
  intros Hu. revert v. induction Hu as [|x u Hx _ IH]; intros v.
  - reflexivity.
  - destruct v as [|y v]; [reflexivity|].
    cbn [np.dot]. rewrite Hx, IH. ring.
Qed.

Lemma dot_vzero_r (u v : vec) : vzero v -> (np.dot u v == 0)%Q.
Proof.
  intros Hv. revert u. induction Hv as [|y v Hy _ IH]; intros u.
  - rewrite dot_nil_r. reflexivity.
  - destruct u as [|x u]; [reflexivity|].
    cbn [np.dot]. rewrite Hy, IH. ring.
Qed.

Lemma sum_vzero (v : vec) : vzero v -> (np.sum v == 0)%Q.
Proof.
  induction 1 as [|x v Hx _ IH]; [reflexivity|].
  cbn [np.sum]. rewrite Hx, IH. ring.
Qed.

Lemma vzero_nth (v : vec) (j : nat) : vzero v -> (nth j v 0 == 0)%Q.
Proof.
  intros Hv. revert j. induction Hv as [|x v Hx _ IH]; intros [|j];
    try reflexivity; [exact Hx|apply IH].
Qed.

Lemma vzero_column (Z : matrix) (j : nat) :
  mzero Z -> vzero (map (fun row => nth j row 0%Q) Z).
Proof.
  intros HZ. apply Forall_map. eapply Forall_impl; [exact HZ|].
  intros row Hrow. simpl. apply vzero_nth. exact Hrow.
Qed.

Lemma mzero_matmul_r (X Z : matrix) : mzero Z -> mzero (np.matmul X Z).
Proof.
  intros HZ. unfold np.matmul. apply Forall_map, Forall_forall.
  intros r _. unfold np.transpose. rewrite map_map.
  apply Forall_map, Forall_forall. intros j _.
  apply dot_vzero_r, vzero_column, HZ.
Qed.

Lemma mzero_matmul_l (Z X : matrix) : mzero Z -> mzero (np.matmul Z X).
Proof.
  intros HZ. unfold np.matmul. apply Forall_map.
  eapply Forall_impl; [exact HZ|]. intros r Hr. simpl.
  apply Forall_map, Forall_forall. intros c _. apply dot_vzero_l, Hr.
Qed.

Lemma mzero_scale (c : Q) (Z : matrix) : mzero Z -> mzero (np.scale c Z).
Proof.
  intros HZ. unfold np.scale. apply Forall_map.
  eapply Forall_impl; [exact HZ|]. intros r Hr. simpl.
  apply Forall_map. eapply Forall_impl; [exact Hr|].
  intros x Hx. simpl in Hx |- *. rewrite Hx. ring.
Qed.

Lemma veq_sub_vzero (u z : vec) :
  length u = length z -> vzero z -> veq (zip_with Qminus u z) u.
Proof.
  intros Hl Hz. revert u Hl.
  induction Hz as [|y z Hy _ IH]; intros [|x u] Hl; try discriminate.
  - constructor.
  - cbn [zip_with]. constructor.
    + rewrite Hy. ring.
    + apply IH. simpl in Hl. lia.
Qed.

Lemma meq_sub_mzero (M Z : matrix) (r c : nat) :
  has_shape M r c -> has_shape Z r c -> mzero Z -> meq (np.sub M Z) M.
Proof.
  intros HM HZ Hz. pose proof (same_shape M Z r c HM HZ) as Hs.
  clear HM HZ. unfold np.sub, np.map2.
  induction Hs as [|a b M Z Hab _ IH]; [constructor|].
  inversion Hz; subst. cbn [zip_with]. constructor.
  - apply veq_sub_vzero; assumption.
  - apply IH. assumption.
Qed.

Lemma vzero_residual_row (a w : vec) :
  veq w a -> vzero (zip_with Qplus (map Qopp a) w).
Proof.
  induction 1 as [|x y w a Hxy _ IH]; [constructor|].
  cbn [map zip_with]. constructor; [|exact IH].
  simpl. rewrite Hxy. ring.
Qed.

Lemma mzero_residual (A WH : matrix) :
  meq WH A -> mzero (np.add (np_neg A) WH).
Proof.
  unfold np.add, np.map2, np_neg.
  induction 1 as [|w a WH A Hwa _ IH]; [constructor|].
  cbn [map zip_with]. constructor; [|exact IH].
  apply vzero_residual_row, Hwa.
Qed.

Lemma vzero_sub_row (a w : vec) :
  veq w a -> vzero (zip_with Qminus w a).
Proof.
  induction 1 as [|x y w a Hxy _ IH]; [constructor|].
  cbn [zip_with]. constructor; [|exact IH].
  simpl. rewrite Hxy. ring.
Qed.

Lemma mzero_sub (A WH : matrix) : meq WH A -> mzero (np.sub WH A).
Proof.
  unfold np.sub, np.map2.
  induction 1 as [|w a WH A Hwa _ IH]; [constructor|].
  cbn [zip_with]. constructor; [|exact IH].
  apply vzero_sub_row, Hwa.
Qed.

Lemma mzero_row (Z : matrix) (k : nat) : mzero Z -> vzero (nth k Z []).
Proof.
  intros HZ. revert k. induction HZ as [|r Z Hr _ IH]; intros [|k];
    try constructor; [exact Hr|apply IH].
Qed.

Lemma meq_has_shape (A B : matrix) (r c : nat) :
  meq A B -> has_shape A r c -> has_shape B r c.
Proof.
  intros HAB [Hl Hr]. split.
  - rewrite <- Hl. symmetry. apply (Forall2_length _ _ _ HAB).
  - clear Hl. induction HAB as [|a b A B Hab _ IH]; [constructor|].
    inversion Hr; subst. constructor; [|apply IH; assumption].
    symmetry. apply (Forall2_length _ _ _ Hab).
Qed.

(** X10: an exact factorisation [W.H = A] is a fixed point of the gradient
    step (without penalty), whatever the step sizes. *)
Theorem gradientDescent_fixed_point (A W H : matrix) (fp : Footprint)
    (offset : Q) (includeBkg : bool) (stepW stepH alpha beta : Q)
    (B K P : nat) :
  has_shape W B K -> has_shape H K P ->
  (0 < B)%nat -> (0 < K)%nat -> (0 < P)%nat ->
  meq (np.matmul W H) A ->
  exists W' H',
    gradientDescent A W H fp offset includeBkg stepW stepH alpha beta None
      = Ok (W', H')
    /\ meq W' W /\ meq H' H.
Proof.
  intros HW HH HB HK HP Hfit.
  unfold gradientDescent. cbn [mbind result_bind].
  set (Z := np.add (np_neg A) (np.matmul W H)).
  assert (HWH : has_shape (np.matmul W H) B P)
    by (apply (has_shape_matmul_gen _ _ B K P); [apply HW|exact HH|exact HK]).
  assert (HAs : has_shape A B P) by (apply (meq_has_shape _ _ _ _ Hfit HWH)).
  assert (HZs : has_shape Z B P).
  { unfold Z, np.add. apply has_shape_map2; [|exact HWH].
    unfold np_neg. apply has_shape_map. exact HAs. }
  assert (HZ : mzero Z) by (apply mzero_residual, Hfit).
  set (H' := np.sub H (np.scale stepH (np.matmul (np.transpose W) Z))).
  assert (HH' : meq H' H).
  { apply (meq_sub_mzero _ _ K P); [exact HH| |].
    - apply has_shape_scale.
      apply (has_shape_matmul_gen _ _ K B P); [|exact HZs|exact HB].
      apply (has_shape_transpose W B K HW HB).
    - apply mzero_scale, mzero_matmul_r, HZ. }
  assert (HHs : has_shape H' K P).
  { apply has_shape_map2; [exact HH|]. apply has_shape_scale.
    apply (has_shape_matmul_gen _ _ K B P); [|exact HZs|exact HB].
    apply (has_shape_transpose W B K HW HB). }
  eexists. eexists. split; [reflexivity|]. split; [|exact HH'].
  apply (meq_sub_mzero _ _ B K); [exact HW| |].
  - apply has_shape_scale.
    apply (has_shape_matmul_gen _ _ B P K); [apply HZs| |exact HP].
    apply (has_shape_transpose H' K P HHs HK).
  - apply mzero_scale, mzero_matmul_l, HZ.
Qed.

Lemma gradientDescent_fixed_point_witness :
  exists W' H',
    gradientDescent [[2; 4]; [6; 12]]%Q [[1]; [3]]%Q [[2; 4]]%Q
                    (mkFootprint (mkBBox 0 0 2 1) []) 0 false
                    (1 # 1000) (1 # 1000) 0 0 None
      = Ok (W', H')
    /\ meq W' [[1]; [3]]%Q /\ meq H' [[2; 4]]%Q.
Proof.
  apply (gradientDescent_fixed_point [[2; 4]; [6; 12]]%Q [[1]; [3]]%Q
           [[2; 4]]%Q (mkFootprint (mkBBox 0 0 2 1) []) 0%Q false
           (1 # 1000)%Q (1 # 1000)%Q 0%Q 0%Q 2 1 2);
    try (split; [reflexivity|repeat constructor]); try lia.
  repeat constructor.
Defined.

(** X11: at an exact factorisation [W.H = A] the residual difference logged
    for a band is 0, whenever the band's data do not sum to 0. *)
Theorem residualDifference_exact_fit (W H A : matrix) (fidx : nat) :
  meq (np.matmul W H) A ->
  ~ (np.sum (nth fidx A []) == 0)%Q ->
  (residualDifference W H A fidx == 0)%Q.
Proof.
  intros Hfit Hsum. unfold residualDifference.
  pose proof (sum_vzero _ (mzero_row _ fidx (mzero_sub A _ Hfit))) as Hz.
  rewrite Hz. unfold Qdiv. rewrite Qmult_0_l. reflexivity.
Qed.

Lemma residualDifference_exact_fit_witness :
  (residualDifference [[1]; [3]] [[2; 4]] [[2; 4]; [6; 12]] 1 == 0)%Q.
Proof.
  apply (residualDifference_exact_fit [[1]; [3]] [[2; 4]]
           [[2; 4]; [6; 12]] 1)%Q.
  - repeat constructor.
  - intros Hc. vm_compute in Hc. discriminate Hc.
Defined.

(** ** Slices, crops and the row-major layout *)

Lemma py_bound_inside (n : nat) (i : Z) :
  0 <= i <= Z.of_nat n -> py_bound n i = Z.to_nat i.
Proof.
  intros Hi. unfold py_bound.
  destruct (Z.ltb_spec i 0); [lia|]. f_equal. lia.
Qed.

Lemma py_slice_inside {A : Type} (l : list A) (lo hi : Z) :
  0 <= lo -> lo <= hi -> hi <= Z.of_nat (length l) ->
  py_slice l lo hi = take (Z.to_nat (hi - lo)) (drop (Z.to_nat lo) l).
Proof.
  intros H0 H1 H2. unfold py_slice.
  rewrite !py_bound_inside by lia. f_equal. lia.
Qed.

Lemma length_py_slice_inside {A : Type} (l : list A) (lo hi : Z) :
  0 <= lo -> lo <= hi -> hi <= Z.of_nat (length l) ->
  length (py_slice l lo hi) = Z.to_nat (hi - lo).
Proof.
  intros H0 H1 H2. rewrite py_slice_inside by lia.
  rewrite length_take, length_drop. lia.
Qed.

Lemma lookup_py_slice_inside {A : Type} (l : list A) (lo hi : Z) (k : nat) :
  0 <= lo -> lo <= hi -> hi <= Z.of_nat (length l) ->
  (k < Z.to_nat (hi - lo))%nat ->
  py_slice l lo hi !! k = l !! (Z.to_nat lo + k)%nat.
Proof.
  intros H0 H1 H2 Hk. rewrite py_slice_inside by lia.
  rewrite lookup_take_lt by exact Hk. apply lookup_drop.
Qed.

Lemma length_np_crop {A : Type} (img : list (list A))
    (ymin ymax xmin xmax : Z) :
  0 <= ymin -> ymin <= ymax -> ymax <= Z.of_nat (length img) ->
  length (np_crop img ymin ymax xmin xmax) = Z.to_nat (ymax - ymin).
Proof.
  intros H0 H1 H2. unfold np_crop. rewrite length_map.
  apply length_py_slice_inside; lia.
Qed.

Lemma np_crop_row_lengths {A : Type} (img : list (list A)) (cols : nat)
    (ymin ymax xmin xmax : Z) :
  Forall (fun r => length r = cols) img ->
  0 <= xmin -> xmin <= xmax -> xmax <= Z.of_nat cols ->
  Forall (fun r => length r = Z.to_nat (xmax - xmin))
         (np_crop img ymin ymax xmin xmax).
Proof.
  intros Hcols H0 H1 H2.
  unfold np_crop. apply Forall_map, Forall_forall. intros r Hr. simpl.
  assert (Hlen : length r = cols).
  { unfold py_slice in Hr.
    apply elem_of_take in Hr. destruct Hr as (i & Hi & _).
    rewrite lookup_drop in Hi. rewrite Forall_lookup in Hcols.
    apply (Hcols _ _ Hi). }
  apply length_py_slice_inside; lia.
Qed.

Lemma lookup_np_crop {A : Type} (img : list (list A)) (cols : nat)
    (ymin ymax xmin xmax : Z) (y x : nat) :
  Forall (fun r => length r = cols) img ->
  0 <= ymin -> ymin <= ymax -> ymax <= Z.of_nat (length img) ->
  0 <= xmin -> xmin <= xmax -> xmax <= Z.of_nat cols ->
  (y < Z.to_nat (ymax - ymin))%nat -> (x < Z.to_nat (xmax - xmin))%nat ->
  np_crop img ymin ymax xmin xmax !! y ≫= (fun r => r !! x)
  = img !! (Z.to_nat ymin + y)%nat
      ≫= (fun r => r !! (Z.to_nat xmin + x)%nat).
Proof.
  intros Hcols Hy0 Hy1 Hy2 Hx0 Hx1 Hx2 Hyy Hxx.
  unfold np_crop. rewrite list_lookup_fmap.
  rewrite lookup_py_slice_inside by lia.
  destruct (img !! (Z.to_nat ymin + y)%nat) as [r|] eqn:E;
    [|reflexivity].
  cbn [fmap option_fmap option_map mbind option_bind].
  rewrite Forall_lookup in Hcols. pose proof (Hcols _ _ E) as Hr.
  simpl in Hr. apply lookup_py_slice_inside; lia.
Qed.

Lemma length_concat_uniform {A : Type} (M : list (list A)) (w : nat) :
  Forall (fun r => length r = w) M ->
  length (concat M) = (length M * w)%nat.
Proof.
  induction 1 as [|r M Hr _ IH]; [reflexivity|].
  cbn [concat length]. rewrite length_app, IH, Hr. lia.
Qed.

Lemma lookup_concat_uniform {A : Type} (M : list (list A)) (w y x : nat) :
  Forall (fun r => length r = w) M -> (x < w)%nat ->
  concat M !! (y * w + x)%nat = M !! y ≫= (fun r => r !! x).
Proof.
  intros HM Hx. revert y. induction HM as [|r M Hr _ IH]; intros y.
  - destruct y; reflexivity.
  - cbn [concat]. destruct y as [|y].
    + cbn [lookup list_lookup mbind option_bind Nat.mul plus].
      apply lookup_app_l. lia.
    + replace (S y * w + x)%nat with (length r + (y * w + x))%nat by lia.
      rewrite lookup_app_r by lia.
      replace (length r + (y * w + x) - length r)%nat
        with (y * w + x)%nat by lia.
      apply IH.
Qed.

Lemma pixel_row_major (w x y : Z) :
  0 <= x < w -> 0 <= y ->
  pixel w x y = (Z.to_nat y * Z.to_nat w + Z.to_nat x)%nat.
Proof. intros Hx Hy. unfold pixel. nia. Qed.

Lemma get_lookup (M : matrix) (i j : nat) :
  np.get M i j = default 0%Q (M !! i ≫= (fun r => r !! j)).
Proof.
  unfold np.get. rewrite !nth_lookup.
  destruct (M !! i) as [r|]; [reflexivity|]. destruct j; reflexivity.
Qed.

(** X14: for a box inside the reference box of an image, [extractImage]
    returns the pixels of the box: an array of the box's height and width
    whose entry [(y, x)] is the image's entry at the box's offset plus
    [(y, x)]. *)
Theorem extractImage_inside (refBbox : BBox) (arr : matrix) (bbox : BBox) :
  has_shape arr (Z.to_nat (getHeight refBbox))
                (Z.to_nat (getWidth refBbox)) ->
  0 <= getWidth bbox -> 0 <= getHeight bbox ->
  getMinX refBbox <= getMinX bbox ->
  getMinX bbox + getWidth bbox <= getMinX refBbox + getWidth refBbox ->
  getMinY refBbox <= getMinY bbox ->
  getMinY bbox + getHeight bbox <= getMinY refBbox + getHeight refBbox ->
  has_shape (extractImage refBbox arr bbox)
            (Z.to_nat (getHeight bbox)) (Z.to_nat (getWidth bbox))
  /\ forall x y,
       0 <= x < getWidth bbox -> 0 <= y < getHeight bbox ->
       np.get (extractImage refBbox arr bbox) (Z.to_nat y) (Z.to_nat x)
       = np.get arr (Z.to_nat (getMinY bbox - getMinY refBbox + y))
                    (Z.to_nat (getMinX bbox - getMinX refBbox + x)).
Proof.
  intros [Hr Hc] Hw Hh Hx0 Hx1 Hy0 Hy1.
  unfold extractImage, getRelativeSlices. cbn [fst snd].
  set (xmin := getMinX bbox - getMinX refBbox).
  set (ymin := getMinY bbox - getMinY refBbox).
  assert (Hy : 0 <= ymin /\ ymin + getHeight bbox <= Z.of_nat (length arr))
    by (unfold ymin; lia).
  assert (Hx : 0 <= xmin /\ xmin + getWidth bbox
                           <= Z.of_nat (Z.to_nat (getWidth refBbox)))
    by (unfold xmin; lia).
  split; [split|].
  - rewrite length_np_crop by lia. f_equal. lia.
  - assert (Hl := np_crop_row_lengths arr _ ymin (ymin + getHeight bbox)
                    xmin (xmin + getWidth bbox) Hc).
    eapply Forall_impl; [apply Hl; lia|].
    intros r Hlen. simpl in Hlen |- *. rewrite Hlen. f_equal. lia.
  - intros x y Hxx Hyy. rewrite !get_lookup.
    rewrite (lookup_np_crop arr _ _ _ _ _ _ _ Hc) by lia.
    replace (Z.to_nat ymin + Z.to_nat y)%nat with (Z.to_nat (ymin + y))
      by lia.
    replace (Z.to_nat xmin + Z.to_nat x)%nat with (Z.to_nat (xmin + x))
      by lia.
    reflexivity.
Qed.

Lemma extractImage_inside_witness :
  has_shape (extractImage (mkBBox 10 20 3 2)
                          [[1; 2; 3]; [4; 5; 6]]%Q (mkBBox 11 21 2 1))
            1 2
  /\ np.get (extractImage (mkBBox 10 20 3 2)
                          [[1; 2; 3]; [4; 5; 6]]%Q (mkBBox 11 21 2 1)) 0 1
     = 6%Q.
Proof.
  destruct (extractImage_inside (mkBBox 10 20 3 2)
              [[1; 2; 3]; [4; 5; 6]]%Q (mkBBox 11 21 2 1))
    as [Hs Hg]; try (simpl; lia).
  - split; [reflexivity|repeat constructor].
  - split; [exact Hs|].
    apply (Hg 1 0); simpl; lia.
Defined.

(** ** The data matrix *)

Section DataMatrix.

Variable footprint : Footprint.
Variable first : Exposure.
Variables rows cols : nat.

Let bbox : BBox := getBBox footprint.
Let xmin : Z := getMinX bbox - getX0 first.
Let ymin : Z := getMinY bbox - getY0 first.
Let w : Z := getWidth bbox.
Let h : Z := getHeight bbox.

Hypothesis Hw : 0 <= w.
Hypothesis Hh : 0 <= h.
Hypothesis Hx : 0 <= xmin /\ xmin + w <= Z.of_nat cols.
Hypothesis Hy : 0 <= ymin /\ ymin + h <= Z.of_nat rows.

Let fits (c : Exposure) : Prop :=
  has_shape (getImageArray c) rows cols
  /\ length (getMaskArray c) = rows
  /\ Forall (fun r => length r = cols) (getMaskArray c).

Let body : matrix * list (list Z) -> Exposure ->
           result (matrix * list (list Z)) :=
  fun '(data, mask) calexp =>
    d ← assign_row
          (np_flatten (np_crop (getImageArray calexp)
                               ymin (ymin + h) xmin (xmin + w)))
          (Z.to_nat ((ymin + h - ymin) * (xmin + w - xmin)));
    m ← assign_row
          (np_flatten (np_crop (getMaskArray calexp)
                               ymin (ymin + h) xmin (xmin + w)))
          (Z.to_nat ((ymin + h - ymin) * (xmin + w - xmin)));
    Ok (data ++ [d], mask ++ [m]).

Lemma crop_fills_row {A : Type} (img : list (list A)) :
  length img = rows -> Forall (fun r => length r = cols) img ->
  assign_row (np_flatten (np_crop img ymin (ymin + h) xmin (xmin + w)))
             (Z.to_nat ((ymin + h - ymin) * (xmin + w - xmin)))
  = Ok (np_flatten (np_crop img ymin (ymin + h) xmin (xmin + w))).
Proof.
  intros Hr Hc. unfold assign_row, np_flatten.
  rewrite (length_concat_uniform _ (Z.to_nat (xmin + w - xmin))).
  - rewrite length_np_crop by lia.
    replace (Z.to_nat (ymin + h - ymin) * Z.to_nat (xmin + w - xmin))%nat
      with (Z.to_nat ((ymin + h - ymin) * (xmin + w - xmin))) by nia.
    rewrite Nat.eqb_refl. reflexivity.
  - apply (np_crop_row_lengths img cols); assumption || lia.
Qed.

Lemma data_loop (calexps : list Exposure) (data : matrix)
    (mask : list (list Z)) :
  Forall fits calexps ->
  foldM body calexps (data, mask)
  = Ok (data ++ map (fun c => np_flatten
                       (np_crop (getImageArray c)
                                ymin (ymin + h) xmin (xmin + w))) calexps,
        mask ++ map (fun c => np_flatten
                       (np_crop (getMaskArray c)
                                ymin (ymin + h) xmin (xmin + w))) calexps).
Proof.
  intros Hfit. revert data mask.
  induction Hfit as [|c calexps [[Hr Hc] [Hmr Hmc]] _ IH]; intros data mask.
  - cbn [foldM map]. rewrite !app_nil_r. reflexivity.
  - cbn [foldM map]. unfold body in IH |- *. cbv beta iota.
    rewrite (crop_fills_row _ Hr Hc), (crop_fills_row _ Hmr Hmc).
    cbn [mbind result_bind]. rewrite IH.
    rewrite <- !app_assoc. reflexivity.
Qed.

Lemma flat_crop_pixel {A : Type} (img : list (list A)) (x y : Z) :
  length img = rows -> Forall (fun r => length r = cols) img ->
  0 <= x < w -> 0 <= y < h ->
  np_flatten (np_crop img ymin (ymin + h) xmin (xmin + w)) !! pixel w x y
  = img !! Z.to_nat (ymin + y) ≫= (fun r => r !! Z.to_nat (xmin + x)).
Proof.
  intros Hr Hc Hxx Hyy. unfold np_flatten.
  rewrite pixel_row_major by lia.
  replace (Z.to_nat w) with (Z.to_nat (xmin + w - xmin)) by (f_equal; lia).
  rewrite lookup_concat_uniform;
    [|apply (np_crop_row_lengths img cols); assumption || lia|lia].
  rewrite (lookup_np_crop img cols) by (assumption || lia).
  replace (Z.to_nat ymin + Z.to_nat y)%nat with (Z.to_nat (ymin + y))
    by lia.
  replace (Z.to_nat xmin + Z.to_nat x)%nat with (Z.to_nat (xmin + x))
    by lia.
  reflexivity.
Qed.

Lemma buildNmfData_layout (calexps : list Exposure) :
  head calexps = Some first -> Forall fits calexps ->
  exists data mask,
    buildNmfData calexps footprint = Ok (data, mask)
    /\ has_shape data (length calexps) (Z.to_nat (h * w))
    /\ length mask = length calexps
    /\ forall n c x y,
         calexps !! n = Some c -> 0 <= x < w -> 0 <= y < h ->
         nth (pixel w x y) (nth n data []) 0%Q
         = np.get (getImageArray c) (Z.to_nat (ymin + y))
                  (Z.to_nat (xmin + x))
         /\ nth (pixel w x y) (nth n mask []) 0
            = nth (Z.to_nat (xmin + x))
                  (nth (Z.to_nat (ymin + y)) (getMaskArray c) []) 0.
Proof.
  intros Hhd Hfit. unfold buildNmfData.
  assert (Hget : py_getitem calexps 0 = Ok first).
  { destruct calexps as [|c l]; [discriminate|].
    injection Hhd as ->. reflexivity. }
  rewrite Hget. cbn [mbind result_bind].
  fold bbox. fold xmin. fold ymin. fold w. fold h.
  destruct (Z.ltb_spec ((ymin + h - ymin) * (xmin + w - xmin)) 0) as [Hn|_];
    [nia|].
  fold body. rewrite (data_loop calexps [] [] Hfit). cbn [app].
  eexists. eexists. split; [reflexivity|]. split; [split|split].
  - apply length_map.
  - apply Forall_map. eapply Forall_impl; [exact Hfit|].
    intros c [[Hr Hc] _]. simpl. unfold np_flatten.
    rewrite (length_concat_uniform _ (Z.to_nat (xmin + w - xmin)));
      [|apply (np_crop_row_lengths _ cols); assumption || lia].
    rewrite length_np_crop by lia. nia.
  - apply length_map.
  - intros n c x y Hn Hxx Hyy.
    rewrite Forall_lookup in Hfit.
    destruct (Hfit n c Hn) as [[Hr Hc] [Hmr Hmc]].
    split.
    + rewrite (nth_lookup (map _ calexps)), list_lookup_fmap, Hn.
      cbn [fmap option_fmap option_map default]. unfold id.
      rewrite nth_lookup, (flat_crop_pixel _ x y Hr Hc Hxx Hyy).
      symmetry. apply get_lookup.
    + rewrite (nth_lookup (map _ calexps)), list_lookup_fmap, Hn.
      cbn [fmap option_fmap option_map default]. unfold id.
      rewrite nth_lookup, (flat_crop_pixel _ x y Hmr Hmc Hxx Hyy).
      rewrite !nth_lookup.
      destruct (getMaskArray c !! Z.to_nat (ymin + y)) as [r|];
        [reflexivity|].
      destruct (Z.to_nat (xmin + x)); reflexivity.
Qed.

End DataMatrix.

(** X15: when the footprint's box lies inside the image and mask arrays of
    every exposure (all of one shape), [buildNmfData] returns one row for
    every exposure, of as many entries as the box has pixels, in row-major
    order: entry [pixel w x y] of row [n] is the pixel of exposure [n] at
    the box's offset plus [(y, x)].  This is the pixel numbering of the
    symmetry operators. *)
Theorem buildNmfData_pixels (calexps : list Exposure) (fp : Footprint)
    (first : Exposure) (rows cols : nat) :
  let bbox := getBBox fp in
  let xmin := getMinX bbox - getX0 first in
  let ymin := getMinY bbox - getY0 first in
  let w := getWidth bbox in
  let h := getHeight bbox in
  head calexps = Some first ->
  Forall (fun c => has_shape (getImageArray c) rows cols
                   /\ length (getMaskArray c) = rows
                   /\ Forall (fun r => length r = cols) (getMaskArray c))
         calexps ->
  0 <= w -> 0 <= h ->
  0 <= xmin /\ xmin + w <= Z.of_nat cols ->
  0 <= ymin /\ ymin + h <= Z.of_nat rows ->
  exists data mask,
    buildNmfData calexps fp = Ok (data, mask)
    /\ has_shape data (length calexps) (Z.to_nat (h * w))
    /\ length mask = length calexps
    /\ forall n c x y,
         calexps !! n = Some c -> 0 <= x < w -> 0 <= y < h ->
         nth (pixel w x y) (nth n data []) 0%Q
         = np.get (getImageArray c) (Z.to_nat (ymin + y))
                  (Z.to_nat (xmin + x))
         /\ nth (pixel w x y) (nth n mask []) 0
            = nth (Z.to_nat (xmin + x))
                  (nth (Z.to_nat (ymin + y)) (getMaskArray c) []) 0.
Proof.
  intros bbox xmin ymin w h Hhd Hfit Hw Hh Hx Hy.
  apply (buildNmfData_layout fp first rows cols Hw Hh Hx Hy calexps Hhd Hfit).
Qed.

Lemma buildNmfData_pixels_witness :
  let g := mkExposure 10 20 [[1; 2; 3]; [4; 5; 6]]%Q [[0; 0; 1]; [0; 2; 0]] in
  let r := mkExposure 10 20 [[7; 8; 9]; [1; 1; 1]]%Q [[0; 0; 0]; [0; 0; 4]] in
  exists data mask,
    buildNmfData [g; r] (mkFootprint (mkBBox 11 20 2 2) []) = Ok (data, mask)
    /\ has_shape data 2 4
    /\ nth (pixel 2 1 1) (nth 1 data []) 0%Q = 1%Q
    /\ nth (pixel 2 1 1) (nth 1 mask []) 0 = 4.
Proof.
  intros g r.
  destruct (buildNmfData_pixels [g; r] (mkFootprint (mkBBox 11 20 2 2) [])
              g 2 3)
    as (data & mask & Hrun & Hs & _ & Hpx);
    [reflexivity| |simpl; lia|simpl; lia|simpl; lia|simpl; lia|].
  - repeat constructor.
  - exists data, mask. split; [exact Hrun|]. split; [exact Hs|].
    apply (Hpx 1%nat r 1 1); [reflexivity|simpl; lia|simpl; lia].
Defined.

(** ** Cut-outs that do not fit *)

Lemma assign_row_misfit {A : Type} (src : list A) (n : nat) :
  length src <> n -> length src <> 1%nat ->
  assign_row src n = Raise ValueError.
Proof.
  intros Hn H1. unfold assign_row.
  destruct (Nat.eqb_spec (length src) n) as [E|_]; [contradiction|].
  destruct src as [|x [|y src]]; try reflexivity.
  simpl in H1. contradiction.
Qed.

Lemma buildNmfData_loop_rejects (ymin ymax xmin xmax : Z) (n : nat)
    (calexps : list Exposure) (acc : matrix * list (list Z)) :
  Exists (fun c =>
            let k := length (np_flatten (np_crop (getImageArray c)
                                                 ymin ymax xmin xmax)) in
            k <> n /\ k <> 1%nat) calexps ->
  foldM (fun '(data, mask) calexp =>
           d ← assign_row
                 (np_flatten (np_crop (getImageArray calexp)
                                      ymin ymax xmin xmax)) n;
           m ← assign_row
                 (np_flatten (np_crop (getMaskArray calexp)
                                      ymin ymax xmin xmax)) n;
           Ok (data ++ [d], mask ++ [m]))
        calexps acc
  = Raise ValueError.
Proof.
  intros Hex. revert acc.
  induction Hex as [c l [Hn H1]|c l _ IH]; intros [data mask].
  - cbn [foldM]. rewrite (assign_row_misfit _ _ Hn H1). reflexivity.
  - cbn [foldM].
    destruct (assign_row (np_flatten (np_crop (getImageArray c) ymin ymax
                                              xmin xmax)) n)
      as [d|e] eqn:Ed; cbn [mbind result_bind];
      [|rewrite (assign_row_raises _ _ _ Ed); reflexivity].
    destruct (assign_row (np_flatten (np_crop (getMaskArray c) ymin ymax
                                              xmin xmax)) n)
      as [m|e] eqn:Em; cbn [mbind result_bind];
      [|rewrite (assign_row_raises _ _ _ Em); reflexivity].
    apply IH.
Qed.

(** X16: [buildNmfData] raises ValueError as soon as the cut-out of one
    exposure's image has neither the number of pixels of the footprint's
    box nor a single pixel: a box that leaves the image is not padded. *)
Theorem buildNmfData_rejects_misfit (calexps : list Exposure)
    (fp : Footprint) (first : Exposure) :
  let bbox := getBBox fp in
  let xmin := getMinX bbox - getX0 first in
  let ymin := getMinY bbox - getY0 first in
  let xmax := xmin + getWidth bbox in
  let ymax := ymin + getHeight bbox in
  let pixelCount := (ymax - ymin) * (xmax - xmin) in
  head calexps = Some first ->
  Exists (fun c =>
            let k := length (np_flatten (np_crop (getImageArray c)
                                                 ymin ymax xmin xmax)) in
            k <> Z.to_nat pixelCount /\ k <> 1%nat) calexps ->
  buildNmfData calexps fp = Raise ValueError.
Proof.
  intros bbox xmin ymin xmax ymax pixelCount Hhd Hex.
  unfold buildNmfData.
  assert (Hget : py_getitem calexps 0 = Ok first).
  { destruct calexps as [|c l]; [discriminate|].
    injection Hhd as ->. reflexivity. }
  rewrite Hget. cbn [mbind result_bind].
  fold bbox. fold xmin. fold ymin. fold xmax. fold ymax. fold pixelCount.
  destruct (pixelCount <? 0); [reflexivity|].
  apply buildNmfData_loop_rejects, Hex.
Qed.

Lemma buildNmfData_rejects_misfit_witness :
  buildNmfData [mkExposure 0 0 [[1; 2; 3]; [4; 5; 6]]%Q
                           [[0; 0; 0]; [0; 0; 0]]]
               (mkFootprint (mkBBox 1 0 3 2) [])
  = Raise ValueError.
Proof.
  apply (buildNmfData_rejects_misfit _ _
           (mkExposure 0 0 [[1; 2; 3]; [4; 5; 6]]%Q [[0; 0; 0]; [0; 0; 0]]));
    [reflexivity|].
  apply Exists_cons_hd. simpl. lia.
Defined.

Lemma buildNmfData_loop_ok (ymin ymax xmin xmax : Z) (n : nat)
    (f : Exposure -> vec) (g : Exposure -> list Z)
    (calexps : list Exposure) (data : matrix) (mask : list (list Z)) :
  Forall (fun c =>
            assign_row (np_flatten (np_crop (getImageArray c)
                                            ymin ymax xmin xmax)) n
            = Ok (f c)
            /\ assign_row (np_flatten (np_crop (getMaskArray c)
                                               ymin ymax xmin xmax)) n
               = Ok (g c)) calexps ->
  foldM (fun '(data, mask) calexp =>
           d ← assign_row
                 (np_flatten (np_crop (getImageArray calexp)
                                      ymin ymax xmin xmax)) n;
           m ← assign_row
                 (np_flatten (np_crop (getMaskArray calexp)
                                      ymin ymax xmin xmax)) n;
           Ok (data ++ [d], mask ++ [m]))
        calexps (data, mask)
  = Ok (data ++ map f calexps, mask ++ map g calexps).
Proof.
  intros Hall. revert data mask.
  induction Hall as [|c l [Hd Hm] _ IH]; intros data mask.
  - cbn [foldM map]. rewrite !app_nil_r. reflexivity.
  - cbn [foldM map]. rewrite Hd, Hm. cbn [mbind result_bind].
    rewrite IH, <- !app_assoc. reflexivity.
Qed.

Lemma assign_row_single {A : Type} (x : A) (n : nat) :
  assign_row [x] n = Ok (repeat x n).
Proof.
  unfold assign_row. destruct (Nat.eqb_spec (length [x]) n) as [E|_];
    [|reflexivity].
  simpl in E. subst n. reflexivity.
Qed.

(** X17: a box that meets the image and mask arrays of every exposure in a
    single pixel does not fail: the one pixel is broadcast, and every entry
    of the exposure's row holds its value. *)
Theorem buildNmfData_broadcasts_single_pixel (calexps : list Exposure)
    (fp : Footprint) (first : Exposure) (v : Exposure -> Q)
    (m : Exposure -> Z) :
  let bbox := getBBox fp in
  let xmin := getMinX bbox - getX0 first in
  let ymin := getMinY bbox - getY0 first in
  let xmax := xmin + getWidth bbox in
  let ymax := ymin + getHeight bbox in
  let pixelCount := (ymax - ymin) * (xmax - xmin) in
  head calexps = Some first ->
  0 <= pixelCount ->
  Forall (fun c =>
            np_crop (getImageArray c) ymin ymax xmin xmax = [[v c]]
            /\ np_crop (getMaskArray c) ymin ymax xmin xmax = [[m c]])
         calexps ->
  buildNmfData calexps fp
  = Ok (map (fun c => repeat (v c) (Z.to_nat pixelCount)) calexps,
        map (fun c => repeat (m c) (Z.to_nat pixelCount)) calexps).
Proof.
  intros bbox xmin ymin xmax ymax pixelCount Hhd Hpos Hall.
  unfold buildNmfData.
  assert (Hget : py_getitem calexps 0 = Ok first).
  { destruct calexps as [|c l]; [discriminate|].
    injection Hhd as ->. reflexivity. }
  rewrite Hget. cbn [mbind result_bind].
  fold bbox. fold xmin. fold ymin. fold xmax. fold ymax. fold pixelCount.
  destruct (Z.ltb_spec pixelCount 0) as [Hn|_]; [lia|].
  rewrite (buildNmfData_loop_ok ymin ymax xmin xmax (Z.to_nat pixelCount)
             (fun c => repeat (v c) (Z.to_nat pixelCount))
             (fun c => repeat (m c) (Z.to_nat pixelCount))); [reflexivity|].
  eapply Forall_impl; [exact Hall|]. intros c [Hi Hm]. simpl.
  rewrite Hi, Hm. unfold np_flatten. cbn [concat app].
  split; apply assign_row_single.
Qed.

Lemma buildNmfData_broadcasts_single_pixel_witness :
  buildNmfData [mkExposure 0 0 [[1; 2]; [3; 4]]%Q [[0; 0]; [0; 8]]]
               (mkFootprint (mkBBox 1 1 2 2) [])
  = Ok ([[4; 4; 4; 4]]%Q, [[8; 8; 8; 8]]).
Proof.
  exact (buildNmfData_broadcasts_single_pixel
           [mkExposure 0 0 [[1; 2]; [3; 4]]%Q [[0; 0]; [0; 8]]]
           (mkFootprint (mkBBox 1 1 2 2) [])
           (mkExposure 0 0 [[1; 2]; [3; 4]]%Q [[0; 0]; [0; 8]])
           (fun _ => 4%Q) (fun _ => 8)
           eq_refl ltac:(simpl; lia) ltac:(repeat constructor)).
Defined.

(** ** The offset of the data *)

Lemma fold_Qmin_le (l : list Q) (x : Q) :
  (fold_left Qmin l x <= x)%Q
  /\ Forall (fun y => (fold_left Qmin l x <= y)%Q) l.
Proof.
  revert x. induction l as [|y l IH]; intros x.
  - split; [apply Qle_refl|constructor].
  - cbn [fold_left]. destruct (IH (Qmin x y)) as [Hm Hall]. split.
    + eapply Qle_trans; [exact Hm|apply Q.le_min_l].
    + constructor; [|exact Hall].
      eapply Qle_trans; [exact Hm|apply Q.le_min_r].
Qed.

Lemma np_amin_le (M : matrix) :
  Forall (fun x => (np_amin M <= x)%Q) (concat M).
Proof.
  unfold np_amin. destruct (concat M) as [|x l]; [constructor|].
  destruct (fold_Qmin_le l x) as [Hx Hl]. constructor; assumption.
Qed.

Lemma Forall_concat_rows {A : Type} (P : A -> Prop) (M : list (list A)) :
  Forall P (concat M) <-> Forall (Forall P) M.
Proof.
  induction M as [|r M IH]; cbn [concat].
  - split; constructor.
  - rewrite Forall_app, IH. split.
    + intros [Hr HM]. constructor; assumption.
    + intros HM. inversion HM; subst. split; assumption.
Qed.

Lemma Qlt_bool_true (x y : Q) : Qlt_bool x y = true -> (x < y)%Q.
Proof.
  unfold Qlt_bool. intros H. apply Qnot_le_lt. intros Hle.
  apply Qle_bool_iff in Hle. rewrite Hle in H. discriminate H.
Qed.

Lemma Qlt_bool_false (x y : Q) : Qlt_bool x y = false -> (y <= x)%Q.
Proof.
  unfold Qlt_bool. intros H. apply Qle_bool_iff.
  destruct (Qle_bool y x); [reflexivity|discriminate H].
Qed.

Lemma count_negative_zero (M : matrix) :
  count_negative M = 0%nat -> nonneg M.
Proof.
  unfold count_negative, nonneg, nonneg_vec. intros Hc.
  apply Forall_concat_rows.
  induction (concat M) as [|x l IH]; [constructor|].
  rewrite filter_cons in Hc.
  destruct (decide (Qlt_bool x 0)) as [Hx|Hx].
  - discriminate Hc.
  - constructor; [|apply IH, Hc].
    apply Qlt_bool_false. destruct (Qlt_bool x 0); [|reflexivity].
    exfalso. apply Hx. exact I.
Qed.

Lemma count_negative_pos (M : matrix) :
  (0 < count_negative M)%nat -> exists x, In x (concat M) /\ (x < 0)%Q.
Proof.
  unfold count_negative. induction (concat M) as [|x l IH].
  - simpl. lia.
  - rewrite filter_cons.
    destruct (decide (Qlt_bool x 0)) as [Hx|Hx].
    + intros _. exists x. split; [left; reflexivity|].
      apply Qlt_bool_true. destruct (Qlt_bool x 0); [reflexivity|].
      destruct Hx.
    + intros Hc. destruct (IH Hc) as (y & Hy & Hlt).
      exists y. split; [right; exact Hy|exact Hlt].
Qed.

Lemma offsetNmfData_nonneg (raw : matrix) :
  nonneg (fst (offsetNmfData raw true))
  /\ (0 <= snd (offsetNmfData raw true))%Q
  /\ meq (fst (offsetNmfData raw true))
         (np.add_scalar raw (snd (offsetNmfData raw true))).
Proof.
  unfold offsetNmfData. cbn [andb].
  destruct (Nat.ltb_spec 0 (count_negative raw)) as [Hpos|Hz]; cbn [fst snd].
  - pose proof (np_amin_le raw) as Hmin.
    split; [|split].
    + apply Forall_concat_rows in Hmin. unfold np.add_scalar.
      apply Forall_map. eapply Forall_impl; [exact Hmin|].
      intros r Hr. simpl. apply Forall_map.
      eapply Forall_impl; [exact Hr|]. intros x Hx. simpl in Hx |- *.
      apply (Qplus_le_l _ _ (np_amin raw)). ring_simplify. exact Hx.
    + destruct (count_negative_pos raw Hpos) as (x & Hin & Hlt).
      rewrite Forall_forall in Hmin.
      pose proof (Hmin x (proj2 (list_elem_of_In _ _) Hin)) as Hle.
      simpl in Hle. apply (Qplus_le_l _ _ (np_amin raw)). ring_simplify.
      apply Qlt_le_weak. eapply Qle_lt_trans; [exact Hle|exact Hlt].
    + apply Forall2_same_length_lookup. split; [reflexivity|].
      intros i r r' Hr Hr'. assert (r = r') by congruence. subst r'.
      apply veq_refl.
  - split; [|split].
    + apply count_negative_zero. lia.
    + apply Qle_refl.
    + unfold np.add_scalar. induction raw as [|r raw IH]; [constructor|].
      cbn [map]. constructor.
      * clear. induction r as [|x r IHr]; [constructor|].
        cbn [map]. constructor; [ring|exact IHr].
      * apply IH. unfold count_negative in Hz |- *. cbn [concat] in Hz.
        rewrite filter_app, length_app in Hz. lia.
Qed.

(** X18: with [offsetData] set, the data that [initNMFparams] returns are
    the data of [buildNmfData] plus the returned offset, and they are
    non-negative, as the multiplicative update needs them; the offset is
    not negative; and the initial factors are those of [createInitWH] for
    the shifted data. *)
Theorem initNMFparams_data_nonneg (pinv : matrix -> matrix)
    (calexps : list Exposure) (templates : list matrix) (fp : Footprint)
    (includeBkg : bool) (data : matrix) (mask : list (list Z))
    (W H : matrix) (offset : Q) :
  initNMFparams pinv calexps templates fp includeBkg true
    = Ok (data, mask, W, H, offset) ->
  exists raw,
    buildNmfData calexps fp = Ok (raw, mask)
    /\ meq data (np.add_scalar raw offset)
    /\ nonneg data /\ (0 <= offset)%Q
    /\ (W, H) = createInitWH pinv data templates fp offset includeBkg.
Proof.
  unfold initNMFparams. intros Hrun.
  destruct (buildNmfData calexps fp) as [[raw mask0]|e];
    cbn [mbind result_bind] in Hrun; [|discriminate Hrun].
  destruct (offsetNmfData_nonneg raw) as (Hnn & Hoff & Hsum).
  destruct (offsetNmfData raw true) as [data0 offset0].
  cbn [fst snd] in Hnn, Hoff, Hsum.
  destruct (createInitWH pinv data0 templates fp offset0 includeBkg)
    as [W0 H0] eqn:Einit.
  injection Hrun as -> -> -> -> ->.
  exists raw. rewrite Einit. auto.
Qed.

Lemma initNMFparams_data_nonneg_witness :
  exists data mask W H offset,
    initNMFparams (fun M => np.transpose M)
                  [mkExposure 0 0 [[1; -2]; [3; 4]]%Q [[0; 0]; [0; 0]]]
                  [[[1; 0; 0; 0]]]%Q
                  (mkFootprint (mkBBox 0 0 2 2) []) false true
      = Ok (data, mask, W, H, offset)
    /\ nonneg data /\ (0 <= offset)%Q.
Proof.
  eexists. eexists. eexists. eexists. eexists.
  split; [vm_compute; reflexivity|].
  destruct (initNMFparams_data_nonneg (fun M => np.transpose M)
              [mkExposure 0 0 [[1; -2]; [3; 4]]%Q [[0; 0]; [0; 0]]]
              [[[1; 0; 0; 0]]]%Q
              (mkFootprint (mkBBox 0 0 2 2) []) false _ _ _ _ _ eq_refl)
    as (raw & _ & _ & Hnn & Hoff & _).
  split; [exact Hnn|exact Hoff].
Defined.

(** ** The normalisation of the initial factors *)

Lemma transpose_transpose (M : matrix) (r c : nat) :
  has_shape M r c -> (0 < r)%nat -> (0 < c)%nat ->
  np.transpose (np.transpose M) = M.
Proof.
  intros HM Hr Hc.
  pose proof (has_shape_transpose M r c HM Hr) as Ht.
  pose proof (shape1_of_has_shape _ _ _ HM Hr) as Hs.
  pose proof (shape1_of_has_shape _ _ _ Ht Hc) as Hst.
  destruct HM as [Hl Hrows].
  apply nth_ext with (d := []) (d' := []).
  - rewrite length_transpose, Hst. congruence.
  - intros p Hp. rewrite length_transpose, Hst in Hp.
    rewrite nth_transpose by (rewrite Hst; exact Hp).
    assert (Hrow : length (nth p M []) = c)
      by (apply (has_shape_nth M r c p (conj Hl Hrows) Hp)).
    apply nth_ext with (d := 0%Q) (d' := 0%Q).
    + unfold np.col. rewrite length_map, length_transpose. congruence.
    + intros q Hq. unfold np.col in Hq.
      rewrite length_map, length_transpose, Hs in Hq.
      rewrite nth_col. unfold np.get.
      rewrite nth_transpose by (rewrite Hs; exact Hq).
      rewrite nth_col. reflexivity.
Qed.

Lemma dot_normalised (r c nf : vec) :
  length r = length nf ->
  Forall (fun x => ~ (x == 0)%Q) nf ->
  (np.dot (zip_with Qdiv r nf) (zip_with Qmult c nf) == np.dot r c)%Q.
Proof.
  intros Hl Hnz. revert r c Hl.
  induction Hnz as [|x nf Hx _ IH]; intros [|a r] c Hl; try discriminate.
  - reflexivity.
  - destruct c as [|b c]; [reflexivity|].
    cbn [zip_with np.dot]. rewrite IH by (simpl in Hl; lia).
    field. exact Hx.
Qed.

Lemma zero_to_one_nonzero (v : vec) :
  Forall (fun x => ~ (x == 0)%Q) (np.zero_to_one v).
Proof.
  unfold np.zero_to_one. apply Forall_map, Forall_forall. intros x _.
  simpl. destruct (Qeq_bool x 0) eqn:E.
  - discriminate.
  - intros Hx. apply Qeq_bool_iff in Hx. congruence.
Qed.

(** X19: the normalisation at the end of [createInitWH] does not change the
    model: the returned factors have the product [W0.H0] of the factors
    before it, for templates of [K] sources on [P] pixels and a
    pseudo-inverse of the transposed shape. *)
Theorem createInitWH_keeps_product (pinv : matrix -> matrix)
    (data : matrix) (templates : list matrix) (fp : Footprint) (offset : Q)
    (includeBkg : bool) (K P : nat) :
  let H0 := createInitWH_templates templates fp offset includeBkg in
  let W0 :=
    createInitWH_before_norm pinv data templates fp offset includeBkg in
  has_shape H0 K P -> has_shape (pinv H0) P K ->
  (0 < K)%nat -> (0 < P)%nat -> data <> [] ->
  meq (np.matmul (fst (createInitWH pinv data templates fp offset
                                    includeBkg))
                 (snd (createInitWH pinv data templates fp offset
                                    includeBkg)))
      (np.matmul W0 H0).
Proof.
  intros H0 W0 HH Hp HK HP Hdata.
  unfold createInitWH. cbn [fst snd].
  fold (createInitWH_templates templates fp offset includeBkg). fold H0.
  change (np.matmul data (pinv H0)) with W0.
  set (nf := np.zero_to_one (np.sum_axis0 W0)).
  assert (HW0 : has_shape W0 (length data) K).
  { apply (has_shape_matmul_gen _ _ _ P K); [reflexivity|exact Hp|exact HP]. }
  assert (Hnf : length nf = K).
  { unfold nf. rewrite length_zero_to_one, length_sum_axis0.
    apply (shape1_of_has_shape W0 (length data) K HW0).
    destruct data; [contradiction|simpl; lia]. }
  assert (HX : has_shape (np.mul_rows (np.transpose H0) nf) P K).
  { destruct (has_shape_transpose H0 K P HH HK) as [Hl Hr].
    unfold np.mul_rows. split; [rewrite length_map; exact Hl|].
    apply Forall_map. eapply Forall_impl; [exact Hr|].
    intros c Hc. simpl in Hc |- *. rewrite length_zip_with. lia. }
  unfold np.matmul at 1. rewrite (transpose_transpose _ P K HX HP HK).
  unfold np.matmul at 1, np.div_rows, np.mul_rows. rewrite !map_map.
  assert (Hnz : Forall (fun x => ~ (x == 0)%Q) nf)
    by apply zero_to_one_nonzero.
  destruct HW0 as [_ Hrows]. clear HX. clearbody nf W0.
  induction Hrows as [|r W1 Hr _ IH]; [constructor|].
  cbn [map]. constructor; [|exact IH]. clear IH.
  induction (np.transpose H0) as [|c T IHT]; [constructor|].
  cbn [map]. constructor; [|exact IHT].
  apply dot_normalised; [congruence|exact Hnz].
Qed.

Lemma createInitWH_keeps_product_witness :
  meq (np.matmul (fst (createInitWH (fun _ => [[1; 0]; [0; 1]]%Q)
                                    [[2; 3]; [4; 5]]%Q
                                    [[[1; 0]]; [[0; 1]]]%Q
                                    (mkFootprint (mkBBox 0 0 2 1) []) 0
                                    false))
                 (snd (createInitWH (fun _ => [[1; 0]; [0; 1]]%Q)
                                    [[2; 3]; [4; 5]]%Q
                                    [[[1; 0]]; [[0; 1]]]%Q
                                    (mkFootprint (mkBBox 0 0 2 1) []) 0
                                    false)))
      [[2; 3]; [4; 5]]%Q.
Proof.
  apply (createInitWH_keeps_product (fun _ => [[1; 0]; [0; 1]]%Q)
           [[2; 3]; [4; 5]]%Q [[[1; 0]]; [[0; 1]]]%Q
           (mkFootprint (mkBBox 0 0 2 1) []) 0%Q false 2 2);
    try (split; [reflexivity|repeat constructor]); try lia.
  discriminate.
Defined.

(** ** Templates *)

Lemma py_getitem_nonneg {A : Type} (l : list A) (i : Z) (d : A) :
  0 <= i < Z.of_nat (length l) ->
  py_getitem l i = Ok (nth (Z.to_nat i) l d).
Proof.
  intros Hi. unfold py_getitem, py_index.
  destruct (Z.leb_spec 0 i); [|lia].
  destruct (Z.ltb_spec i (Z.of_nat (length l))); [|lia].
  cbn [andb]. rewrite nth_lookup.
  destruct (l !! Z.to_nat i) eqn:E; [reflexivity|].
  apply lookup_ge_None in E. lia.
Qed.

Lemma py_getitem_negative {A : Type} (l : list A) (i : Z) (d : A) :
  - Z.of_nat (length l) <= i < 0 ->
  py_getitem l i = Ok (nth (Z.to_nat (i + Z.of_nat (length l))) l d).
Proof.
  intros Hi. unfold py_getitem, py_index.
  destruct (Z.leb_spec 0 i); [lia|]. cbn [andb].
  destruct (Z.leb_spec (- Z.of_nat (length l)) i); [|lia].
  destruct (Z.ltb_spec i 0); [|lia].
  cbn [andb]. rewrite nth_lookup.
  destruct (l !! Z.to_nat (i + Z.of_nat (length l))) eqn:E; [reflexivity|].
  apply lookup_ge_None in E. lia.
Qed.

Lemma py_getitem_outside {A : Type} (l : list A) (i : Z) :
  i < - Z.of_nat (length l) \/ Z.of_nat (length l) <= i ->
  py_getitem l i = Raise IndexError.
Proof.
  intros Hi. unfold py_getitem, py_index.
  destruct (Z.leb_spec 0 i); destruct (Z.ltb_spec i (Z.of_nat (length l)));
    cbn [andb]; try lia;
    destruct (Z.leb_spec (- Z.of_nat (length l)) i);
    destruct (Z.ltb_spec i 0); cbn [andb]; try lia; reflexivity.
Qed.

Lemma py_getitem_raises {A : Type} (l : list A) (i : Z) (e : exn) :
  py_getitem l i = Raise e -> e = IndexError.
Proof.
  unfold py_getitem. destruct (py_index (length l) i) as [k|];
    [destruct (l !! k)|]; congruence.
Qed.

Lemma get_matmul (A B : matrix) (i j : nat) :
  (i < length A)%nat -> (j < np.shape1 B)%nat ->
  np.get (np.matmul A B) i j = np.dot (nth i A []) (np.col B j).
Proof.
  intros Hi Hj. unfold np.get, np.matmul.
  rewrite (nth_lookup (map _ A)), list_lookup_fmap, (nth_lookup A).
  destruct (A !! i) as [r|] eqn:E; [|apply lookup_ge_None in E; lia].
  cbn [fmap option_fmap option_map default]. unfold id.
  rewrite nth_lookup, list_lookup_fmap.
  pose proof (nth_transpose B j Hj) as Ht. rewrite nth_lookup in Ht.
  destruct (np.transpose B !! j) as [c|] eqn:Ec.
  - cbn [fmap option_fmap option_map default] in Ht |- *.
    unfold id in Ht |- *. congruence.
  - apply lookup_ge_None in Ec. rewrite length_transpose in Ec. lia.
Qed.

Lemma sum_map_ext {A : Type} (f g : A -> Q) (l : list A) :
  (forall x, In x l -> (f x == g x)%Q) ->
  (np.sum (map f l) == np.sum (map g l))%Q.
Proof.
  induction l as [|x l IH]; intros Hfg; [reflexivity|].
  cbn [map np.sum]. rewrite (Hfg x (or_introl eq_refl)), IH; [reflexivity|].
  intros y Hy. apply Hfg. right. exact Hy.
Qed.

Lemma sum_map_minus {A : Type} (f g : A -> Q) (l : list A) :
  (np.sum (map (fun x => f x - g x) l)
     == np.sum (map f l) - np.sum (map g l))%Q.
Proof.
  induction l as [|x l IH]; cbn [map np.sum]; [ring|]. rewrite IH. ring.
Qed.

Lemma sum_indicator (c : Q) (m a n : nat) :
  (np.sum (map (fun k => if Nat.eqb k m then c else 0) (seq a n))
     == if (a <=? m)%nat && (m <? a + n)%nat then c else 0)%Q.
Proof.
  revert a. induction n as [|n IH]; intros a; cbn [seq map np.sum].
  - destruct (Nat.leb_spec a m); destruct (Nat.ltb_spec m (a + 0));
      cbn [andb]; try reflexivity. lia.
  - rewrite IH.
    destruct (Nat.eqb_spec a m); destruct (Nat.leb_spec a m);
      destruct (Nat.leb_spec (S a) m); destruct (Nat.ltb_spec m (a + S n));
      destruct (Nat.ltb_spec m (S a + n)); cbn [andb]; try lia; ring.
Qed.

Lemma dot_as_sum (u v : vec) :
  length v = length u ->
  (np.dot u v
     == np.sum (map (fun k => nth k u 0 * nth k v 0) (seq 0 (length u))))%Q.
Proof.
  revert v. induction u as [|x u IH]; intros [|y v] Hl; try discriminate.
  - reflexivity.
  - cbn [np.dot length seq map np.sum nth].
    rewrite <- seq_shift, map_map. cbn [nth].
    rewrite <- IH by (simpl in Hl; lia). reflexivity.
Qed.

Lemma reconstructTemplate_flat (W H : matrix) (fidx : Z) (k : nat)
    (offset : Q) (fp : option Footprint) (includeBkg : bool) :
  0 <= fidx < Z.of_nat (length W) ->
  (k < length (nth (Z.to_nat fidx) W []))%nat ->
  (k < length H)%nat ->
  reconstructTemplate W H fidx (Z.of_nat k) offset fp false includeBkg
  = Ok (np.Arr1
          (map (fun x => if includeBkg && Nat.eqb k (length H - 1)
                         then (x - offset)%Q else x)
               (map (Qmult (np.get W (Z.to_nat fidx) k)) (nth k H [])))).
Proof.
  intros Hf Hk HkH. unfold reconstructTemplate.
  rewrite (py_getitem_nonneg W fidx []) by exact Hf.
  cbn [mbind result_bind].
  rewrite (py_getitem_nonneg _ (Z.of_nat k) 0%Q) by lia.
  cbn [mbind result_bind].
  rewrite (py_getitem_nonneg H (Z.of_nat k) []) by lia.
  cbn [mbind result_bind]. rewrite Nat2Z.id.
  fold (np.get W (Z.to_nat fidx) k).
  replace (Z.of_nat k =? Z.of_nat (length H) - 1)
    with (Nat.eqb k (length H - 1)).
  - destruct (includeBkg && Nat.eqb k (length H - 1)); [reflexivity|].
    rewrite map_id. reflexivity.
  - destruct (Nat.eqb_spec k (length H - 1));
      destruct (Z.eqb_spec (Z.of_nat k) (Z.of_nat (length H) - 1));
      try reflexivity; lia.
Qed.

(** X20: in a band, the templates of all the sources add up, pixel by
    pixel, to the model [W.H] of the band; with a background source, to
    the model minus the offset, which is taken off the background's
    template only. *)
Theorem reconstructTemplate_sum (W H : matrix) (fidx : Z) (offset : Q)
    (includeBkg : bool) (B K P p : nat) :
  has_shape W B K -> has_shape H K P ->
  (0 < K)%nat -> 0 <= fidx < Z.of_nat B -> (p < P)%nat ->
  (summedTemplates W H fidx offset includeBkg p
     == np.get (np.matmul W H) (Z.to_nat fidx) p
        - (if includeBkg then offset else 0))%Q.
Proof.
  intros HW HH HK Hf Hp.
  pose proof (has_shape_nth W B K (Z.to_nat fidx) HW ltac:(lia)) as Hrow.
  pose proof (shape1_of_has_shape H K P HH HK) as Hs1.
  destruct HW as [HlW _]. pose proof HH as [HlH _].
  rewrite get_matmul by lia.
  rewrite dot_as_sum by (unfold np.col; rewrite length_map; congruence).
  unfold summedTemplates. rewrite Hrow, HlH.
  rewrite (sum_map_ext _
             (fun k => nth k (nth (Z.to_nat fidx) W []) 0
                       * nth k (np.col H p) 0
                       - (if Nat.eqb k (K - 1)
                          then if includeBkg then offset else 0 else 0))%Q).
  - rewrite sum_map_minus, sum_indicator.
    destruct (Nat.leb_spec 0 (K - 1)); [|lia].
    destruct (Nat.ltb_spec (K - 1) (0 + K)); [|lia].
    cbn [andb]. reflexivity.
  - intros k Hk. apply in_seq in Hk. unfold flatTemplate.
    rewrite reconstructTemplate_flat by lia.
    rewrite nth_col, HlH.
    pose proof (has_shape_nth H K P k HH ltac:(lia)) as HrowH.
    fold (np.get W (Z.to_nat fidx) k).
    set (w := np.get W (Z.to_nat fidx) k).
    rewrite nth_lookup, !list_lookup_fmap. unfold np.get.
    rewrite (nth_lookup (nth k H [])).
    destruct (nth k H [] !! p) as [x|] eqn:E;
      [|apply lookup_ge_None in E; lia].
    cbn [fmap option_fmap option_map default]. unfold id.
    destruct includeBkg; destruct (Nat.eqb k (K - 1)); cbn [andb]; ring.
Qed.

Lemma reconstructTemplate_sum_witness :
  (summedTemplates [[1; 2]; [3; 4]] [[1; 0; 2]; [5; 5; 5]] 1 5 true 2
     == np.get (np.matmul [[1; 2]; [3; 4]] [[1; 0; 2]; [5; 5; 5]]) 1 2 - 5)%Q.
Proof.
  apply (reconstructTemplate_sum [[1; 2]; [3; 4]]%Q
           [[1; 0; 2]; [5; 5; 5]]%Q 1 5%Q true 2 2 3 2);
    try (split; [reflexivity|repeat constructor]); lia.
Defined.

(** X21: with a background source, the background's template has the
    offset taken off only when it is addressed by its index [len(H)-1]:
    addressed as [-1], the same row comes back with the offset left in. *)
Theorem reconstructTemplate_negative_index (W H : matrix) (fidx : Z)
    (offset : Q) (fp : option Footprint) (B K P : nat) :
  has_shape W B K -> has_shape H K P ->
  (0 < K)%nat -> 0 <= fidx < Z.of_nat B ->
  let t := map (Qmult (np.get W (Z.to_nat fidx) (K - 1)))
               (nth (K - 1) H []) in
  reconstructTemplate W H fidx (-1) offset fp false true
    = Ok (np.Arr1 t)
  /\ reconstructTemplate W H fidx (Z.of_nat K - 1) offset fp false true
     = Ok (np.Arr1 (map (fun x => (x - offset)%Q) t)).
Proof.
  intros HW HH HK Hf t.
  pose proof (has_shape_nth W B K (Z.to_nat fidx) HW ltac:(lia)) as Hrow.
  destruct HW as [HlW _]. destruct HH as [HlH _].
  split.
  - unfold reconstructTemplate.
    rewrite (py_getitem_nonneg W fidx []) by lia.
    cbn [mbind result_bind].
    rewrite (py_getitem_negative _ (-1) 0%Q) by lia.
    cbn [mbind result_bind].
    rewrite (py_getitem_negative H (-1) []) by lia.
    cbn [mbind result_bind].
    destruct (Z.eqb_spec (-1) (Z.of_nat (length H) - 1)); [lia|].
    cbn [andb]. rewrite Hrow, HlH.
    replace (Z.to_nat (-1 + Z.of_nat K)) with (K - 1)%nat by lia.
    reflexivity.
  - replace (Z.of_nat K - 1) with (Z.of_nat (K - 1)) by lia.
    rewrite reconstructTemplate_flat by lia.
    rewrite HlH, Nat.eqb_refl. reflexivity.
Qed.

Lemma reconstructTemplate_negative_index_witness :
  reconstructTemplate [[1; 2]; [3; 4]]%Q [[1; 0; 2]; [5; 5; 5]]%Q 1 (-1) 5
                      None false true
    = Ok (np.Arr1 [4 * 5; 4 * 5; 4 * 5]%Q)
  /\ reconstructTemplate [[1; 2]; [3; 4]]%Q [[1; 0; 2]; [5; 5; 5]]%Q 1
                         (Z.of_nat 2 - 1) 5 None false true
     = Ok (np.Arr1 [4 * 5 - 5; 4 * 5 - 5; 4 * 5 - 5]%Q).
Proof.
  apply (reconstructTemplate_negative_index [[1; 2]; [3; 4]]%Q
           [[1; 0; 2]; [5; 5; 5]]%Q 1 5%Q None 2 2 3);
    try (split; [reflexivity|repeat constructor]); lia.
Defined.

Lemma np_reshape_raises (t : vec) (h w : Z) (e : exn) :
  np_reshape t h w = Raise e -> e = ValueError.
Proof.
  unfold np_reshape.
  repeat match goal with
         | |- context [if ?b then _ else _] => destruct b
         end; congruence.
Qed.

Lemma py_getitem_cases {A : Type} (l : list A) (i : Z) (d : A) :
  py_getitem l i
  = if (- Z.of_nat (length l) <=? i) && (i <? Z.of_nat (length l))
    then Ok (nth (Z.to_nat (if i <? 0 then i + Z.of_nat (length l) else i))
                 l d)
    else Raise IndexError.
Proof.
  destruct (Z.leb_spec (- Z.of_nat (length l)) i) as [Hlo|Hlo];
    destruct (Z.ltb_spec i (Z.of_nat (length l))) as [Hhi|Hhi];
    cbn [andb]; try (apply py_getitem_outside; lia).
  destruct (Z.ltb_spec i 0) as [Hneg|Hpos].
  - apply py_getitem_negative. lia.
  - apply py_getitem_nonneg. lia.
Qed.

(** X22: without a footprint, a reshaped template is never returned: for a
    [W] of [B] bands and [K] sources, [reconstructTemplate] raises
    ValueError when [fidx] and [pkIdx] are indices of [W] and [pkIdx] is an
    index of [H] (negative indices counting from the end), and IndexError
    otherwise. *)
Theorem reconstructTemplate_reshape_needs_footprint (W H : matrix)
    (fidx pkIdx : Z) (offset : Q) (includeBkg : bool) (B K : nat) :
  has_shape W B K ->
  let inside (n : nat) (i : Z) :=
    (- Z.of_nat n <=? i) && (i <? Z.of_nat n) in
  reconstructTemplate W H fidx pkIdx offset None true includeBkg
  = if inside B fidx && inside K pkIdx && inside (length H) pkIdx
    then Raise ValueError else Raise IndexError.
Proof.
  intros HW inside. unfold reconstructTemplate.
  rewrite (py_getitem_cases W fidx []).
  destruct HW as [HlW HrW]. rewrite HlW. fold (inside B fidx).
  destruct (inside B fidx) eqn:EB; cbn [andb mbind result_bind];
    [|reflexivity].
  set (r := Z.to_nat (if fidx <? 0 then fidx + Z.of_nat B else fidx)).
  assert (Hr : (r < B)%nat).
  { unfold inside in EB. apply andb_true_iff in EB.
    destruct EB as [Hlo Hhi]. apply Z.leb_le in Hlo. apply Z.ltb_lt in Hhi.
    unfold r. destruct (Z.ltb_spec fidx 0); lia. }
  rewrite (py_getitem_cases (nth r W []) pkIdx 0%Q).
  rewrite (has_shape_nth W B K r (conj HlW HrW) Hr).
  fold (inside K pkIdx).
  destruct (inside K pkIdx); cbn [andb mbind result_bind]; [|reflexivity].
  rewrite (py_getitem_cases H pkIdx []). fold (inside (length H) pkIdx).
  destruct (inside (length H) pkIdx); reflexivity.
Qed.

Lemma reconstructTemplate_reshape_needs_footprint_witness :
  reconstructTemplate [[1; 2]; [3; 4]]%Q [[1; 0; 2]; [5; 5; 5]]%Q 1 (-1) 0
                      None true true
    = Raise ValueError
  /\ reconstructTemplate [[1; 2]; [3; 4]]%Q [[1; 0; 2]; [5; 5; 5]]%Q 1 2 0
                         None true true
     = Raise IndexError.
Proof.
  split.
  - apply (reconstructTemplate_reshape_needs_footprint [[1; 2]; [3; 4]]%Q
             [[1; 0; 2]; [5; 5; 5]]%Q 1 (-1) 0%Q true 2 2).
    split; [reflexivity|repeat constructor].
  - apply (reconstructTemplate_reshape_needs_footprint [[1; 2]; [3; 4]]%Q
             [[1; 0; 2]; [5; 5; 5]]%Q 1 2 0%Q true 2 2).
    split; [reflexivity|repeat constructor].
Defined.

Lemma length_chunks {A : Type} (h w : nat) (t : list A) :
  length (chunks h w t) = h.
Proof. unfold chunks. rewrite length_map. apply length_seq. Qed.

Lemma lookup_chunks {A : Type} (h w : nat) (t : list A) (y x : nat) :
  (y < h)%nat -> (x < w)%nat ->
  chunks h w t !! y ≫= (fun r => r !! x) = t !! (y * w + x)%nat.
Proof.
  intros Hy Hx. unfold chunks.
  rewrite list_lookup_fmap, (lookup_seq_lt 0 h y Hy).
  cbn [fmap option_fmap option_map mbind option_bind plus].
  rewrite lookup_take_lt by exact Hx. apply lookup_drop.
Qed.

Lemma chunks_row_lengths {A : Type} (h w : nat) (t : list A) :
  length t = (h * w)%nat ->
  Forall (fun r => length r = w) (chunks h w t).
Proof.
  intros Ht. unfold chunks. apply Forall_map, Forall_forall.
  intros y Hy. apply elem_of_seq in Hy. simpl.
  rewrite length_take, length_drop. nia.
Qed.

(** X23: with a footprint whose box has as many pixels as [H] has columns,
    the reshaped template is the flat one cut into the rows of the box:
    its entry [(y, x)] is entry [pixel w x y] of the flat template, the
    numbering of [buildNmfData]. *)
Theorem reconstructTemplate_reshape (W H : matrix) (fidx pkIdx : Z)
    (offset : Q) (fp : Footprint) (includeBkg : bool) (t : vec) :
  let h := getHeight (getBBox fp) in
  let w := getWidth (getBBox fp) in
  reconstructTemplate W H fidx pkIdx offset None false includeBkg
    = Ok (np.Arr1 t) ->
  0 <= h -> 0 <= w -> length t = Z.to_nat (h * w) ->
  exists M,
    reconstructTemplate W H fidx pkIdx offset (Some fp) true includeBkg
      = Ok (np.Arr2 M)
    /\ has_shape M (Z.to_nat h) (Z.to_nat w)
    /\ forall x y, 0 <= x < w -> 0 <= y < h ->
         np.get M (Z.to_nat y) (Z.to_nat x) = nth (pixel w x y) t 0%Q.
Proof.
  intros h w Hflat Hh Hw Hlen. unfold reconstructTemplate in Hflat |- *.
  destruct (py_getitem W fidx) as [Wrow|e];
    cbn [mbind result_bind] in Hflat |- *; [|discriminate Hflat].
  destruct (py_getitem Wrow pkIdx) as [w0|e];
    cbn [mbind result_bind] in Hflat |- *; [|discriminate Hflat].
  destruct (py_getitem H pkIdx) as [Hrow|e];
    cbn [mbind result_bind] in Hflat |- *; [|discriminate Hflat].
  injection Hflat as Hflat. rewrite Hflat.
  fold h. fold w. unfold np_reshape.
  destruct (Z.eqb_spec h (-1)); [lia|].
  destruct (Z.eqb_spec w (-1)); [lia|]. cbn [andb].
  destruct (Z.leb_spec 0 h); [|lia]. destruct (Z.leb_spec 0 w); [|lia].
  destruct (Z.eqb_spec (h * w) (Z.of_nat (length t))); [|nia].
  cbn [andb mbind result_bind].
  eexists. split; [reflexivity|]. split; [split|].
  - apply length_chunks.
  - apply chunks_row_lengths. nia.
  - intros x y Hx Hy. rewrite get_lookup, nth_lookup.
    rewrite lookup_chunks by lia.
    rewrite pixel_row_major by lia. reflexivity.
Qed.

Lemma reconstructTemplate_reshape_witness :
  exists M,
    reconstructTemplate [[1; 2]; [3; 4]]%Q
                        [[1; 0; 2; 7; 8; 9]; [5; 5; 5; 5; 5; 5]]%Q 0 0 5
                        (Some (mkFootprint (mkBBox 0 0 3 2) [])) true true
      = Ok (np.Arr2 M)
    /\ has_shape M 2 3
    /\ np.get M 1 2 = (1 * 9)%Q.
Proof.
  destruct (reconstructTemplate_reshape [[1; 2]; [3; 4]]%Q
              [[1; 0; 2; 7; 8; 9]; [5; 5; 5; 5; 5; 5]]%Q 0 0 5%Q
              (mkFootprint (mkBBox 0 0 3 2) []) true
              (map (Qmult 1) [1; 0; 2; 7; 8; 9]%Q) eq_refl
              ltac:(simpl; lia) ltac:(simpl; lia) eq_refl)
    as (M & Hrun & Hs & Hget).
  exists M. split; [exact Hrun|]. split; [exact Hs|].
  apply (Hget 2 1); simpl; lia.
Defined.

(** ** The solver loop and its diagnostics *)







(** ** proximal.py: the state of a deblended parent *)

(** X24: [DeblendedParent.deblend] never changes the footprint or the
    peaks.  When it returns, [seds] and [intensities] hold the returned
    factors and the data are loaded.  When it raises, [seds] and
    [intensities] keep their former values; the data are then loaded as
    well, unless they were not loaded before and [buildNmfData] raised: in
    that case the exception is the one of [buildNmfData] and the parent is
    left as it was. *)
Theorem proximal_deblend_state
    (buildNmfData :
       Footprint ->
       result (proximal.cube * proximal.cube * proximal.cube))
    (maskVariance :
       option proximal.cube -> option proximal.cube ->
       result proximal.cube)
    (showFit : matrix -> proximal.cube -> result unit)
    (plotSeds : option matrix -> result unit)
    (plotIntensities : option matrix -> option proximal.cube -> result unit)
    (peakPositions : proximal.DeblendedParent -> result (list (Z * Z)))
    (nmf_deblender :
       option proximal.cube -> nat -> Z -> list (Z * Z) -> proximal.cube ->
       string -> result (matrix * proximal.cube * proximal.cube))
    (constraints : string) (maxiter : Z) (display : bool)
    (self : proximal.DeblendedParent) :
  let out :=
    proximal.deblend buildNmfData plotSeds plotIntensities showFit
                     maskVariance peakPositions nmf_deblender constraints
                     maxiter display self in
  proximal.footprint (fst out) = proximal.footprint self
  /\ proximal.peaks (fst out) = proximal.peaks self
  /\ match snd out with
     | Ok (s, i) =>
         proximal.seds (fst out) = Some s
         /\ proximal.intensities (fst out) = Some i
         /\ proximal.data (fst out) <> None
     | Raise e =>
         proximal.seds (fst out) = proximal.seds self
         /\ proximal.intensities (fst out) = proximal.intensities self
         /\ (proximal.data (fst out) = None ->
             proximal.data self = None
             /\ buildNmfData (proximal.footprint self) = Raise e
             /\ fst out = self)
     end.
Proof.
  unfold proximal.deblend, proximal.initNMF.
  destruct (proximal.data self) as [d|] eqn:Ed.
  - destruct (peakPositions self) as [pks|e];
      [destruct (maskVariance _ _) as [var|e];
       [destruct (nmf_deblender _ _ _ _ _ _) as [[[s i] model]|e];
        [destruct display; [destruct (showFit s i)|]|]|]|];
      cbn [fst snd proximal.footprint proximal.peaks proximal.data
           proximal.seds proximal.intensities];
      rewrite ?Ed; repeat split; discriminate.
  - destruct (buildNmfData (proximal.footprint self)) as [[[d m] v]|e]
      eqn:Eb.
    + cbn [mbind result_bind proximal.data proximal.mask proximal.variance
           proximal.footprint proximal.peaks].
      destruct (peakPositions _) as [pks|e];
        [destruct (maskVariance _ _) as [var|e];
         [destruct (nmf_deblender _ _ _ _ _ _) as [[[s i] model]|e];
          [destruct display; [destruct (showFit s i)|]|]|]|];
        cbn [fst snd proximal.footprint proximal.peaks proximal.data
             proximal.seds proximal.intensities];
        repeat split; discriminate.
    + cbn [mbind result_bind fst snd]. repeat split; assumption.
Qed.

(** ** proximal.py: all the blended parents *)

Lemma dict_set_fresh {V : Type} (d : list (Z * V)) (k : Z) (v : V) :
  k ∉ map fst d -> dict_set d k v = d ++ [(k, v)].
Proof.
  intros Hk. unfold dict_set.
  destruct (existsb (fun kv => fst kv =? k) d) eqn:E; [|reflexivity].
  exfalso. apply Hk. apply existsb_exists in E.
  destruct E as ([k' v'] & Hin & Heq). apply Z.eqb_eq in Heq.
  simpl in Heq. subst k'. apply list_elem_of_In.
  apply in_map_iff. exists (k, v'). split; [reflexivity|exact Hin].
Qed.

Lemma deblendAll_loop {V : Type} (deblendParent : Z -> result V)
    (f : nat -> V) (l : list (nat * (Z * nat))) (d : list (Z * V)) :
  let g := fun '(i, (srcId, npeaks)) =>
             if (1 <? npeaks)%nat then Some (i, srcId) else None in
  (forall i srcId, (i, srcId) ∈ omap g l ->
                   deblendParent (Z.of_nat i) = Ok (f i)) ->
  NoDup (map fst d ++ map snd (omap g l)) ->
  foldM (fun d '(parentIdx, (srcId, npeaks)) =>
           if (1 <? npeaks)%nat then
             r ← deblendParent (Z.of_nat parentIdx);
             Ok (dict_set d srcId r)
           else Ok d) l d
  = Ok (d ++ map (fun '(i, srcId) => (srcId, f i)) (omap g l)).
Proof.
  intros g. revert d.
  induction l as [|[i [srcId npeaks]] l IH]; intros d Hok Hnd.
  - cbn [foldM omap map]. rewrite app_nil_r. reflexivity.
  - cbn [foldM]. cbn [omap list_omap] in Hok, Hnd |- *.
    unfold g at 1 in Hok. unfold g at 1 in Hnd. unfold g at 1.
    destruct (1 <? npeaks)%nat.
    + rewrite (Hok i srcId) by (apply list_elem_of_here).
      cbn [mbind result_bind map] in Hnd |- *.
      apply NoDup_app in Hnd. destruct Hnd as (Hd & Hdis & Hl).
      rewrite dict_set_fresh
        by (intros Hin; apply (Hdis _ Hin); apply list_elem_of_here).
      rewrite IH.
      * rewrite <- app_assoc. reflexivity.
      * intros j id Hj. apply (Hok j id).
        apply list_elem_of_further. exact Hj.
      * rewrite map_app. cbn [map fst]. rewrite <- app_assoc. cbn [app].
        apply NoDup_app. split; [exact Hd|]. split; [|exact Hl].
        intros x Hx. apply Hdis. exact Hx.
    + apply IH; assumption.
Qed.

(** X25: when the ids of the catalogue are distinct and [deblendParent]
    returns for every source with more than one peak,
    [ExposureDeblend.deblend] collects exactly these sources, in the order
    of the catalogue: each under its id, with the result of
    [deblendParent] at its position in the whole catalogue (the sources of
    a single peak are counted, not deblended). *)
Theorem deblendAll_results {V : Type} (deblendParent : Z -> result V)
    (f : nat -> V) (mergedDet : list (Z * nat)) :
  (forall i srcId, (i, srcId) ∈ blendedParents mergedDet ->
                   deblendParent (Z.of_nat i) = Ok (f i)) ->
  NoDup (map snd (blendedParents mergedDet)) ->
  deblendAll deblendParent mergedDet
  = Ok (map (fun '(i, srcId) => (srcId, f i)) (blendedParents mergedDet)).
Proof.
  intros Hok Hnd. unfold deblendAll, blendedParents in *.
  rewrite (deblendAll_loop deblendParent f _ []); [reflexivity| |exact Hnd].
  intros i srcId. exact (Hok i srcId).
Qed.

Lemma deblendAll_results_witness :
  deblendAll (fun i => if i =? 1 then Raise ValueError else Ok (i * 10))
             [(7, 2%nat); (8, 1%nat); (9, 3%nat)]
  = Ok [(7, 0); (9, 20)].
Proof.
  apply (deblendAll_results
           (fun i => if i =? 1 then Raise ValueError else Ok (i * 10))
           (fun i => Z.of_nat i * 10) [(7, 2%nat); (8, 1%nat); (9, 3%nat)]).
  - intros i srcId Hin. vm_compute in Hin.
    apply list_elem_of_In in Hin. simpl in Hin.
    destruct Hin as [E|[E|[]]]; injection E as <- <-; reflexivity.
  - apply NoDup_ListNoDup. vm_compute.
    constructor; [simpl; intuition discriminate|].
    constructor; [simpl; tauto|constructor].
Defined.

Lemma deblendAll_loop_raises {V : Type} (deblendParent : Z -> result V)
    (e : exn) (l : list (nat * (Z * nat))) (d : list (Z * V)) :
  let g := fun '(i, (srcId, npeaks)) =>
             if (1 <? npeaks)%nat then Some (i, srcId) else None in
  (exists pre i srcId post,
      omap g l = pre ++ (i, srcId) :: post
      /\ Forall (fun p => exists v, deblendParent (Z.of_nat (fst p)) = Ok v)
                pre
      /\ deblendParent (Z.of_nat i) = Raise e) ->
  foldM (fun d '(parentIdx, (srcId, npeaks)) =>
           if (1 <? npeaks)%nat then
             r ← deblendParent (Z.of_nat parentIdx);
             Ok (dict_set d srcId r)
           else Ok d) l d
  = Raise e.
Proof.
  intros g. revert d.
  induction l as [|[i [srcId npeaks]] l IH];
    intros d (pre & i0 & id0 & post & Hsplit & Hpre & Hfail).
  - destruct pre; discriminate Hsplit.
  - cbn [foldM]. cbn [omap list_omap] in Hsplit. unfold g at 1 in Hsplit.
    destruct (1 <? npeaks)%nat.
    + destruct pre as [|[j idj] pre].
      * injection Hsplit as <- <- Hrest. rewrite Hfail. reflexivity.
      * injection Hsplit as <- <- Hrest.
        inversion Hpre as [|p pre' [v Hv] Hpre']; subst.
        cbn [fst] in Hv. rewrite Hv. cbn [mbind result_bind].
        apply IH. exists pre, i0, id0, post. auto.
    + apply IH. exists pre, i0, id0, post. auto.
Qed.

(** X26: [ExposureDeblend.deblend] stops at the first blended source whose
    [deblendParent] raises, and raises the same exception; the sources of a
    single peak before it cannot fail, as they are never passed on. *)
Theorem deblendAll_first_failure {V : Type} (deblendParent : Z -> result V)
    (e : exn) (mergedDet : list (Z * nat))
    (pre post : list (nat * Z)) (i : nat) (srcId : Z) :
  blendedParents mergedDet = pre ++ (i, srcId) :: post ->
  Forall (fun p => exists v, deblendParent (Z.of_nat (fst p)) = Ok v) pre ->
  deblendParent (Z.of_nat i) = Raise e ->
  deblendAll deblendParent mergedDet = Raise e.
Proof.
  intros Hsplit Hpre Hfail. unfold deblendAll.
  apply deblendAll_loop_raises. exists pre, i, srcId, post. auto.
Qed.

Lemma deblendAll_first_failure_witness :
  deblendAll (fun i => if i =? 0 then Raise ValueError
                       else if i =? 1 then Ok 5 else Raise IndexError)
             [(7, 1%nat); (8, 2%nat); (9, 3%nat)]
  = Raise IndexError.
Proof.
  apply (deblendAll_first_failure
           (fun i => if i =? 0 then Raise ValueError
                     else if i =? 1 then Ok 5 else Raise IndexError)
           IndexError [(7, 1%nat); (8, 2%nat); (9, 3%nat)]
           [(1%nat, 8)] [] 2 9);
    [reflexivity| |reflexivity].
  constructor; [exists 5; reflexivity|constructor].
Defined.

(** ** The norm of the columns of [W] *)

Lemma Qabs_zero (x : Q) : (Qabs x == 0)%Q -> (x == 0)%Q.
Proof.
  intros Hx. assert (Hle : (Qabs x <= 0)%Q) by (rewrite Hx; apply Qle_refl).
  apply Qabs_Qle_condition in Hle. destruct Hle as [Hlo Hhi].
  apply Qle_antisym; [exact Hhi|exact Hlo].
Qed.

Lemma sum_abs_zero (v : vec) :
  (np.sum (map Qabs v) == 0)%Q -> vzero v.
Proof.
  induction v as [|x v IH]; intros Hs; [constructor|].
  cbn [map np.sum] in Hs.
  assert (Hnn : (0 <= np.sum (map Qabs v))%Q).
  { apply sum_nonneg. apply Forall_map, Forall_forall.
    intros y _. apply Qabs_nonneg. }
  pose proof (Qabs_nonneg x) as Hx.
  assert (Hx0 : (Qabs x == 0)%Q) by lra.
  constructor; [apply Qabs_zero, Hx0|].
  apply IH. lra.
Qed.

Lemma vzero_veq (u v : vec) : veq u v -> vzero v -> vzero u.
Proof.
  induction 1 as [|x y u v Hxy _ IH]; intros Hv; [constructor|].
  inversion Hv; subst. constructor; [|apply IH; assumption].
  simpl in *. rewrite Hxy. assumption.
Qed.

Lemma shape1_div_rows_norms (M : matrix) (f : matrix -> vec) :
  length (f M) = np.shape1 M ->
  np.shape1 (np.div_rows M (np.zero_to_one (f M))) = np.shape1 M.
Proof.
  intros Hf. unfold np.shape1 at 1, np.div_rows.
  destruct M as [|r M]; [reflexivity|].
  cbn [map nth]. rewrite length_zip_with, length_zero_to_one, Hf.
  unfold np.shape1. cbn [nth]. lia.
Qed.

Lemma abs_normalised_columns (W0 : matrix) (j : nat) :
  let W := np.div_rows W0 (np.zero_to_one (np.sum_axis0 (np.abs W0))) in
  (j < np.shape1 W)%nat ->
  (np.sum (map Qabs (np.col W j)) == 1)%Q \/ vzero (np.col W j).
Proof.
  intros W Hj.
  assert (Hlen : length (np.sum_axis0 (np.abs W0)) = np.shape1 W0).
  { rewrite length_sum_axis0. apply shape1_abs. }
  assert (Hj0 : (j < np.shape1 W0)%nat).
  { unfold W in Hj.
    rewrite (shape1_div_rows_norms W0
               (fun M => np.sum_axis0 (np.abs M))) in Hj; assumption. }
  set (norms := np.sum_axis0 (np.abs W0)) in *.
  assert (Hn : nth j norms 0%Q = np.sum (map Qabs (np.col W0 j))).
  { unfold norms. rewrite nth_sum_axis0 by (rewrite shape1_abs; exact Hj0).
    rewrite col_abs. reflexivity. }
  assert (Hjn : (j < length norms)%nat) by lia.
  destruct (Qeq_dec (nth j norms 0%Q) 0) as [Hz|Hnz].
  - right. destruct (normalised_column W0 norms j Hjn) as [_ Hsame].
    apply (vzero_veq _ _ (Hsame Hz)).
    apply sum_abs_zero. rewrite <- Hn. exact Hz.
  - left.
    destruct (normalised_column (np.abs W0) norms j Hjn) as [Hunit _].
    assert (Hnn : (0 <= nth j norms 0)%Q).
    { rewrite Hn. apply sum_nonneg. apply Forall_map, Forall_forall.
      intros y _. apply Qabs_nonneg. }
    assert (Hcols : veq (map Qabs (np.col W j))
                        (np.col (np.div_rows (np.abs W0)
                                             (np.zero_to_one norms)) j)).
    { etransitivity;
        [apply (veq_map Qabs);
         [intros x x' Hx; rewrite Hx; reflexivity
         |apply (col_div_rows W0 (np.zero_to_one norms) j)]|].
      symmetry. etransitivity;
        [apply (col_div_rows (np.abs W0) (np.zero_to_one norms) j)|].
      rewrite col_abs, !map_map.
      assert (Hd : (0 <= nth j (np.zero_to_one norms) 0)%Q).
      { rewrite (nth_zero_to_one norms j Hjn).
        destruct (Qeq_bool (nth j norms 0%Q) 0); [discriminate|exact Hnn]. }
      generalize (np.col W0 j). intros l.
      induction l as [|x l IH]; [constructor|].
      cbn [map]. constructor; [|exact IH].
      rewrite Qabs_div, (Qabs_pos _ Hd). reflexivity. }
    rewrite (sum_veq _ _ Hcols), (Hunit Hnz), col_abs, <- Hn.
    field. exact Hnz.
Qed.

(** X27: for arrays whose shapes fit, every column of the [W] that
    [multiplicativeUpdate] or [inverseUpdate] returns has absolute values
    that sum to 1, or is zero throughout, whatever the signs of the data
    and of the factors; for [multiplicativeUpdate], where no denominator of
    the update of [W] is 0. *)
Theorem updates_return_unit_columns :
  (forall A W H fp offset includeBkg beta diffOp W' H' j B K P,
      has_shape A B P -> has_shape W B K -> has_shape H K P ->
      Forall (Forall (fun d => ~ (d == 0)%Q))
             (np.add_scalar (np.matmul (np.matmul W H) (np.transpose H))
                            eps) ->
      multiplicativeUpdate A W H fp offset includeBkg beta diffOp
        = Ok (W', H') ->
      (j < np.shape1 W')%nat ->
      (np.sum (map Qabs (np.col W' j)) == 1)%Q \/ vzero (np.col W' j))
  /\ (forall A W H fp offset includeBkg W' H' j B K P,
         has_shape A B P -> has_shape W B K -> has_shape H K P ->
         inverseUpdate A W H fp offset includeBkg = Ok (W', H') ->
         (j < np.shape1 W')%nat ->
         (np.sum (map Qabs (np.col W' j)) == 1)%Q \/ vzero (np.col W' j)).
Proof.
  split.
  - intros A W H fp offset includeBkg beta diffOp W' H' j B K P
           _ _ _ _ Hrun Hj.
    unfold multiplicativeUpdate in Hrun.
    fold (multiplicativeUpdate_before_norm A W H) in Hrun.
    set (W0 := multiplicativeUpdate_before_norm A W H) in *.
    assert (HW' : W' = np.div_rows W0 (np.zero_to_one
                                         (np.sum_axis0 (np.abs W0)))).
    { destruct diffOp as [d|]; cbn [mbind result_bind] in Hrun.
      - destruct (getIntensityDiff H d offset includeBkg);
          cbn [mbind result_bind] in Hrun; congruence.
      - congruence. }
    subst W'. apply abs_normalised_columns. exact Hj.
  - intros A W H fp offset includeBkg W' H' j B K P _ _ _ Hrun Hj.
    unfold inverseUpdate in Hrun.
    destruct (linalg.inv (np.add_scalar (np.matmul H (np.transpose H)) eps))
      as [Hinv|e]; cbn [mbind result_bind] in Hrun; [|discriminate Hrun].
    set (W0 := np.transpose
                 (np.matmul Hinv (np.matmul H (np.transpose A)))) in *.
    destruct (linalg.inv _) as [Winv|e]; cbn [mbind result_bind] in Hrun;
      [|discriminate Hrun].
    injection Hrun as <- _. apply abs_normalised_columns. exact Hj.
Qed.

Lemma updates_return_unit_columns_witness :
  exists W' H',
    multiplicativeUpdate [[1; -2]; [3; 4]]%Q [[1]; [-1]]%Q [[1; 1]]%Q
                         (mkFootprint (mkBBox 0 0 2 1) []) 0 false 0 None
      = Ok (W', H')
    /\ ((np.sum (map Qabs (np.col W' 0)) == 1)%Q \/ vzero (np.col W' 0)).
Proof.
  eexists. eexists. split; [reflexivity|].
  apply (proj1 updates_return_unit_columns [[1; -2]; [3; 4]]%Q
           [[1]; [-1]]%Q [[1; 1]]%Q (mkFootprint (mkBBox 0 0 2 1) [])
           0%Q false 0%Q None _ _ 0%nat 2%nat 1%nat 2%nat
           ltac:(split; [reflexivity|repeat constructor])
           ltac:(split; [reflexivity|repeat constructor])
           ltac:(split; [reflexivity|repeat constructor])
           ltac:(repeat constructor; intros Hc; vm_compute in Hc;
                 discriminate Hc)
           eq_refl).
  vm_compute. lia.
Defined.

(** ** The penalised updates and the peaks of the footprint *)

Lemma length_getSymmetryDiffOp (H : matrix) (fp : Footprint) :
  length (getSymmetryDiffOp H fp) = length (getPeaks fp).
Proof.
  unfold getSymmetryDiffOp, getSymmetryOperator.
  rewrite length_map, length_imap. reflexivity.
Qed.

Lemma getSymmetryDiffOp_fits (H : matrix) (fp : Footprint) (k : nat)
    (peak : Peak) (D : matrix) :
  let bbox := getBBox fp in
  let shape := (getHeight bbox, getWidth bbox) in
  let px := getIx peak - getMinX bbox in
  let py := getIy peak - getMinY bbox in
  let P := Z.to_nat (getWidth bbox * getHeight bbox) in
  getPeaks fp !! k = Some peak ->
  0 <= px < getWidth bbox -> 0 <= py < getHeight bbox ->
  (centered shape px py = true -> np.size (np.Arr2 (drop k H)) = P) ->
  getSymmetryDiffOp H fp !! k = Some D ->
  has_shape D P P.
Proof.
  intros bbox shape px py P Hpeak Hpx Hpy Hsize HD.
  destruct (lookup_getSymmetryDiffOp H fp k peak Hpeak) as [_ HD'].
  rewrite HD' in HD. injection HD as <-.
  fold bbox shape px py.
  set (S := getPeakSymmetryOperator (np.Arr2 (drop k H)) shape px py).
  destruct (getPeakSymmetryOperator_shape (np.Arr2 (drop k H)) shape px py
              Hpx Hpy Hsize) as [HS Hrows].
  fold S in HS, Hrows. change (Z.to_nat (snd shape * fst shape)) with P in *.
  assert (HSs : has_shape S P P).
  { split; [exact HS|]. apply Forall_rows. rewrite HS. exact Hrows. }
  assert (HP : (0 < P)%nat) by (unfold P; nia).
  unfold np.sub, np.add. apply has_shape_map2.
  - apply has_shape_map2.
    + unfold np.shape0. rewrite HS. apply has_shape_eye.
    + apply (has_shape_matmul_gen _ _ P P P); [exact HS|exact HSs|exact HP].
  - apply has_shape_scale. exact HSs.
Qed.

(** X28: for arrays whose shapes fit ([B] bands, [K] sources, the [P]
    pixels of the footprint's box) and a footprint whose peaks lie in its
    box (a peak at the exact centre being handed a slice [H[k:]] of [P]
    entries), the multiplicative update and the gradient step with the
    difference operators of the footprint as penalty need a row of [H] for
    every peak: they raise IndexError when the footprint has more peaks
    than [H] has rows, and return otherwise. *)
Theorem penalised_updates_need_row_per_peak (A W H : matrix)
    (fp : Footprint) (offset : Q) (includeBkg : bool)
    (stepW stepH alpha beta : Q) (B K P : nat) :
  let bbox := getBBox fp in
  let shape := (getHeight bbox, getWidth bbox) in
  let diffOp := Some (getSymmetryDiffOp H fp) in
  has_shape A B P -> has_shape W B K -> has_shape H K P ->
  (0 < B)%nat -> (0 < K)%nat -> (0 < P)%nat ->
  P = Z.to_nat (getWidth bbox * getHeight bbox) ->
  peaks_in_bbox fp ->
  (forall k peak,
      getPeaks fp !! k = Some peak ->
      centered shape (getIx peak - getMinX bbox) (getIy peak - getMinY bbox)
        = true ->
      np.size (np.Arr2 (drop k H)) = P) ->
  ((K < length (getPeaks fp))%nat ->
   multiplicativeUpdate A W H fp offset includeBkg beta diffOp
     = Raise IndexError
   /\ gradientDescent A W H fp offset includeBkg stepW stepH alpha beta
                      diffOp
      = Raise IndexError)
  /\ ((length (getPeaks fp) <= K)%nat ->
      (exists W' H',
          multiplicativeUpdate A W H fp offset includeBkg beta diffOp
            = Ok (W', H')
          /\ has_shape W' B K /\ has_shape H' K P)
      /\ (exists W' H',
             gradientDescent A W H fp offset includeBkg stepW stepH alpha
                             beta diffOp
               = Ok (W', H'))).
Proof.
  intros bbox shape diffOp HA HW HH HB HK HP HPbox Hpeaks Hcenter.
  assert (Hfit : forall k D,
             (k < K)%nat -> getSymmetryDiffOp H fp !! k = Some D ->
             has_shape D P P).
  { intros k D Hk HD.
    assert (Hlt : (k < length (getPeaks fp))%nat).
    { rewrite <- (length_getSymmetryDiffOp H fp).
      apply lookup_lt_is_Some. eauto. }
    destruct (getPeaks fp !! k) as [peak|] eqn:Epk;
      [|apply lookup_ge_None in Epk; lia].
    unfold peaks_in_bbox in Hpeaks. rewrite Forall_forall in Hpeaks.
    destruct (Hpeaks peak) as [Hpx Hpy].
    { apply list_elem_of_lookup. exists k. exact Epk. }
    rewrite HPbox.
    apply (getSymmetryDiffOp_fits H fp k peak D Epk Hpx Hpy); [|exact HD].
    intros Hc. rewrite (Hcenter k peak Epk Hc). exact HPbox. }
  split.
  - intros Hlt.
    assert (Hd : getIntensityDiff H (getSymmetryDiffOp H fp) offset
                                  includeBkg = Raise IndexError).
    { apply (getIntensityDiff_stops H _ offset includeBkg K P K);
        [exact HH|rewrite length_getSymmetryDiffOp; exact Hlt| |lia|].
      - apply Forall_lookup. intros k D HkD.
        apply lookup_take_Some in HkD. destruct HkD as [HkD Hk].
        apply (Hfit k D Hk HkD).
      - left. split; reflexivity. }
    unfold multiplicativeUpdate, gradientDescent, diffOp.
    rewrite Hd. split; reflexivity.
  - intros Hle.
    assert (Hall : Forall (fun D => has_shape D P P)
                          (getSymmetryDiffOp H fp)).
    { apply Forall_lookup. intros k D HkD. apply (Hfit k D); [|exact HkD].
      apply lookup_lt_Some in HkD.
      rewrite length_getSymmetryDiffOp in HkD. lia. }
    split.
    + apply (multiplicativeUpdate_shapes A W H fp offset includeBkg beta
               (Some (getSymmetryDiffOp H fp)) B K P); try assumption.
      split; [rewrite length_getSymmetryDiffOp; exact Hle|exact Hall].
    + destruct (getIntensityDiff_ok H (getSymmetryDiffOp H fp) offset
                  includeBkg K P HH HK) as (Hdiff & Hd & _);
        [rewrite length_getSymmetryDiffOp; exact Hle|exact Hall|].
      unfold gradientDescent, diffOp. rewrite Hd.
      cbn [mbind result_bind]. eexists. eexists. reflexivity.
Qed.

Lemma penalised_updates_need_row_per_peak_witness :
  multiplicativeUpdate [[1; 2]]%Q [[1]]%Q [[1; 1]]%Q
                       (mkFootprint (mkBBox 0 0 2 1)
                                    [mkPeak 0 0; mkPeak 1 0])
                       0 false 1
                       (Some (getSymmetryDiffOp
                                [[1; 1]]%Q
                                (mkFootprint (mkBBox 0 0 2 1)
                                             [mkPeak 0 0; mkPeak 1 0])))
  = Raise IndexError.
Proof.
  apply (proj1 (penalised_updates_need_row_per_peak [[1; 2]]%Q [[1]]%Q
                  [[1; 1]]%Q
                  (mkFootprint (mkBBox 0 0 2 1) [mkPeak 0 0; mkPeak 1 0])
                  0%Q false 1%Q 1%Q 0%Q 1%Q 1 1 2
                  ltac:(split; [reflexivity|repeat constructor])
                  ltac:(split; [reflexivity|repeat constructor])
                  ltac:(split; [reflexivity|repeat constructor])
                  ltac:(lia) ltac:(lia) ltac:(lia) eq_refl
                  ltac:(repeat constructor; simpl; lia)
                  ltac:(intros k peak Hpk Hc;
                        destruct k as [|[|k]]; [| |discriminate Hpk];
                        injection Hpk as <-; discriminate Hc))).
  simpl. lia.
Defined.

(** ** utils.py: the arrays of a footprint *)

Lemma bget_lookup (M : list (list bool)) (r c : nat) :
  bget M r c = default false (M !! r ≫= (fun row => row !! c)).
Proof.
  unfold bget. rewrite !nth_lookup.
  destruct (M !! r) as [row|]; [reflexivity|]. destruct c; reflexivity.
Qed.

Lemma py_index_inside (n : nat) (i : Z) :
  0 <= i < Z.of_nat n -> py_index n i = Some (Z.to_nat i).
Proof.
  intros Hi. unfold py_index.
  destruct (Z.leb_spec 0 i); [|lia].
  destruct (Z.ltb_spec i (Z.of_nat n)); [|lia]. reflexivity.
Qed.

Lemma bget_insert_row (M : list (list bool)) (i : nat)
    (row : list bool) (r c : nat) :
  (i < length M)%nat ->
  bget (<[i := row]> M) r c
  = if Nat.eqb r i then nth c row false else bget M r c.
Proof.
  intros Hi. unfold bget. destruct (Nat.eqb_spec r i) as [->|Hne].
  - rewrite (nth_lookup (<[i := row]> M)), list_lookup_insert_eq
      by exact Hi.
    reflexivity.
  - rewrite (nth_lookup (<[i := row]> M)), list_lookup_insert_ne
      by congruence.
    rewrite <- nth_lookup. reflexivity.
Qed.

Lemma Forall_insert_row {A : Type} (M : list (list A)) (i w : nat)
    (row : list A) :
  Forall (fun r => length r = w) M -> length row = w ->
  Forall (fun r => length r = w) (<[i := row]> M).
Proof. intros HM Hrow. apply Forall_insert; assumption. Qed.

Lemma set_row_slice_inside (M : list (list bool)) (h w : nat)
    (r a b : Z) (v : bool) :
  length M = h -> Forall (fun row => length row = w) M ->
  0 <= r < Z.of_nat h -> 0 <= a -> a <= b -> b <= Z.of_nat w ->
  exists M',
    set_row_slice M r a b v = Ok M'
    /\ length M' = h /\ Forall (fun row => length row = w) M'
    /\ forall r' c', (c' < w)%nat ->
         bget M' r' c'
         = if (Z.of_nat r' =? r) && (a <=? Z.of_nat c')
              && (Z.of_nat c' <? b)
           then v else bget M r' c'.
Proof.
  intros Hh Hw Hr Ha Hab Hb. unfold set_row_slice.
  rewrite (py_getitem_nonneg M r []) by lia. cbn [mbind result_bind].
  rewrite py_index_inside by lia. cbn [default from_option id].
  assert (Hrow : length (nth (Z.to_nat r) M []) = w).
  { rewrite Forall_lookup in Hw. rewrite nth_lookup.
    destruct (M !! Z.to_nat r) as [row|] eqn:E; [apply (Hw _ _ E)|].
    apply lookup_ge_None in E. lia. }
  rewrite Hrow, !py_bound_inside by lia.
  eexists. split; [reflexivity|]. split; [|split].
  - rewrite length_insert. exact Hh.
  - apply Forall_insert_row; [exact Hw|].
    rewrite length_imap. exact Hrow.
  - intros r' c' Hc. rewrite bget_insert_row by lia.
    destruct (Nat.eqb_spec r' (Z.to_nat r)) as [->|Hne].
    + destruct (Z.eqb_spec (Z.of_nat (Z.to_nat r)) r); [|lia].
      cbn [andb]. rewrite nth_lookup, list_lookup_imap.
      unfold bget. rewrite (nth_lookup (nth (Z.to_nat r) M [])).
      destruct (nth (Z.to_nat r) M [] !! c') as [x|] eqn:E;
        [|apply lookup_ge_None in E; lia].
      cbn [fmap option_fmap option_map default from_option id].
      destruct (Nat.leb_spec (Z.to_nat a) c');
        destruct (Z.leb_spec a (Z.of_nat c'));
        try lia; cbn [andb]; [|reflexivity].
      destruct (Nat.ltb_spec c' (Z.to_nat b));
        destruct (Z.ltb_spec (Z.of_nat c') b); try lia; reflexivity.
    + destruct (Z.eqb_spec (Z.of_nat r') r); [lia|]. reflexivity.
Qed.

Lemma set_entry_inside (M : list (list bool)) (h w : nat)
    (r c : Z) (v : bool) :
  length M = h -> Forall (fun row => length row = w) M ->
  0 <= r < Z.of_nat h -> 0 <= c < Z.of_nat w ->
  exists M',
    set_entry M r c v = Ok M'
    /\ length M' = h /\ Forall (fun row => length row = w) M'
    /\ forall r' c',
         bget M' r' c'
         = if (Z.of_nat r' =? r) && (Z.of_nat c' =? c)
           then v else bget M r' c'.
Proof.
  intros Hh Hw Hr Hc. unfold set_entry.
  rewrite (py_getitem_nonneg M r []) by lia. cbn [mbind result_bind].
  rewrite py_index_inside by lia. cbn [default from_option id].
  assert (Hrow : length (nth (Z.to_nat r) M []) = w).
  { rewrite Forall_lookup in Hw. rewrite nth_lookup.
    destruct (M !! Z.to_nat r) as [row|] eqn:E; [apply (Hw _ _ E)|].
    apply lookup_ge_None in E. lia. }
  rewrite (py_getitem_nonneg _ c false) by lia. cbn [mbind result_bind].
  rewrite py_index_inside by lia. cbn [default from_option id].
  eexists. split; [reflexivity|]. split; [|split].
  - rewrite length_insert. exact Hh.
  - apply Forall_insert_row; [exact Hw|].
    rewrite length_insert. exact Hrow.
  - intros r' c'. rewrite bget_insert_row by lia.
    destruct (Nat.eqb_spec r' (Z.to_nat r)) as [->|Hne].
    + destruct (Z.eqb_spec (Z.of_nat (Z.to_nat r)) r); [|lia].
      cbn [andb]. unfold bget.
      destruct (Z.eqb_spec (Z.of_nat c') c) as [E|E].
      * replace (Z.to_nat c) with c' by lia.
        rewrite nth_lookup, list_lookup_insert_eq by lia. reflexivity.
      * rewrite nth_lookup, list_lookup_insert_ne by lia.
        rewrite <- nth_lookup. reflexivity.
    + destruct (Z.eqb_spec (Z.of_nat r') r); [lia|]. reflexivity.
Qed.

Lemma nth_zip_with_bool (f : bool -> bool -> bool) (u v : list bool)
    (c : nat) :
  (c < length u)%nat -> (c < length v)%nat ->
  nth c (zip_with f u v) false = f (nth c u false) (nth c v false).
Proof.
  intros Hu Hv. rewrite !nth_lookup, lookup_zip_with.
  destruct (u !! c) as [x|] eqn:Eu; [|apply lookup_ge_None in Eu; lia].
  destruct (v !! c) as [y|] eqn:Ev; [|apply lookup_ge_None in Ev; lia].
  reflexivity.
Qed.

Lemma length_row (M : list (list bool)) (h w r : nat) :
  length M = h -> Forall (fun row => length row = w) M -> (r < h)%nat ->
  length (nth r M []) = w.
Proof.
  intros Hh Hw Hr. rewrite Forall_lookup in Hw. rewrite nth_lookup.
  destruct (M !! r) as [row|] eqn:E; [apply (Hw _ _ E)|].
  apply lookup_ge_None in E. lia.
Qed.

Lemma Forall_repeat_same {A : Type} (P : A -> Prop) (x : A) (n : nat) :
  P x -> Forall P (repeat x n).
Proof. intros Hx. induction n; constructor; assumption. Qed.

Section FootprintArrays.

Variable bbox : BBox.
Variables h w : nat.
Hypothesis Hh : h = Z.to_nat (getHeight bbox).
Hypothesis Hw : w = Z.to_nat (getWidth bbox).

Let shaped (M : list (list bool)) : Prop :=
  length M = h /\ Forall (fun row => length row = w) M.

Let marks (r c : nat) (s : Span.t) : bool :=
  (Z.of_nat r =? Span.getY s - getMinY bbox)
  && ((Z.of_nat c =? Span.getMinX s - getMinX bbox)
      || (Z.of_nat c =? Span.getMaxX s - getMinX bbox - 1)).

Lemma marks_covered (r c : nat) (s : Span.t) :
  span_inside bbox s -> marks r c s = true -> span_covers bbox r c s = true.
Proof.
  intros (Hy & Ha & Hab & Hb). unfold marks, span_covers.
  destruct (Z.eqb_spec (Z.of_nat r) (Span.getY s - getMinY bbox)) as [E|E];
    [|discriminate].
  destruct (Z.eqb_spec (Span.getY s - getMinY bbox) (Z.of_nat r)); [|lia].
  cbn [andb]. intros Hm. apply orb_true_iff in Hm.
  destruct Hm as [Hm|Hm]; apply Z.eqb_eq in Hm;
    destruct (Z.leb_spec (Span.getMinX s - getMinX bbox) (Z.of_nat c));
    destruct (Z.ltb_spec (Z.of_nat c) (Span.getMaxX s - getMinX bbox));
    try lia; reflexivity.
Qed.

Lemma spans_loop (spans : list Span.t) (B F : list (list bool)) :
  shaped B -> shaped F -> Forall (span_inside bbox) spans ->
  exists B' F',
    foldM (fun '(border, filled) span =>
             let y := Span.getY span in
             filled ← set_row_slice filled (y - getMinY bbox)
                        (Span.getMinX span - getMinX bbox)
                        (Span.getMaxX span - getMinX bbox) true;
             border ← set_entry border (y - getMinY bbox)
                        (Span.getMinX span - getMinX bbox) true;
             border ← set_entry border (y - getMinY bbox)
                        (Span.getMaxX span - getMinX bbox - 1) true;
             Ok (border, filled))
          spans (B, F)
    = Ok (B', F')
    /\ shaped B' /\ shaped F'
    /\ (forall r c, (c < w)%nat ->
          bget F' r c = bget F r c || existsb (span_covers bbox r c) spans)
    /\ (forall r c,
          bget B' r c = bget B r c || existsb (marks r c) spans).
Proof.
  intros HB HF Hin. revert B F HB HF.
  induction Hin as [|s spans Hs _ IH]; intros B F HB HF.
  - exists B, F. cbn [foldM existsb]. split; [reflexivity|].
    split; [exact HB|]. split; [exact HF|].
    split; intros; rewrite orb_false_r; reflexivity.
  - cbn [foldM]. destruct Hs as (Hy & Ha & Hab & Hb).
    destruct HB as [HB1 HB2]. destruct HF as [HF1 HF2].
    destruct (set_row_slice_inside F h w (Span.getY s - getMinY bbox)
                (Span.getMinX s - getMinX bbox)
                (Span.getMaxX s - getMinX bbox) true HF1 HF2)
      as (F1 & HrunF & HF1l & HF1w & HF1g); try lia.
    rewrite HrunF. cbn [mbind result_bind].
    destruct (set_entry_inside B h w (Span.getY s - getMinY bbox)
                (Span.getMinX s - getMinX bbox) true HB1 HB2)
      as (B1 & HrunB1 & HB1l & HB1w & HB1g); try lia.
    rewrite HrunB1. cbn [mbind result_bind].
    destruct (set_entry_inside B1 h w (Span.getY s - getMinY bbox)
                (Span.getMaxX s - getMinX bbox - 1) true HB1l HB1w)
      as (B2 & HrunB2 & HB2l & HB2w & HB2g); try lia.
    rewrite HrunB2. cbn [mbind result_bind].
    destruct (IH B2 F1 (conj HB2l HB2w) (conj HF1l HF1w))
      as (B' & F' & Hrun & HB' & HF' & HgF & HgB).
    exists B', F'. split; [exact Hrun|]. split; [exact HB'|].
    split; [exact HF'|]. split.
    + intros r c Hc. rewrite (HgF r c Hc), (HF1g r c Hc).
      cbn [existsb]. unfold span_covers at 2.
      rewrite (Z.eqb_sym (Span.getY s - getMinY bbox) (Z.of_nat r)).
      destruct (_ && _ && _); cbn [orb];
        [rewrite orb_true_r|]; reflexivity.
    + intros r c. rewrite (HgB r c), (HB2g r c), (HB1g r c).
      cbn [existsb]. unfold marks at 2.
      destruct (Z.of_nat r =? Span.getY s - getMinY bbox);
        destruct (Z.of_nat c =? Span.getMinX s - getMinX bbox);
        destruct (Z.of_nat c =? Span.getMaxX s - getMinX bbox - 1);
        cbn [andb orb]; rewrite ?orb_true_r; reflexivity.
Qed.

Let prev (r : nat) : nat := if Nat.eqb r 0 then (h - 1)%nat else (r - 1)%nat.

Let edge (F : list (list bool)) (r c : nat) : bool :=
  bget F r c
  && (xorb (bget F r c) (bget F (prev r) c)
      || xorb (bget F r c) (bget F (r + 1) c)).

Lemma border_loop (F : list (list bool)) (n a : nat)
    (B : list (list bool)) :
  shaped F -> shaped B -> (a + n < h)%nat ->
  exists B',
    foldM (fun border n =>
             bn ← py_getitem border n;
             fn ← py_getitem F n;
             fp ← py_getitem F (n - 1);
             fs ← py_getitem F (n + 1);
             Ok (<[Z.to_nat n :=
                     zip_with orb bn
                       (zip_with andb fn
                          (zip_with orb (zip_with xorb fn fp)
                                    (zip_with xorb fn fs)))]> border))
          (map Z.of_nat (seq a n)) B
    = Ok B'
    /\ shaped B'
    /\ forall r c, (c < w)%nat ->
         bget B' r c
         = if (a <=? r)%nat && (r <? a + n)%nat
           then bget B r c || edge F r c else bget B r c.
Proof.
  intros [HF1 HF2]. revert a B.
  induction n as [|n IH]; intros a B [HB1 HB2] Han.
  - exists B. cbn [seq map foldM]. split; [reflexivity|].
    split; [split; assumption|]. intros r c _.
    destruct (Nat.leb_spec a r); destruct (Nat.ltb_spec r (a + 0));
      cbn [andb]; try reflexivity. lia.
  - cbn [seq map foldM].
    rewrite (py_getitem_nonneg B (Z.of_nat a) []) by lia.
    cbn [mbind result_bind].
    rewrite (py_getitem_nonneg F (Z.of_nat a) []) by lia.
    cbn [mbind result_bind].
    assert (Hp : py_getitem F (Z.of_nat a - 1) = Ok (nth (prev a) F [])).
    { unfold prev. destruct (Nat.eqb_spec a 0) as [->|Hne].
      - rewrite (py_getitem_negative F _ []) by (simpl; lia).
        do 2 f_equal. simpl. lia.
      - rewrite (py_getitem_nonneg F _ []) by lia.
        do 2 f_equal. lia. }
    rewrite Hp. cbn [mbind result_bind].
    rewrite (py_getitem_nonneg F (Z.of_nat a + 1) []) by lia.
    cbn [mbind result_bind]. rewrite Nat2Z.id.
    replace (Z.to_nat (Z.of_nat a + 1)) with (a + 1)%nat by lia.
    set (row := zip_with orb _ _).
    assert (Hpa : (prev a < h)%nat).
    { unfold prev. destruct (Nat.eqb a 0); lia. }
    pose proof (length_row B h w a HB1 HB2 ltac:(lia)) as Lb.
    pose proof (length_row F h w a HF1 HF2 ltac:(lia)) as Lf.
    pose proof (length_row F h w (prev a) HF1 HF2 Hpa) as Lp.
    pose proof (length_row F h w (a + 1) HF1 HF2 ltac:(lia)) as Ls.
    assert (Hrow : length row = w).
    { unfold row. rewrite !length_zip_with. lia. }
    destruct (IH (S a) (<[a := row]> B)) as (B' & Hrun & HB' & Hg).
    + split; [rewrite length_insert; exact HB1|].
      apply Forall_insert_row; assumption.
    + lia.
    + exists B'. split; [exact Hrun|]. split; [exact HB'|].
      intros r c Hc. rewrite (Hg r c Hc), bget_insert_row by lia.
      destruct (Nat.eqb_spec r a) as [->|Hne].
      * destruct (Nat.leb_spec (S a) a); [lia|]. cbn [andb].
        destruct (Nat.leb_spec a a); [|lia].
        destruct (Nat.ltb_spec a (a + S n)); [|lia]. cbn [andb].
        unfold row, edge, bget.
        rewrite !nth_zip_with_bool by (rewrite ?length_zip_with; lia).
        reflexivity.
      * destruct (Nat.leb_spec (S a) r); destruct (Nat.leb_spec a r);
          destruct (Nat.ltb_spec r (S a + n));
          destruct (Nat.ltb_spec r (a + S n)); cbn [andb]; try lia;
          reflexivity.
Qed.

Lemma getFootprintArray_inside (spans : list Span.t) :
  (0 < h)%nat -> 0 <= getWidth bbox ->
  Forall (span_inside bbox) spans ->
  exists border filled,
    getFootprintArray spans bbox = Ok (border, filled)
    /\ shaped border /\ shaped filled
    /\ (forall r c, (r < h)%nat -> (c < w)%nat ->
          bget filled r c = existsb (span_covers bbox r c) spans)
    /\ (forall r c, (r < h)%nat -> (c < w)%nat ->
          bget border r c
          = if Nat.eqb r (h - 1) then bget filled r c
            else if Nat.eqb r 0 then bget filled r c
            else existsb (marks r c) spans || edge filled r c).
Proof.
  intros Hpos Hwidth Hin. unfold getFootprintArray.
  destruct (Z.ltb_spec (getHeight bbox) 0); [lia|].
  destruct (Z.ltb_spec (getWidth bbox) 0); [lia|]. cbn [orb].
  rewrite <- Hh, <- Hw.
  set (zeros := repeat (repeat false w) h).
  assert (Hz : shaped zeros).
  { split; [apply repeat_length|].
    apply Forall_repeat_same, repeat_length. }
  assert (Hzg : forall r c, bget zeros r c = false).
  { intros r c. unfold bget, zeros.
    destruct (Nat.lt_ge_cases r h) as [Hr|Hr].
    - rewrite nth_repeat_lt by exact Hr.
      destruct (Nat.lt_ge_cases c w) as [Hc|Hc].
      + apply nth_repeat_lt. exact Hc.
      + apply nth_overflow. rewrite repeat_length. exact Hc.
    - rewrite (nth_overflow (repeat _ h))
        by (rewrite repeat_length; exact Hr).
      destruct c; reflexivity. }
  destruct (Nat.eqb_spec (length zeros) 0) as [E|_];
    [destruct Hz as [Hz _]; lia|].
  destruct (spans_loop spans zeros zeros Hz Hz Hin)
    as (B & F & Hrun & [HB1 HB2] & [HF1 HF2] & HgF & HgB).
  cbv zeta in Hrun. rewrite Hrun. cbn [mbind result_bind].
  rewrite (py_getitem_nonneg F 0 []) by lia. cbn [mbind result_bind].
  rewrite (py_getitem_negative F (-1) []) by lia.
  cbn [mbind result_bind]. rewrite !length_insert, ?HB1, ?HF1.
  replace (Z.to_nat (-1 + Z.of_nat h)) with (h - 1)%nat by lia.
  replace (Z.to_nat 0) with 0%nat by reflexivity.
  set (B1 := <[(h - 1)%nat := nth (h - 1) F []]> (<[0%nat := nth 0 F []]> B)).
  assert (HB1s : shaped B1).
  { unfold B1. split; [rewrite !length_insert; exact HB1|].
    apply Forall_insert_row;
      [apply Forall_insert_row; [exact HB2|]|];
      apply (length_row F h w); assumption || lia. }
  assert (HB1g : forall r c,
             bget B1 r c
             = if Nat.eqb r (h - 1) then bget F r c
               else if Nat.eqb r 0 then bget F r c else bget B r c).
  { intros r c. unfold B1.
    rewrite bget_insert_row by (rewrite length_insert; lia).
    destruct (Nat.eqb_spec r (h - 1)) as [->|_]; [reflexivity|].
    rewrite bget_insert_row by lia.
    destruct (Nat.eqb_spec r 0) as [->|_]; reflexivity. }
  unfold np.range.
  replace (Z.to_nat (Z.of_nat h - 1)) with (h - 1)%nat by lia.
  destruct (border_loop F (h - 1) 0 B1 (conj HF1 HF2) HB1s ltac:(lia))
    as (B' & Hrun2 & HB' & HgB').
  rewrite Hrun2. cbn [mbind result_bind].
  exists B', F. split; [reflexivity|]. split; [exact HB'|].
  split; [split; assumption|]. split.
  - intros r c _ Hc. rewrite (HgF r c Hc), Hzg. reflexivity.
  - intros r c Hr Hc. rewrite (HgB' r c Hc), HB1g.
    destruct (Nat.leb_spec 0 r); [|lia]. cbn [andb].
    destruct (Nat.eqb_spec r (h - 1)) as [->|Hne].
    + destruct (Nat.ltb_spec (h - 1) (0 + (h - 1))); [lia|]. reflexivity.
    + destruct (Nat.ltb_spec r (0 + (h - 1))); [|lia].
      destruct (Nat.eqb_spec r 0) as [->|Hne0].
      * unfold edge. destruct (bget F 0 c); reflexivity.
      * rewrite HgB, Hzg. reflexivity.
Qed.

Lemma bget_outside (M : list (list bool)) (r c : nat) :
  shaped M -> (h <= r)%nat \/ (w <= c)%nat -> bget M r c = false.
Proof.
  intros [Hl Hr] Hout. unfold bget.
  destruct (Nat.lt_ge_cases r h) as [Hlt|Hge].
  - apply nth_overflow. rewrite (length_row M h w r Hl Hr Hlt). lia.
  - rewrite (nth_overflow M) by lia. destruct c; reflexivity.
Qed.

Lemma getFootprintArray_border_inside (spans : list Span.t) :
  (0 < h)%nat -> 0 <= getWidth bbox ->
  Forall (span_inside bbox) spans ->
  exists border filled,
    getFootprintArray spans bbox = Ok (border, filled)
    /\ (forall r c, bget border r c = true -> bget filled r c = true)
    /\ (forall c, bget border 0 c = bget filled 0 c
                  /\ bget border (h - 1) c = bget filled (h - 1) c)
    /\ (forall r c, (0 < r < h - 1)%nat -> (c < w)%nat ->
          bget filled r c = true ->
          bget filled (r - 1) c = false \/ bget filled (r + 1) c = false ->
          bget border r c = true)
    /\ (forall s, In s spans ->
          let r := Z.to_nat (Span.getY s - getMinY bbox) in
          bget border r (Z.to_nat (Span.getMinX s - getMinX bbox)) = true
          /\ bget border r (Z.to_nat (Span.getMaxX s - getMinX bbox - 1))
             = true).
Proof.
  intros Hpos Hwidth Hin.
  destruct (getFootprintArray_inside spans Hpos Hwidth Hin)
    as (border & filled & Hrun & HB & HF & HgF & HgB).
  assert (Hsub : forall r c, bget border r c = true ->
                             bget filled r c = true).
  { intros r c Hb.
    destruct (Nat.lt_ge_cases r h) as [Hr|Hr];
      [|rewrite (bget_outside border r c HB) in Hb by lia; discriminate].
    destruct (Nat.lt_ge_cases c w) as [Hc|Hc];
      [|rewrite (bget_outside border r c HB) in Hb by lia; discriminate].
    rewrite (HgB r c Hr Hc) in Hb.
    destruct (Nat.eqb r (h - 1)); [exact Hb|].
    destruct (Nat.eqb r 0); [exact Hb|].
    apply orb_true_iff in Hb. destruct Hb as [Hm|He].
    - rewrite (HgF r c Hr Hc). apply existsb_exists in Hm.
      destruct Hm as (s & Hs & Hm). apply existsb_exists.
      exists s. split; [exact Hs|]. apply marks_covered; [|exact Hm].
      rewrite Forall_forall in Hin. apply Hin, list_elem_of_In, Hs.
    - unfold edge in He. apply andb_true_iff in He. apply He. }
  assert (Hends : forall r c, (r < h)%nat -> (c < w)%nat ->
                    existsb (marks r c) spans = true ->
                    bget border r c = true).
  { intros r c Hr Hc Hm. rewrite (HgB r c Hr Hc).
    destruct (Nat.eqb r (h - 1) || Nat.eqb r 0) eqn:E.
    - assert (Hf : bget filled r c = true).
      { rewrite (HgF r c Hr Hc). apply existsb_exists in Hm.
        destruct Hm as (s & Hs & Hm). apply existsb_exists.
        exists s. split; [exact Hs|]. apply marks_covered; [|exact Hm].
        rewrite Forall_forall in Hin. apply Hin, list_elem_of_In, Hs. }
      destruct (Nat.eqb r (h - 1)); [exact Hf|].
      destruct (Nat.eqb r 0); [exact Hf|discriminate E].
    - apply orb_false_iff in E. destruct E as [-> ->].
      rewrite Hm. reflexivity. }
  exists border, filled. split; [exact Hrun|]. split; [exact Hsub|].
  split; [|split].
  - intros c. destruct (Nat.lt_ge_cases c w) as [Hc|Hc].
    + rewrite (HgB 0%nat c Hpos Hc), (HgB (h - 1)%nat c ltac:(lia) Hc).
      rewrite !Nat.eqb_refl.
      destruct (Nat.eqb 0 (h - 1)); split; reflexivity.
    + rewrite !(bget_outside border _ c HB), !(bget_outside filled _ c HF)
        by lia.
      split; reflexivity.
  - intros r c Hr Hc Hf Hnb. rewrite (HgB r c ltac:(lia) Hc).
    destruct (Nat.eqb_spec r (h - 1)); [lia|].
    destruct (Nat.eqb_spec r 0); [lia|].
    apply orb_true_iff. right. unfold edge, prev. rewrite Hf.
    destruct (Nat.eqb_spec r 0); [lia|].
    destruct Hnb as [-> | ->]; cbn [andb xorb orb];
      rewrite ?orb_true_r; reflexivity.
  - intros s Hs r. rewrite Forall_forall in Hin.
    pose proof (Hin s (proj2 (list_elem_of_In _ _) Hs)) as Hinside.
    destruct Hinside as (Hy & Ha & Hab & Hb).
    split; apply Hends; try lia; apply existsb_exists; exists s;
      (split; [exact Hs|]); unfold marks, r;
      rewrite !Z2Nat.id by lia; rewrite !Z.eqb_refl;
      cbn [andb orb]; rewrite ?orb_true_r; reflexivity.
Qed.

End FootprintArrays.

(** X29: for a bounding box of positive height and spans inside it (each
    with [getMinX < getMaxX]), [getFootprintArray] returns two arrays of
    the height and width of the box, and a pixel of [filled] is set
    exactly when a span of its row holds its column, the column
    [getMaxX] of the span not included. *)
Theorem getFootprintArray_filled (spans : list Span.t) (bbox : BBox) :
  0 < getHeight bbox -> 0 <= getWidth bbox ->
  Forall (span_inside bbox) spans ->
  let h := Z.to_nat (getHeight bbox) in
  let w := Z.to_nat (getWidth bbox) in
  exists border filled,
    getFootprintArray spans bbox = Ok (border, filled)
    /\ (length border = h /\ Forall (fun row => length row = w) border)
    /\ (length filled = h /\ Forall (fun row => length row = w) filled)
    /\ forall r c, (r < h)%nat -> (c < w)%nat ->
         bget filled r c = existsb (span_covers bbox r c) spans.
Proof.
  intros Hh Hw Hin h w.
  destruct (getFootprintArray_inside bbox h w eq_refl eq_refl spans
              ltac:(unfold h; lia) Hw Hin)
    as (border & filled & Hrun & HB & HF & HgF & _).
  exists border, filled. auto.
Qed.

Lemma getFootprintArray_filled_witness :
  exists border filled,
    getFootprintArray [Span.mk 5 11 13; Span.mk 6 10 12] (mkBBox 10 5 4 3)
      = Ok (border, filled)
    /\ bget filled 0 1 = true /\ bget filled 0 3 = false.
Proof.
  destruct (getFootprintArray_filled [Span.mk 5 11 13; Span.mk 6 10 12]
              (mkBBox 10 5 4 3))
    as (border & filled & Hrun & _ & _ & Hg);
    [simpl; lia|simpl; lia| |].
  - repeat constructor; simpl; lia.
  - exists border, filled. split; [exact Hrun|].
    split; [rewrite (Hg 0%nat 1%nat)|rewrite (Hg 0%nat 3%nat)];
      simpl; try lia; reflexivity.
Defined.

(** X30: under the same conditions the array [border] of
    [getFootprintArray] lies inside [filled]; its first and last rows are
    those of [filled]; it holds the first and the last pixel of every
    span; and on the rows in between it holds every filled pixel that has
    an unfilled pixel directly above or below it. *)
Theorem getFootprintArray_border (spans : list Span.t) (bbox : BBox) :
  0 < getHeight bbox -> 0 <= getWidth bbox ->
  Forall (span_inside bbox) spans ->
  let h := Z.to_nat (getHeight bbox) in
  let w := Z.to_nat (getWidth bbox) in
  exists border filled,
    getFootprintArray spans bbox = Ok (border, filled)
    /\ (forall r c, bget border r c = true -> bget filled r c = true)
    /\ (forall c, bget border 0 c = bget filled 0 c
                  /\ bget border (h - 1) c = bget filled (h - 1) c)
    /\ (forall r c, (0 < r < h - 1)%nat -> (c < w)%nat ->
          bget filled r c = true ->
          bget filled (r - 1) c = false \/ bget filled (r + 1) c = false ->
          bget border r c = true)
    /\ (forall s, In s spans ->
          let r := Z.to_nat (Span.getY s - getMinY bbox) in
          bget border r (Z.to_nat (Span.getMinX s - getMinX bbox)) = true
          /\ bget border r (Z.to_nat (Span.getMaxX s - getMinX bbox - 1))
             = true).
Proof.
  intros Hh Hw Hin h w.
  apply (getFootprintArray_border_inside bbox h w eq_refl eq_refl spans
           ltac:(unfold h; lia) Hw Hin).
Qed.

Lemma getFootprintArray_border_witness :
  exists border filled,
    getFootprintArray [Span.mk 5 10 13; Span.mk 6 10 13; Span.mk 7 10 13;
                       Span.mk 8 10 13] (mkBBox 10 5 3 4)
      = Ok (border, filled)
    /\ bget border 1 0 = true /\ bget border 1 2 = true
    /\ bget border 0 1 = bget filled 0 1.
Proof.
  destruct (getFootprintArray_border
              [Span.mk 5 10 13; Span.mk 6 10 13; Span.mk 7 10 13;
               Span.mk 8 10 13] (mkBBox 10 5 3 4))
    as (border & filled & Hrun & _ & Hrows & _ & Hends);
    [simpl; lia|simpl; lia| |].
  - repeat constructor; simpl; lia.
  - exists border, filled. split; [exact Hrun|].
    destruct (Hends (Span.mk 6 10 13)) as [Ha Hb];
      [simpl; auto|].
    split; [exact Ha|]. split; [exact Hb|]. apply (Hrows 1%nat).
Defined.
